(** * Mob proto editor: the data and I/O logic of [mob_proto_editor_simple.py]

    A shallow embedding of the editor's file loading, name resolution,
    mass edit and saving, with the properties of its specification.

    Python values are modelled as follows.
    - [str] is a list of Unicode code points ([pystr]), [bytes] a list of
      [byte].
    - [float] is IEEE 754 binary64, through [SpecFloat] ([prec = 53],
      [emax = 1024]).
    - [dict] is a [gmap]; the grid widget is a finite map from positions
      to cell texts together with its row and column counts.
    - A raised exception is the [Raise] case of [result]; code that
      mutates the editor threads the editor through explicitly.
    - Tables of the Python runtime that the repository does not contain
      (the codecs, the Unicode decimal-digit table) are arguments of the
      functions that use them. *)

From Stdlib Require Import ZArith NArith List Bool Lia String Ascii.
From Stdlib Require Import Strings.Byte Numbers.DecimalString.
From Stdlib Require Import Numbers.DecimalPos.
From Stdlib Require Import Floats.SpecFloat.
From stdpp Require Import gmap list.
From Equations.Prop Require Import Equations Logic.
Import ListNotations.

Local Open Scope N_scope.

(** ** Python strings *)

Abbreviation pystr := (list N).

(** An ASCII literal as a Python string. *)
Definition py (s : string) : pystr :=
  map N_of_ascii (list_ascii_of_string s).

Definition TAB : N := 9.
Definition LF : N := 10.
Definition CR : N := 13.

(** [str.isspace] for one code point: the characters that [str.strip()]
    removes. *)
Definition is_space (c : N) : bool :=
  ((9 <=? c) && (c <=? 13)) || ((28 <=? c) && (c <=? 32))
  || (c =? 133) || (c =? 160) || (c =? 5760)
  || ((8192 <=? c) && (c <=? 8202))
  || (c =? 8232) || (c =? 8233) || (c =? 8239) || (c =? 8287)
  || (c =? 12288).

Fixpoint lstrip (s : pystr) : pystr :=
  match s with
  | [] => []
  | c :: s' => if is_space c then lstrip s' else s
  end.

Definition rstrip (s : pystr) : pystr := rev (lstrip (rev s)).

(** [s.strip()] *)
Definition strip (s : pystr) : pystr := rstrip (lstrip s).

(** [s.split(sep)] for a one-character separator: always at least one
    field. *)
Fixpoint split (sep : N) (s : pystr) : list pystr :=
  match s with
  | [] => [[]]
  | c :: s' =>
      if c =? sep then [] :: split sep s'
      else match split sep s' with
           | f :: fs => (c :: f) :: fs
           | [] => [[c]]
           end
  end.

(** [sep.join(fields)] *)
Fixpoint join (sep : pystr) (fields : list pystr) : pystr :=
  match fields with
  | [] => []
  | [f] => f
  | f :: fs => f ++ sep ++ join sep fs
  end.

Definition pystr_eqb (s t : pystr) : bool := bool_decide (s = t).

(** [prefix.startswith]-style test: is [p] a prefix of [s]? *)
Fixpoint starts_with (p s : pystr) : bool :=
  match p, s with
  | [], _ => true
  | _ :: _, [] => false
  | a :: p', b :: s' => (a =? b) && starts_with p' s'
  end.

(** [s.replace(old, new)]: the occurrences of [old] are found from left
    to right and do not overlap. [skip] counts the characters of a match
    still to be dropped. *)
Fixpoint replace_from (old new : pystr) (skip : nat) (s : pystr) : pystr :=
  match s with
  | [] => []
  | c :: s' =>
      match skip with
      | S k => replace_from old new k s'
      | O =>
          if starts_with old s
          then new ++ replace_from old new (Nat.pred (length old)) s'
          else c :: replace_from old new O s'
      end
  end.

(** [old] is never empty at the call sites of the program. *)
Definition replace (old new s : pystr) : pystr := replace_from old new O s.

(** ** Exceptions *)

Inductive exn : Type :=
| UnicodeDecodeError
| UnicodeEncodeError
| ValueError
| TypeError
| OverflowError
| IndexError
| OSError.

Inductive result (A : Type) : Type :=
| Ok (a : A)
| Raise (e : exn).
Arguments Ok {A} a.
Arguments Raise {A} e.

(** Sequencing: an exception raised by [m] skips the rest. The notation
    [x ← m; k] is the one of stdpp's [MBind]. *)
#[global] Instance result_bind : MBind result := fun A B k m =>
  match m with
  | Ok a => k a
  | Raise e => Raise e
  end.

#[global] Instance result_ret : MRet result := fun A a => Ok a.

(** ** Text files *)

(** Reading in text mode translates the line ends [\r\n] and [\r] to
    [\n]. *)
Fixpoint universal_newlines (s : pystr) : pystr :=
  match s with
  | [] => []
  | c :: s' =>
      if c =? CR then
        match s' with
        | d :: s'' =>
            if d =? LF then LF :: universal_newlines s''
            else LF :: universal_newlines s'
        | [] => [LF]
        end
      else c :: universal_newlines s'
  end.

(** Cut a text after each [\n]; every line keeps its terminator. *)
Fixpoint keep_lines (s : pystr) : list pystr :=
  match s with
  | [] => []
  | c :: s' =>
      if c =? LF then [c] :: keep_lines s'
      else match keep_lines s' with
           | [] => [[c]]
           | l :: ls => (c :: l) :: ls
           end
  end.

(** [f.readlines()] on a file opened in text mode. *)
Definition readlines (text : pystr) : list pystr :=
  keep_lines (universal_newlines text).

(** [[line.strip() for line in ls if line.strip()]] *)
Fixpoint stripped_nonblank (ls : list pystr) : list pystr :=
  match ls with
  | [] => []
  | l :: ls' =>
      match strip l with
      | [] => stripped_nonblank ls'
      | s => s :: stripped_nonblank ls'
      end
  end.

(** ** Proto table loader ([load_file_fast], the parsing part) *)

(** [while len(row) < len(self.headers): row.append('')], with the
    header length [n]. The loop ends because [n - len(row)] decreases. *)
Equations? pad_row (n : nat) (row : list pystr) : list pystr
  by wf (n - length row)%nat lt :=
  pad_row n row with inspect (length row <? n)%nat := {
    | exist _ true Hlt => pad_row n (row ++ [[]]);
    | exist _ false _ => row }.
Proof.
  apply Nat.ltb_lt in Hlt. rewrite length_app. simpl. lia.
Qed.

Record proto_table : Type := ProtoTable {
  pt_headers : list pystr;
  pt_data : list (list pystr)
}.

(** The part of [load_file_fast] after the lines are read: [None] is the
    'File is empty' warning. *)
Definition parse_lines (lines : list pystr) : option proto_table :=
  match lines with
  | [] => None
  | first :: rest =>
      let headers := split TAB first in
      Some (ProtoTable headers
              (map (fun line => pad_row (length headers) (split TAB line)) rest))
  end.

(** ** Encoding resolver ([load_file_fast], the reading part) *)

(** The candidate list of [load_file_fast], by codec name. *)
Definition encodings_to_try : list pystr :=
  [py "cp949"; py "euc-kr"; py "utf-8"; py "utf-8-sig"; py "latin1";
   py "cp1252"].

(** The decoders of the Python runtime, looked up by name: [lib name
    content] is the text of a file with bytes [content] read with
    [open(file_path, 'r', encoding=name)], or the exception raised on
    content the codec cannot decode. *)
Definition codec_library : Type := pystr -> list byte -> result pystr.

(** What the latin1 codec does: the byte [b] becomes the code point
    [b]. *)
Definition latin1_decode (content : list byte) : pystr :=
  map Byte.to_N content.

(** The codec named [encoding] cannot decode [content]. *)
Definition refuses (lib : codec_library) (encoding : pystr)
    (content : list byte) : Prop :=
  exists e, lib encoding content = Raise e.

Definition latin1_codec (lib : codec_library) : Prop :=
  forall content, lib (py "latin1") content = Ok (latin1_decode content).

(** What the cp949 codec does on bytes below 128: each is the code point
    of the same number. *)
Definition cp949_ascii (lib : codec_library) : Prop :=
  forall content,
    Forall (fun b => Byte.to_N b < 128) content ->
    lib (py "cp949") content = Ok (latin1_decode content).

(** The [for encoding in encodings_to_try] loop: [Some (lines, encoding)]
    when it leaves by [break], [None] when [lines] is still [None] after
    the last candidate. Both [except] clauses continue with the next
    candidate. *)
Fixpoint try_encodings (lib : codec_library) (encodings : list pystr)
    (content : list byte) : option (list pystr * pystr) :=
  match encodings with
  | [] => None
  | encoding :: rest =>
      match text ← lib encoding content; Ok (readlines text) with
      | Ok ls => Some (stripped_nonblank ls, encoding)
      | Raise UnicodeDecodeError => try_encodings lib rest content
      | Raise _ => try_encodings lib rest content
      end
  end.

(** The lines read from the file and the encoding stored in
    [self.file_encoding]. [lossy] is
    [bytes.decode('utf-8', errors='replace')], which substitutes U+FFFD
    for what it cannot decode and so has no failing case. The fallback
    cuts the text at [\n] only. *)
Definition read_lines (lib : codec_library) (lossy : list byte -> pystr)
    (content : list byte) : result (list pystr * option pystr) :=
  match try_encodings lib encodings_to_try content with
  | Some (lines, encoding) => Ok (lines, Some encoding)
  | None => Ok (stripped_nonblank (split LF (lossy content)), None)
  end.

(** ** The grid widget *)

(** What the program uses of [QTableWidget]: the row and column counts
    and the cell items, each holding its text. *)
Record QTable : Type := MkQTable {
  rowCount : nat;
  columnCount : nat;
  items : gmap (nat * nat) pystr
}.

Definition in_grid (t : QTable) (r c : nat) : bool :=
  (r <? rowCount t)%nat && (c <? columnCount t)%nat.

(** [table.item(row, col)]: [None] where no item was set. *)
Definition item (t : QTable) (r c : nat) : option pystr :=
  if in_grid t r c then items t !! (r, c) else None.

(** [table.setItem(row, col, QTableWidgetItem(text))]; a position
    outside the grid keeps no item. *)
Definition setItem (t : QTable) (r c : nat) (text : pystr) : QTable :=
  if in_grid t r c
  then MkQTable (rowCount t) (columnCount t) (<[(r, c) := text]> (items t))
  else t.

(** [table.setRowCount(n)] and [table.setColumnCount(n)]: the items
    outside the new grid are dropped. *)
Definition setRowCount (n : nat) (t : QTable) : QTable :=
  MkQTable n (columnCount t)
    (filter (fun kv : nat * nat * pystr => (kv.1.1 < n)%nat) (items t)).

Definition setColumnCount (n : nat) (t : QTable) : QTable :=
  MkQTable (rowCount t) n
    (filter (fun kv : nat * nat * pystr => (kv.1.2 < n)%nat) (items t)).

(** Every item lies inside the grid. *)
Definition items_in_grid (t : QTable) : Prop :=
  forall r c text, items t !! (r, c) = Some text ->
                   (r < rowCount t)%nat /\ (c < columnCount t)%nat.

(** [t'] has the size of [t] and differs from it only at positions
    satisfying [P]. *)
Definition changed_only (P : nat -> nat -> Prop) (t t' : QTable) : Prop :=
  rowCount t' = rowCount t /\ columnCount t' = columnCount t /\
  forall r c, item t' r c <> item t r c -> P r c.

(** ** The editor *)

Record editor : Type := MkEditor {
  file_path : option pystr;
  data : list (list pystr);
  headers : list pystr;
  mob_names : gmap pystr pystr;
  file_encoding : option pystr;
  table : QTable
}.

Definition set_data (d : list (list pystr)) (ed : editor) : editor :=
  MkEditor (file_path ed) d (headers ed) (mob_names ed) (file_encoding ed)
    (table ed).
Definition set_headers (h : list pystr) (ed : editor) : editor :=
  MkEditor (file_path ed) (data ed) h (mob_names ed) (file_encoding ed)
    (table ed).
Definition set_table (t : QTable) (ed : editor) : editor :=
  MkEditor (file_path ed) (data ed) (headers ed) (mob_names ed)
    (file_encoding ed) t.
Definition set_file_path (p : pystr) (ed : editor) : editor :=
  MkEditor (Some p) (data ed) (headers ed) (mob_names ed) (file_encoding ed)
    (table ed).
Definition set_file_encoding (e : pystr) (ed : editor) : editor :=
  MkEditor (file_path ed) (data ed) (headers ed) (mob_names ed) (Some e)
    (table ed).

(** [l[i]], which raises [IndexError] out of range. *)
Definition index {A} (l : list A) (i : nat) : result A :=
  match l !! i with
  | Some x => Ok x
  | None => Raise IndexError
  end.

(** ** Name resolution ([get_mob_name], [setup_table]) *)

Definition NAME : pystr := py "NAME".

Definition placeholders : list pystr := [py "??"; py "???"; py "????"].

Definition get_mob_name (names : gmap pystr pystr)
    (vnum original_name : pystr) : pystr :=
  match names !! vnum with
  | Some name => name
  | None =>
      match original_name with
      | [] => py "Mob " ++ vnum
      | _ :: _ =>
          if bool_decide (original_name ∈ placeholders)
          then py "Mob " ++ vnum
          else original_name
      end
  end.

(** The body of the inner loop of [setup_table] at cell [(r, col)]
    holding [value]: the row and the grid after it. [row_data] is the
    row object itself, so that the assignment to [self.data[row][col]]
    is an update of it. *)
Definition setup_cell (names : gmap pystr pystr) (hdrs : list pystr)
    (r col : nat) (value : pystr) (row_data : list pystr) (t : QTable)
    : result (list pystr * QTable) :=
  is_name ← (if (col =? 1)%nat
             then h ← index hdrs col; Ok (pystr_eqb h NAME)
             else Ok false);
  if is_name : bool then
    let vnum := match row_data with v :: _ => v | [] => [] end in
    let german_name := get_mob_name names vnum value in
    Ok (<[col := german_name]> row_data, setItem t r col german_name)
  else Ok (row_data, setItem t r col value).

(** [for col, value in enumerate(row_data)], from column [col] on;
    [todo] are the values still to come. An exception leaves the row and
    the grid as they are at that point. *)
Fixpoint setup_cells (names : gmap pystr pystr) (hdrs : list pystr)
    (r col : nat) (todo : list pystr) (row_data : list pystr) (t : QTable)
    : list pystr * QTable * option exn :=
  match todo with
  | [] => (row_data, t, None)
  | value :: todo' =>
      match setup_cell names hdrs r col value row_data t with
      | Ok (row_data', t') => setup_cells names hdrs r (S col) todo' row_data' t'
      | Raise e => (row_data, t, Some e)
      end
  end.

(** [for row, row_data in enumerate(self.data)], from row [r] on. *)
Fixpoint setup_rows (names : gmap pystr pystr) (hdrs : list pystr)
    (r : nat) (rows : list (list pystr)) (t : QTable)
    : list (list pystr) * QTable * option exn :=
  match rows with
  | [] => ([], t, None)
  | row_data :: rows' =>
      match setup_cells names hdrs r 0 row_data row_data t with
      | (row_data', t', None) =>
          let '(rows'', t'', e) := setup_rows names hdrs (S r) rows' t' in
          (row_data' :: rows'', t'', e)
      | (row_data', t', Some e) => (row_data' :: rows', t', Some e)
      end
  end.

(** [setup_table]: the editor after it, and the exception it raised if
    any. The column widths set at its end are not part of the model. *)
Definition setup_table (ed : editor) : editor * option exn :=
  let t0 := setColumnCount (length (headers ed))
              (setRowCount (length (data ed)) (table ed)) in
  let '(data', t', e) := setup_rows (mob_names ed) (headers ed) 0 (data ed) t0 in
  (set_table t' (set_data data' ed), e).

(** ** [load_file_fast] *)

Inductive load_status : Type :=
| Loaded
| FileIsEmpty
| LoadFailed (e : exn).

(** [load_file_fast(file_path)] on a readable file with the given
    content. *)
Definition load_file_fast (lib : codec_library) (lossy : list byte -> pystr)
    (path : pystr) (content : list byte) (ed : editor)
    : editor * load_status :=
  match read_lines lib lossy content with
  | Raise e => (ed, LoadFailed e)
  | Ok (lines, encoding) =>
      let ed1 := match encoding with
                 | Some e => set_file_encoding e ed
                 | None => ed
                 end in
      match parse_lines lines with
      | None => (ed1, FileIsEmpty)
      | Some pt =>
          let ed2 := set_file_path path
                       (set_data (pt_data pt) (set_headers (pt_headers pt) ed1)) in
          match setup_table ed2 with
          | (ed3, None) => (ed3, Loaded)
          | (ed3, Some e) => (ed3, LoadFailed e)
          end
      end
  end.

(** ** Name file repair ([load_mob_names], [fix_mob_names_file]) *)

(** U+FFFD, the replacement character: the three bytes EF BF BD of every
    first argument to [replace] in the source. *)
Definition REPLACEMENT : N := 65533.

Definition a_uml : N := 228.
Definition o_uml : N := 246.
Definition u_uml : N := 252.
Definition A_uml : N := 196.
Definition O_uml : N := 214.
Definition U_uml : N := 220.
Definition eszett : N := 223.
Definition e_acute : N := 233.
Definition e_grave : N := 232.

(** The chain of [replace] calls of [load_mob_names], in call order. *)
Definition name_fixes : list (pystr * pystr) :=
  [ ([REPLACEMENT], [a_uml]); ([REPLACEMENT], [o_uml]);
    ([REPLACEMENT], [u_uml]);
    ([REPLACEMENT], [A_uml]); ([REPLACEMENT], [O_uml]);
    ([REPLACEMENT], [U_uml]);
    ([REPLACEMENT], [eszett]); ([REPLACEMENT], [e_acute]);
    ([REPLACEMENT], [e_grave]);
    (py "k" ++ [REPLACEMENT] ++ py "mpfer", py "k" ++ [a_uml] ++ py "mpfer");
    (py "anf" ++ [REPLACEMENT] ++ py "hrer", py "anf" ++ [u_uml] ++ py "hrer");
    (py "B" ++ [REPLACEMENT] ++ py "ser", py "B" ++ [o_uml] ++ py "ser");
    (py "f" ++ [REPLACEMENT] ++ py "r", py "f" ++ [u_uml] ++ py "r") ].

(** [fix_mob_names_file] applies the same chain and four more. *)
Definition line_fixes : list (pystr * pystr) :=
  name_fixes ++
  [ ([REPLACEMENT] ++ py "ber", [u_uml] ++ py "ber");
    (py "gr" ++ [REPLACEMENT; REPLACEMENT] ++ py "er",
     py "gr" ++ [o_uml; eszett] ++ py "er");
    (py "w" ++ [REPLACEMENT] ++ py "tend", py "w" ++ [u_uml] ++ py "tend");
    (py "sch" ++ [REPLACEMENT] ++ py "n", py "sch" ++ [o_uml] ++ py "n") ].

(** [s.replace(o1, n1).replace(o2, n2)...] *)
Definition apply_fixes (fixes : list (pystr * pystr)) (s : pystr) : pystr :=
  fold_left (fun acc fx => replace fx.1 fx.2 acc) fixes s.

(** The repair of one candidate name in [load_mob_names]. *)
Definition fix_name (name : pystr) : pystr := apply_fixes name_fixes name.

(** The repair of one line in [fix_mob_names_file]. *)
Definition fix_line (line : pystr) : pystr := apply_fixes line_fixes line.

(** What the chains amount to on one character (see the properties). *)
Definition to_a_umlaut (c : N) : N := if c =? REPLACEMENT then a_uml else c.

(** The body of the parsing loop of [load_mob_names] for one line of the
    name file. *)
Definition add_name_line (names : gmap pystr pystr) (line : pystr)
    : gmap pystr pystr :=
  match strip line with
  | [] => names
  | _ :: _ =>
      if bool_decide (TAB ∈ line) then
        match split TAB (strip line) with
        | p0 :: p1 :: _ => <[strip p0 := fix_name (strip p1)]> names
        | _ => names
        end
      else names
  end.

(** ** Floating point ([float], [int], [str] on cell texts) *)

Definition prec : Z := 53.
Definition emax : Z := 1024.

Abbreviation float := spec_float.

Definition float_mul : float -> float -> float := SFmul prec emax.
Definition float_add : float -> float -> float := SFadd prec emax.

(** The binary64 number nearest to [num / den], ties to even. *)
Definition float_of_ratio (neg : bool) (num den : positive) : float :=
  SFdiv prec emax (S754_finite neg num 0) (S754_finite false den 0).

(** The binary64 number nearest to [m * 10 ^ e]. *)
Definition float_of_decimal (neg : bool) (m : N) (e : Z) : float :=
  match m with
  | N0 => S754_zero neg
  | Npos p =>
      match e with
      | Zneg q => float_of_ratio neg p (10 ^ q)
      | Z0 => float_of_ratio neg p 1
      | Zpos q => float_of_ratio neg (p * 10 ^ q) 1
      end
  end.

(** The first step of [float(str)]: a code point below 127 is kept, any
    other space becomes a blank and a decimal digit its ASCII digit;
    [decimal] is the digit value the Unicode database gives a code
    point. *)
Definition to_ascii (decimal : N -> option N) (c : N) : N :=
  if c <? 127 then c
  else if is_space c then 32
  else match decimal c with
       | Some d => 48 + d
       | None => 63
       end.

(** The blanks that [float] strips on both sides. *)
Definition is_c_space (c : N) : bool :=
  ((9 <=? c) && (c <=? 13)) || (c =? 32).

Definition is_digit (c : N) : bool := (48 <=? c) && (c <=? 57).

Fixpoint c_lstrip (s : pystr) : pystr :=
  match s with
  | [] => []
  | c :: s' => if is_c_space c then c_lstrip s' else s
  end.

Definition c_strip (s : pystr) : pystr :=
  rev (c_lstrip (rev (c_lstrip s))).

Definition UNDERSCORE : N := 95.

(** An underscore must stand between two digits; the text is then read
    without its underscores. [prev] is the character before [s]. *)
Fixpoint remove_underscores (prev : N) (s : pystr) : option pystr :=
  match s with
  | [] => if prev =? UNDERSCORE then None else Some []
  | c :: s' =>
      if c =? UNDERSCORE then
        if is_digit prev then remove_underscores c s' else None
      else if (prev =? UNDERSCORE) && negb (is_digit c) then None
      else option_map (cons c) (remove_underscores c s')
  end.

(** The leading digits of [s], as their values, and what follows. *)
Fixpoint take_digits (s : pystr) : list N * pystr :=
  match s with
  | [] => ([], [])
  | c :: s' =>
      if is_digit c
      then let '(ds, r) := take_digits s' in ((c - 48) :: ds, r)
      else ([], s)
  end.

Definition take_sign (s : pystr) : bool * pystr :=
  match s with
  | c :: s' => if c =? 45 then (true, s')
               else if c =? 43 then (false, s') else (false, s)
  | [] => (false, [])
  end.

Definition digits_value (ds : list N) : N :=
  fold_left (fun acc d => 10 * acc + d) ds 0.

Definition lower (c : N) : N :=
  if (65 <=? c) && (c <=? 90) then c + 32 else c.

(** [inf], [infinity] and [nan] in any case, after an optional sign. *)
Definition parse_inf_nan (s : pystr) : option float :=
  let '(neg, body) := take_sign s in
  let word := map lower body in
  if pystr_eqb word (py "inf") || pystr_eqb word (py "infinity")
  then Some (S754_infinity neg)
  else if pystr_eqb word (py "nan") then Some S754_nan
  else None.

(** A decimal numeral: sign, digits with an optional point and at least
    one digit, and an optional exponent; nothing may follow. *)
Definition parse_decimal (s : pystr) : option float :=
  let '(neg, s1) := take_sign s in
  let '(int_part, s2) := take_digits s1 in
  let '(frac_part, s3) :=
    match s2 with
    | c :: r => if c =? 46 then take_digits r else ([], s2)
    | [] => ([], [])
    end in
  match int_part ++ frac_part with
  | [] => None
  | d :: ds =>
      let m := digits_value (d :: ds) in
      let scale := (- Z.of_nat (length frac_part))%Z in
      match s3 with
      | [] => Some (float_of_decimal neg m scale)
      | c :: r =>
          if (c =? 101) || (c =? 69) then
            let '(eneg, r1) := take_sign r in
            match take_digits r1 with
            | (e1 :: es, []) =>
                let e := Z.of_N (digits_value (e1 :: es)) in
                Some (float_of_decimal neg m
                        ((if eneg : bool then - e else e) + scale)%Z)
            | _ => None
            end
          else None
      end
  end.

(** [float(s)] for a [str]; it raises [ValueError] when [s] is not a
    numeral. *)
Definition py_float (decimal : N -> option N) (s : pystr) : result float :=
  match remove_underscores 0 (c_strip (map (to_ascii decimal) s)) with
  | None => Raise ValueError
  | Some t =>
      match parse_decimal t with
      | Some x => Ok x
      | None =>
          match parse_inf_nan t with
          | Some x => Ok x
          | None => Raise ValueError
          end
      end
  end.

(** [int(x)] for a [float]: truncation toward zero. *)
Definition py_int (x : float) : result Z :=
  match x with
  | S754_zero _ => Ok 0%Z
  | S754_finite s m e => Ok (cond_Zopp s (Z.shiftl (Zpos m) e))
  | S754_infinity _ => Raise OverflowError
  | S754_nan => Raise ValueError
  end.

Fixpoint uint_digits (u : Decimal.uint) : pystr :=
  match u with
  | Decimal.Nil => []
  | Decimal.D0 u' => 48 :: uint_digits u'
  | Decimal.D1 u' => 49 :: uint_digits u'
  | Decimal.D2 u' => 50 :: uint_digits u'
  | Decimal.D3 u' => 51 :: uint_digits u'
  | Decimal.D4 u' => 52 :: uint_digits u'
  | Decimal.D5 u' => 53 :: uint_digits u'
  | Decimal.D6 u' => 54 :: uint_digits u'
  | Decimal.D7 u' => 55 :: uint_digits u'
  | Decimal.D8 u' => 56 :: uint_digits u'
  | Decimal.D9 u' => 57 :: uint_digits u'
  end.

(** [str(z)] for an [int]. *)
Definition py_str_int (z : Z) : pystr :=
  match Z.to_int z with
  | Decimal.Pos u => uint_digits u
  | Decimal.Neg u => 45 :: uint_digits u
  end.

(** ** Mass edit ([apply_mass_changes]) *)

(** A change [(col_name, operation, value)] as [get_changes] returns
    it. *)
Definition change : Type := pystr * pystr * pystr.

(** The search for [col_index]: the first header equal to [col_name],
    counting from [i]; [None] is the [-1] of the source. *)
Fixpoint find_column (hdrs : list pystr) (col_name : pystr) (i : nat)
    : option nat :=
  match hdrs with
  | [] => None
  | header :: hdrs' =>
      if pystr_eqb header col_name then Some i
      else find_column hdrs' col_name (S i)
  end.

(** [float(item.text()) if item and item.text() else 0] *)
Definition current_value (decimal : N -> option N) (it : option pystr)
    : result float :=
  match it with
  | Some (c :: text) => py_float decimal (c :: text)
  | Some [] | None => Ok (S754_zero false)
  end.

(** The arithmetic of the three operations; [None] for any other
    operation (the [else: continue] branch). *)
Definition operate (decimal : N -> option N) (operation value : pystr)
    (current_val : float) : result (option float) :=
  if pystr_eqb operation (py "multiply") then
    v ← py_float decimal value; Ok (Some (float_mul current_val v))
  else if pystr_eqb operation (py "add") then
    v ← py_float decimal value; Ok (Some (float_add current_val v))
  else if pystr_eqb operation (py "set") then
    v ← py_float decimal value; Ok (Some v)
  else Ok None.

(** The statements inside [try]: the text of the new item, or [None]
    when the operation is unknown. *)
Definition new_text (decimal : N -> option N) (it : option pystr)
    (operation value : pystr) : result (option pystr) :=
  current_val ← current_value decimal it;
  new_val ← operate decimal operation value current_val;
  match new_val with
  | None => Ok None
  | Some x => z ← py_int x; Ok (Some (py_str_int z))
  end.

(** What one application of a change to one cell does. *)
Inductive application : Type :=
| Updated (text : pystr)
| Skipped
| Aborted (e : exn).

(** [try: ... except (ValueError, TypeError): continue]; any other
    exception leaves [apply_mass_changes]. *)
Definition apply_change (decimal : N -> option N) (it : option pystr)
    (operation value : pystr) : application :=
  match new_text decimal it operation value with
  | Ok (Some text) => Updated text
  | Ok None => Skipped
  | Raise ValueError | Raise TypeError => Skipped
  | Raise e => Aborted e
  end.

(** The body of the inner loop for one row and one change: the grid and
    [changes_made] after it. *)
Definition apply_to_row (decimal : N -> option N) (hdrs : list pystr)
    (row : nat) (ch : change) (t : QTable) (changes_made : nat)
    : QTable * nat * option exn :=
  let '(col_name, operation, value) := ch in
  match find_column hdrs col_name 0 with
  | None => (t, changes_made, None)
  | Some col_index =>
      match apply_change decimal (item t row col_index) operation value with
      | Updated text => (setItem t row col_index text, S changes_made, None)
      | Skipped => (t, changes_made, None)
      | Aborted e => (t, changes_made, Some e)
      end
  end.

(** [for col_name, operation, value in changes] *)
Fixpoint apply_changes (decimal : N -> option N) (hdrs : list pystr)
    (row : nat) (changes : list change) (t : QTable) (changes_made : nat)
    : QTable * nat * option exn :=
  match changes with
  | [] => (t, changes_made, None)
  | ch :: changes' =>
      match apply_to_row decimal hdrs row ch t changes_made with
      | (t', n', None) => apply_changes decimal hdrs row changes' t' n'
      | stopped => stopped
      end
  end.

(** [for row in rows_to_change] *)
Fixpoint apply_rows (decimal : N -> option N) (hdrs : list pystr)
    (rows : list nat) (changes : list change) (t : QTable)
    (changes_made : nat) : QTable * nat * option exn :=
  match rows with
  | [] => (t, changes_made, None)
  | row :: rows' =>
      match apply_changes decimal hdrs row changes t changes_made with
      | (t', n', None) => apply_rows decimal hdrs rows' changes t' n'
      | stopped => stopped
      end
  end.

(** [list(selected_rows) if selected_rows else
    list(range(self.table.rowCount()))]; [selected] lists the rows of the
    selected items. *)
Definition rows_to_change (selected : list nat) (t : QTable) : list nat :=
  match selected with
  | [] => seq 0 (rowCount t)
  | _ :: _ => selected
  end.

(** [apply_mass_changes(changes)]: the editor after it, [changes_made],
    and the exception that left it, if any. *)
Definition apply_mass_changes (decimal : N -> option N)
    (selected : list nat) (changes : list change) (ed : editor)
    : editor * nat * option exn :=
  match changes with
  | [] => (ed, O, None)
  | _ :: _ =>
      let '(t', n, e) :=
        apply_rows decimal (headers ed) (rows_to_change selected (table ed))
          changes (table ed) O in
      (set_table t' ed, n, e)
  end.

(** ** Saving ([save_to_file]) *)

(** UTF-8 of one code point; a surrogate cannot be encoded. *)
Definition byte_of_N (n : N) : byte :=
  match Byte.of_N n with
  | Some b => b
  | None => x00
  end.

Definition utf8_encode_char (c : N) : result (list byte) :=
  if c <? 128 then Ok [byte_of_N c]
  else if c <? 2048 then
    Ok [byte_of_N (192 + c / 64); byte_of_N (128 + c mod 64)]
  else if c <? 65536 then
    if (55296 <=? c) && (c <=? 57343) then Raise UnicodeEncodeError
    else Ok [byte_of_N (224 + c / 4096); byte_of_N (128 + (c / 64) mod 64);
             byte_of_N (128 + c mod 64)]
  else if c <? 1114112 then
    Ok [byte_of_N (240 + c / 262144); byte_of_N (128 + (c / 4096) mod 64);
        byte_of_N (128 + (c / 64) mod 64); byte_of_N (128 + c mod 64)]
  else Raise UnicodeEncodeError.

Fixpoint utf8_encode (s : pystr) : result (list byte) :=
  match s with
  | [] => Ok []
  | c :: s' =>
      b ← utf8_encode_char c; bs ← utf8_encode s'; Ok (b ++ bs)
  end.

(** The files of the machine, and which paths can be written. *)
Record filesystem : Type := MkFs {
  files : gmap pystr (list byte);
  writable : pystr -> bool
}.

(** [shutil.copy2(src, dst)]; a copy that fails is taken to leave the
    files as they were. *)
Definition copy2 (src dst : pystr) (fs : filesystem) : result filesystem :=
  match files fs !! src with
  | None => Raise OSError
  | Some content =>
      if writable fs dst
      then Ok (MkFs (<[dst := content]> (files fs)) (writable fs))
      else Raise OSError
  end.

(** [datetime.now()] *)
Record datetime : Type := MkDatetime {
  year : N; month : N; day : N; hour : N; minute : N; second : N
}.

(** A field printed with [w] digits, zero padded. *)
Fixpoint fixed_digits (w : nat) (n : N) : pystr :=
  match w with
  | O => []
  | S w' => fixed_digits w' (n / 10) ++ [48 + n mod 10]
  end.

(** [now.strftime('%Y%m%d_%H%M%S')] *)
Definition strftime_stamp (now : datetime) : pystr :=
  fixed_digits 4 (year now) ++ fixed_digits 2 (month now)
  ++ fixed_digits 2 (day now) ++ py "_"
  ++ fixed_digits 2 (hour now) ++ fixed_digits 2 (minute now)
  ++ fixed_digits 2 (second now).

Definition backup_path (now : datetime) (path : pystr) : pystr :=
  path ++ py ".backup_" ++ strftime_stamp now.

(** The number that a text of ASCII digits denotes. *)
Definition decimal_value (s : pystr) : N :=
  digits_value (map (fun c => c - 48) s).

(** The rows collected from the grid: a missing item counts as the empty
    text. *)
Definition cell_text (t : QTable) (r c : nat) : pystr :=
  match item t r c with
  | Some text => text
  | None => []
  end.

Definition current_data (t : QTable) : list (list pystr) :=
  map (fun r => map (cell_text t r) (seq 0 (columnCount t)))
      (seq 0 (rowCount t)).

(** The arguments of the successive [f.write] calls. *)
Definition written_lines (hdrs : list pystr) (rows : list (list pystr))
    : list pystr :=
  (join [TAB] hdrs ++ [LF]) :: map (fun row_data => join [TAB] row_data ++ [LF]) rows.

(** The [f.write] calls on a file opened with [encoding='utf-8']: each
    encodes its argument; when one fails the file keeps what the earlier
    ones wrote. Line ends are written as they are. *)
Fixpoint write_all (chunks : list pystr) (written : list byte)
    : list byte * option exn :=
  match chunks with
  | [] => (written, None)
  | chunk :: chunks' =>
      match utf8_encode chunk with
      | Ok bs => write_all chunks' (written ++ bs)
      | Raise e => (written, Some e)
      end
  end.

(** [save_to_file(file_path)]: the files after it and the exception
    reported by its [except] clause, if any. *)
Definition save_to_file (now : datetime) (ed : editor) (path : pystr)
    (fs : filesystem) : filesystem * option exn :=
  match (match files fs !! path with
         | Some _ => copy2 path (backup_path now path) fs
         | None => Ok fs
         end) with
  | Raise e => (fs, Some e)
  | Ok fs1 =>
      if writable fs1 path then
        let '(content, e) :=
          write_all (written_lines (headers ed) (current_data (table ed))) [] in
        (MkFs (<[path := content]> (files fs1)) (writable fs1), e)
      else (fs1, Some OSError)
  end.

(** The text of the saved file, and the table the loader makes of a
    text it has read. *)
Definition table_text (hdrs : list pystr) (rows : list (list pystr)) : pystr :=
  concat (written_lines hdrs rows).

Definition load_text (text : pystr) : option proto_table :=
  parse_lines (stripped_nonblank (readlines text)).

(** ** The effect of [setup_table], cell by cell

    [setup_table] touches the grid only through [setItem]. The functions
    below give, for a row and for a list of rows, the row as
    [setup_table] leaves it, the values it passes to [setItem] in order,
    and the exception that stops it; the properties section proves that
    the loops above compute exactly this. *)

Definition cell_write : Type := nat * nat * pystr.

Definition apply_writes (ws : list cell_write) (t : QTable) : QTable :=
  fold_left (fun t' (w : cell_write) => setItem t' w.1.1 w.1.2 w.2) ws t.

Fixpoint row_writes (r col : nat) (vals : list pystr) : list cell_write :=
  match vals with
  | [] => []
  | v :: vals' => (r, col, v) :: row_writes r (S col) vals'
  end.

Definition row_effect (names : gmap pystr pystr) (hdrs : list pystr)
    (row_data : list pystr) : list pystr * list pystr * option exn :=
  match row_data with
  | vnum :: name :: rest =>
      match hdrs !! 1%nat with
      | None => (row_data, [vnum], Some IndexError)
      | Some h =>
          if pystr_eqb h NAME
          then let row' := vnum :: get_mob_name names vnum name :: rest in
               (row', row', None)
          else (row_data, row_data, None)
      end
  | _ => (row_data, row_data, None)
  end.

Fixpoint rows_effect (names : gmap pystr pystr) (hdrs : list pystr)
    (r : nat) (rows : list (list pystr))
    : list (list pystr) * list cell_write * option exn :=
  match rows with
  | [] => ([], [], None)
  | row_data :: rows' =>
      match row_effect names hdrs row_data with
      | (row', vals, None) =>
          let '(rows'', ws, e) := rows_effect names hdrs (S r) rows' in
          (row' :: rows'', row_writes r 0 vals ++ ws, e)
      | (row', vals, Some e) => (row' :: rows', row_writes r 0 vals, Some e)
      end
  end.

(** The last value written at position [k] by [ws], if any. *)
Fixpoint final_write (ws : list cell_write) (k : nat * nat) : option pystr :=
  match ws with
  | [] => None
  | w :: ws' =>
      match final_write ws' k with
      | Some v => Some v
      | None => if bool_decide (w.1 = k) then Some w.2 else None
      end
  end.

(** ** Tables that survive saving and loading

    A line of the saved file comes back as the same fields when it is
    not blank, [strip] leaves it alone, and no field holds a tab or a
    line end. A row comes back when it is such a list of fields padded
    to the width of the header, as the loader pads it. *)
Definition plain_char (c : N) : Prop := c <> TAB /\ c <> LF /\ c <> CR.

Definition line_ok (l : pystr) : Prop :=
  l <> [] /\ strip l = l /\ (LF ∉ l) /\ (CR ∉ l).

Definition clean_fields (fields : list pystr) : Prop :=
  fields <> [] /\
  Forall (Forall plain_char) fields /\
  join [TAB] fields <> [] /\
  strip (join [TAB] fields) = join [TAB] fields.

(** A row without its leading empty fields, and without its trailing
    ones. *)
Fixpoint drop_empty (fields : list pystr) : list pystr :=
  match fields with
  | [] :: fields' => drop_empty fields'
  | _ => fields
  end.

Definition trim_empty (row : list pystr) : list pystr :=
  rev (drop_empty (rev row)).

Definition roundtrip_row (n : nat) (row : list pystr) : Prop :=
  clean_fields (trim_empty row) /\ row = pad_row n (trim_empty row).

Definition roundtrip_ready (hdrs : list pystr) (rows : list (list pystr))
    : Prop :=
  clean_fields hdrs /\ Forall (roundtrip_row (length hdrs)) rows.

(** A written line: the text that comes back, and the tabs of its
    trailing empty fields. *)
Definition written (lk : pystr * nat) : pystr :=
  lk.1 ++ replicate lk.2 TAB ++ [LF].

#[global] Instance plain_char_dec (c : N) : Decision (plain_char c) :=
  ltac:(unfold plain_char; apply _).

#[global] Instance clean_fields_dec (fields : list pystr)
    : Decision (clean_fields fields) :=
  ltac:(unfold clean_fields; apply _).

#[global] Instance roundtrip_row_dec (n : nat) (row : list pystr)
    : Decision (roundtrip_row n row) :=
  ltac:(unfold roundtrip_row; apply _).

#[global] Instance roundtrip_ready_dec (hdrs : list pystr)
    (rows : list (list pystr)) : Decision (roundtrip_ready hdrs rows) :=
  ltac:(unfold roundtrip_ready; apply _).

(** ** Loading the name file ([load_mob_names]) *)

Definition set_mob_names (m : gmap pystr pystr) (ed : editor) : editor :=
  MkEditor (file_path ed) (data ed) (headers ed) m (file_encoding ed)
    (table ed).

(** The candidate list of [load_mob_names] and [fix_mob_names_file]. *)
Definition names_encodings : list pystr :=
  [py "cp1252"; py "iso-8859-1"; py "utf-8"; py "cp949"; py "latin1"].

(** [for line in lines[1:]]: the first line is skipped as a header. *)
Definition parse_names (lines : list pystr) (names : gmap pystr pystr)
    : gmap pystr pystr :=
  fold_left add_name_line (tail lines) names.

(** The [for encoding in encodings_to_try] loop of [load_mob_names]:
    the entries of a pass are added to [self.mob_names], and the loop
    leaves as soon as [self.mob_names] is not empty after a pass. A
    candidate that cannot decode the file adds nothing. *)
Fixpoint load_names_loop (lib : codec_library) (encodings : list pystr)
    (content : list byte) (names : gmap pystr pystr) : gmap pystr pystr :=
  match encodings with
  | [] => names
  | encoding :: rest =>
      match text ← lib encoding content; Ok (readlines text) with
      | Ok lines =>
          let names' := parse_names lines names in
          if bool_decide (names' = ∅)
          then load_names_loop lib rest content names'
          else names'
      | Raise UnicodeDecodeError => load_names_loop lib rest content names
      | Raise _ => load_names_loop lib rest content names
      end
  end.

(** [load_mob_names()], the name file being at [names_path]. *)
Definition load_mob_names (lib : codec_library) (names_path : pystr)
    (fs : filesystem) (ed : editor) : editor :=
  match files fs !! names_path with
  | None => ed
  | Some content =>
      set_mob_names
        (load_names_loop lib names_encodings content (mob_names ed)) ed
  end.

(** ** Repairing the name file ([fix_mob_names_file]) *)

Inductive fix_status : Type :=
| NamesNotFound
| CouldNotRead
| Fixed (changes_made : nat) (backup : pystr)
| FixFailed (e : exn).

(** The reading loop of [fix_mob_names_file]: it leaves with the lines
    of the first candidate that decodes the file; only
    [UnicodeDecodeError] is caught here, any other exception goes to the
    [except] clause of the function. [Ok None] is [lines is None]. *)
Fixpoint read_names_loop (lib : codec_library) (encodings : list pystr)
    (content : list byte) : result (option (list pystr * pystr)) :=
  match encodings with
  | [] => Ok None
  | encoding :: rest =>
      match text ← lib encoding content; Ok (readlines text) with
      | Ok lines => Ok (Some (lines, encoding))
      | Raise UnicodeDecodeError => read_names_loop lib rest content
      | Raise e => Raise e
      end
  end.

(** [changes_made] after the repair loop: the lines that differ from
    their repaired form. *)
Fixpoint count_changes (lines : list pystr) : nat :=
  match lines with
  | [] => O
  | line :: lines' =>
      if bool_decide (fix_line line <> line) then S (count_changes lines')
      else count_changes lines'
  end.

(** [fix_mob_names_file()]: the files and the editor after it, and what
    it reports. *)
Definition fix_mob_names_file (lib : codec_library) (now : datetime)
    (names_path : pystr) (fs : filesystem) (ed : editor)
    : filesystem * editor * fix_status :=
  match files fs !! names_path with
  | None => (fs, ed, NamesNotFound)
  | Some content =>
      match copy2 names_path (backup_path now names_path) fs with
      | Raise e => (fs, ed, FixFailed e)
      | Ok fs1 =>
          match read_names_loop lib names_encodings content with
          | Raise e => (fs1, ed, FixFailed e)
          | Ok None => (fs1, ed, CouldNotRead)
          | Ok (Some (lines, _)) =>
              let fixed_lines := map fix_line lines in
              let changes_made := count_changes lines in
              if writable fs1 names_path then
                let '(content', e) := write_all fixed_lines [] in
                let fs2 := MkFs (<[names_path := content']> (files fs1))
                             (writable fs1) in
                match e with
                | Some e' => (fs2, ed, FixFailed e')
                | None =>
                    let ed1 := load_mob_names lib names_path fs2
                                 (set_mob_names ∅ ed) in
                    match data ed1 with
                    | [] =>
                        (fs2, ed1,
                         Fixed changes_made (backup_path now names_path))
                    | _ :: _ =>
                        match setup_table ed1 with
                        | (ed2, None) =>
                            (fs2, ed2,
                             Fixed changes_made (backup_path now names_path))
                        | (ed2, Some e') => (fs2, ed2, FixFailed e')
                        end
                    end
                end
              else (fs1, ed, FixFailed OSError)
          end
      end
  end.

(** ** The mass edit dialog ([MassEditDialog], [show_mass_edit]) *)

(** The column names of [common_columns], in their order. *)
Definition common_columns : list pystr :=
  [py "EXP"; py "GOLD_MIN"; py "GOLD_MAX"; py "LEVEL"; py "MAX_HP";
   py "DAMAGE_MIN"; py "DAMAGE_MAX"; py "DEF"; py "ATTACK_SPEED";
   py "MOVE_SPEED"; py "ST"; py "DX"; py "HT"; py "IQ"].

(** One entry of [self.operation_widgets] with the state of its
    controls: the check box, the text of the combo box and the text of
    the line edit. *)
Record operation_widget : Type := MkWidget {
  ow_col_name : pystr;
  ow_enabled : bool;
  ow_operation : pystr;
  ow_value : pystr
}.

(** The columns for which [init_ui] builds controls: the common columns
    that are headers. *)
Definition dialog_columns (hdrs : list pystr) : list pystr :=
  filter (fun col_name => col_name ∈ hdrs) common_columns.

(** [get_changes()]: a change for every entry that is enabled and whose
    value is not empty and is read by [float]; [ValueError] skips the
    entry. *)
Fixpoint get_changes (decimal : N -> option N)
    (widgets : list operation_widget) : result (list change) :=
  match widgets with
  | [] => Ok []
  | w :: widgets' =>
      match ow_enabled w, ow_value w with
      | true, _ :: _ =>
          match py_float decimal (ow_value w) with
          | Ok _ =>
              changes ← get_changes decimal widgets';
              Ok ((ow_col_name w, ow_operation w, ow_value w) :: changes)
          | Raise ValueError => get_changes decimal widgets'
          | Raise e => Raise e
          end
      | _, _ => get_changes decimal widgets'
      end
  end.

(** [set_preset(value_edit, operation_combo, value, operation)] on the
    controls of one entry: the text and the operation are set, the check
    box is left as it is. *)
Definition set_preset (value operation : pystr) (w : operation_widget)
    : operation_widget :=
  MkWidget (ow_col_name w) (ow_enabled w) operation value.

(** The preset buttons that [init_ui] makes for a column, each with the
    value and the operation it passes to [set_preset]. *)
Definition presets (col_name : pystr) : list (pystr * pystr) :=
  if pystr_eqb col_name (py "EXP")
  then [(py "2", py "multiply"); (py "4", py "multiply")]
  else if bool_decide (col_name ∈ [py "GOLD_MIN"; py "GOLD_MAX"])
       then [(py "300", py "set"); (py "600", py "set")]
       else [].

Inductive mass_edit_report : Type :=
| NoDataLoaded
| Cancelled
| Applied (changes_made : nat)
| MassEditFailed (e : exn).

(** [show_mass_edit()]; [dialog] is [None] when the dialog is rejected
    and the state of its controls when it is accepted. *)
Definition show_mass_edit (decimal : N -> option N) (selected : list nat)
    (dialog : option (list operation_widget)) (ed : editor)
    : editor * mass_edit_report :=
  match data ed with
  | [] => (ed, NoDataLoaded)
  | _ :: _ =>
      match dialog with
      | None => (ed, Cancelled)
      | Some widgets =>
          match get_changes decimal widgets with
          | Raise e => (ed, MassEditFailed e)
          | Ok changes =>
              match apply_mass_changes decimal selected changes ed with
              | (ed', n, None) => (ed', Applied n)
              | (ed', _, Some e) => (ed', MassEditFailed e)
              end
          end
      end
  end.

(** What one application of a change leaves in the cell of the grid it
    is applied to. *)
Definition cell_after (decimal : N -> option N) (t : QTable) (row c : nat)
    (ch : change) : option pystr :=
  match apply_change decimal (item t row c) ch.1.2 ch.2 with
  | Updated text => Some text
  | Skipped | Aborted _ => item t row c
  end.

(** ** The search filter ([filter_data]) *)

(** [needle in hay] for strings. *)
Fixpoint contains (needle hay : pystr) : bool :=
  starts_with needle hay
  || match hay with
     | [] => false
     | _ :: hay' => contains needle hay'
     end.

(** Whether [filter_data] shows row [row]; [search_text] is the text of
    the search box already in lower case and [lower] is [str.lower]. *)
Definition show_row (lower : pystr -> pystr) (search_text : pystr)
    (t : QTable) (row : nat) : bool :=
  match search_text with
  | [] => true
  | _ :: _ =>
      let vnum_text := match item t row 0 with
                       | Some text => lower text
                       | None => []
                       end in
      let name_text := match item t row 1 with
                       | Some text => lower text
                       | None => []
                       end in
      contains search_text vnum_text || contains search_text name_text
  end.

(** [filter_data()]: for each row of the grid, whether it is hidden. *)
Definition filter_data (lower : pystr -> pystr) (search_box : pystr)
    (t : QTable) : list bool :=
  map (fun row => negb (show_row lower (lower search_box) t row))
      (seq 0 (rowCount t)).

(** ** The editor as a whole *)

(** [SimpleMobEditor.__init__]: the fields as they are set, then
    [load_mob_names]. *)
Definition init_editor (lib : codec_library) (names_file : pystr)
    (fs : filesystem) : editor :=
  load_mob_names lib names_file fs
    (MkEditor None [] [] ∅ None (MkQTable 0 0 ∅)).

(** [open_file]: [chosen] is the path returned by the file dialog, empty
    when the dialog is cancelled. On a path that is not a file every
    [open] raises, the last one outside the inner [try]. *)
Definition open_file (lib : codec_library) (lossy : list byte -> pystr)
    (chosen : pystr) (fs : filesystem) (ed : editor)
    : editor * option load_status :=
  match chosen with
  | [] => (ed, None)
  | _ :: _ =>
      match files fs !! chosen with
      | Some content =>
          let '(ed', status) := load_file_fast lib lossy chosen content ed in
          (ed', Some status)
      | None => (ed, Some (LoadFailed OSError))
      end
  end.

(** [save_file]: the dialog is asked for a path only when the editor
    has none. *)
Definition save_file (now : datetime) (chosen : pystr) (ed : editor)
    (fs : filesystem) : filesystem * option exn :=
  let path := match file_path ed with
              | Some (c :: p) => c :: p
              | Some [] | None => chosen
              end in
  match path with
  | [] => (fs, None)
  | _ :: _ => save_to_file now ed path fs
  end.

(** What the user can start from the window, with what the dialogs and
    the clock give; [Outside] is a change of the files by another
    program. *)
Inductive action : Type :=
| OpenFile (chosen : pystr)
| SaveFile (now : datetime) (chosen : pystr)
| ShowMassEdit (selected : list nat) (dialog : option (list operation_widget))
| FixMobNamesFile (now : datetime)
| Outside (fs : filesystem).

Record runtime : Type := MkRuntime {
  rt_lib : codec_library;
  rt_lossy : list byte -> pystr;
  rt_decimal : N -> option N;
  rt_names_file : pystr
}.

Definition run (rt : runtime) (w : editor * filesystem) (a : action)
    : editor * filesystem :=
  match a with
  | OpenFile chosen =>
      ((open_file (rt_lib rt) (rt_lossy rt) chosen w.2 w.1).1, w.2)
  | SaveFile now chosen => (w.1, (save_file now chosen w.1 w.2).1)
  | ShowMassEdit selected dialog =>
      ((show_mass_edit (rt_decimal rt) selected dialog w.1).1, w.2)
  | FixMobNamesFile now =>
      let done := fix_mob_names_file (rt_lib rt) now (rt_names_file rt)
                    w.2 w.1 in
      (done.1.2, done.1.1)
  | Outside fs => (w.1, fs)
  end.

(** The editor and the files after the window is opened on the files
    [fs] and the actions are carried out in order. *)
Definition session (rt : runtime) (fs : filesystem) (actions : list action)
    : editor * filesystem :=
  fold_left (run rt) actions
    (init_editor (rt_lib rt) (rt_names_file rt) fs, fs).

(** A character that does not end a field or a line of the saved
    file. *)
Definition field_char (c : N) : Prop := c <> TAB /\ c <> LF.

(** What holds of the editor at every moment (see the properties): no
    stored row is narrower than the header; the grid has the size of
    the stored table; no header and no stored field holds a tab or a
    line feed; every name of the lookup has a key that is not empty and
    is free of tabs and line ends together with its name. *)
Record well_formed (ed : editor) : Prop := WellFormed {
  wf_widths :
    Forall (fun row => (length (headers ed) <= length row)%nat) (data ed);
  wf_rows : rowCount (table ed) = length (data ed);
  wf_columns : columnCount (table ed) = length (headers ed);
  wf_headers : Forall (Forall field_char) (headers ed);
  wf_fields : Forall (Forall (Forall field_char)) (data ed);
  wf_names :
    forall k v, mob_names ed !! k = Some v ->
                k <> [] /\ Forall plain_char k /\ Forall plain_char v
}.

(** ** Sample runtimes

    Instances of the runtime tables, for evaluating the definitions on
    concrete inputs. *)

(** A [bytes] literal. *)
Definition bytes (s : string) : list byte :=
  map byte_of_ascii (list_ascii_of_string s).

(** Only latin1 is available. *)
Definition latin1_only : codec_library := fun encoding content =>
  if pystr_eqb encoding (py "latin1") then Ok (latin1_decode content)
  else Raise UnicodeDecodeError.

(** utf-8 on ASCII content, latin1 on all content, nothing else. *)
Definition ascii_utf8 : codec_library := fun encoding content =>
  if pystr_eqb encoding (py "latin1") then Ok (latin1_decode content)
  else if pystr_eqb encoding (py "utf-8")
          && forallb (fun b => Byte.to_N b <? 128) content
       then Ok (latin1_decode content)
       else Raise UnicodeDecodeError.

(** cp949 on ASCII content, latin1 on all content, nothing else. *)
Definition ascii_cp949 : codec_library := fun encoding content =>
  if pystr_eqb encoding (py "cp949")
     && forallb (fun b => Byte.to_N b <? 128) content
  then Ok (latin1_decode content)
  else if pystr_eqb encoding (py "latin1") then Ok (latin1_decode content)
       else Raise UnicodeDecodeError.

(** No codec decodes anything. *)
Definition no_codec : codec_library := fun _ _ => Raise UnicodeDecodeError.

(** A lossy decoder: every byte above 127 becomes U+FFFD. *)
Definition lossy_ascii (content : list byte) : pystr :=
  map (fun b => if Byte.to_N b <? 128 then Byte.to_N b else 65533) content.

(** The bytes of a small file: a header line and one data line. *)
Definition sample_file : list byte :=
  bytes "A" ++ [x09] ++ bytes "B" ++ [x0a]
  ++ bytes "1" ++ [x09] ++ bytes "2" ++ [x0a].

Definition sample_lines : list pystr :=
  [py "A" ++ [TAB] ++ py "B"; py "1" ++ [TAB] ++ py "2"].

Definition Hoellenwolf : pystr := py "H" ++ [246] ++ py "llenwolf".

Definition empty_grid : QTable := MkQTable 0 0 ∅.

(** An editor holding two rows, before [setup_table]: the lookup names
    mob 9001 and has no entry for 9999. *)
Definition sample_editor : editor :=
  MkEditor None
    [[py "9001"; py "????"]; [py "9999"; []]]
    [py "VNUM"; py "NAME"]
    {[ py "9001" := Hoellenwolf ]}
    None empty_grid.

(** An editor holding one row for each case of the name resolution,
    before [setup_table]: a mob named by the lookup, a mob with a name
    of its own, and mobs whose name is empty or a placeholder. *)
Definition placeholder_editor : editor :=
  MkEditor None
    [[py "9001"; py "????"; py "5"]; [py "9002"; py "Wolf"; py "6"];
     [py "9003"; []; py "7"]; [py "9004"; py "??"; py "8"];
     [py "9005"; py "???"; py "9"]; [py "9006"; py "????"; py "10"]]
    [py "VNUM"; py "NAME"; py "LEVEL"]
    {[ py "9001" := Hoellenwolf ]}
    None empty_grid.

(** An editor showing two mobs with their EXP column. *)
Definition exp_editor : editor :=
  (setup_table
     (MkEditor None
        [[py "101"; py "Wolf"; py "100"]; [py "102"; py "Bear"; py "1e308"]]
        [py "VNUM"; py "NAME"; py "EXP"]
        ∅ None empty_grid)).1.

(** A machine holding one file, on which every path can be written, and
    the same machine on which only that file can. *)
Definition proto_path : pystr := py "mob_proto.txt".

Definition open_fs : filesystem :=
  MkFs {[ proto_path := bytes "old" ]} (fun _ => true).

Definition locked_fs : filesystem :=
  MkFs {[ proto_path := bytes "old" ]} (fun p => pystr_eqb p proto_path).

Definition sample_now : datetime := MkDatetime 2026 11 3 9 35 7.

(** iso-8859-1 and latin1 on all content, nothing else. *)
Definition iso_8859_1_only : codec_library := fun encoding content =>
  if pystr_eqb encoding (py "iso-8859-1") || pystr_eqb encoding (py "latin1")
  then Ok (latin1_decode content)
  else Raise UnicodeDecodeError.

(** utf-8 on content made of ASCII bytes and of the three bytes EF BF BD
    of U+FFFD, nothing else. *)
Fixpoint utf8_fffd_decode (content : list byte) : result pystr :=
  match content with
  | [] => Ok []
  | b :: rest =>
      if Byte.to_N b <? 128 then
        s ← utf8_fffd_decode rest; Ok (Byte.to_N b :: s)
      else
        match rest with
        | b2 :: b3 :: rest' =>
            if Byte.eqb b xef && Byte.eqb b2 xbf && Byte.eqb b3 xbd
            then s ← utf8_fffd_decode rest'; Ok (REPLACEMENT :: s)
            else Raise UnicodeDecodeError
        | _ => Raise UnicodeDecodeError
        end
  end.

Definition utf8_fffd : codec_library := fun encoding content =>
  if pystr_eqb encoding (py "utf-8") then utf8_fffd_decode content
  else Raise UnicodeDecodeError.

(** A name file: a header line and the line of mob 101, whose name was
    saved with U+FFFD in the place of a letter. *)
Definition names_path : pystr := py "mob_names.txt".

Definition damaged_names : list byte :=
  bytes "VNUM" ++ [x09] ++ bytes "NAME" ++ [x0a]
  ++ bytes "101" ++ [x09] ++ bytes "B" ++ [xef; xbf; xbd] ++ bytes "ser"
  ++ [x0a].

Definition names_fs : filesystem :=
  MkFs {[ names_path := damaged_names ]} (fun _ => true).

(** [str.lower] on texts of Greek capital letters: each becomes its
    small letter, but a sigma that ends the text after another letter
    becomes the final sigma. *)
Fixpoint greek_lower_from (after_letter : bool) (s : pystr) : pystr :=
  match s with
  | [] => []
  | c :: s' =>
      (if (c =? 931) && after_letter
          && match s' with [] => true | _ :: _ => false end
       then 962
       else if (913 <=? c) && (c <=? 937) then c + 32 else c)
      :: greek_lower_from true s'
  end.

Definition greek_lower (s : pystr) : pystr := greek_lower_from false s.

(** No code point above 126 is a decimal digit. *)
Definition ascii_digits : N -> option N := fun _ => None.

(** * Properties *)

(** ** Strings and lines *)

Lemma split_nonempty sep s : split sep s <> [].
Proof.
  destruct s as [|c s]; simpl; [discriminate|].
  destruct (c =? sep); [discriminate|].
  destruct (split sep s); discriminate.
Qed.

Lemma pad_row_spec n row :
  pad_row n row = row ++ replicate (n - length row) [].
Proof.
  funelim (pad_row n row).
  - rewrite H. rewrite length_app. simpl.
    pose proof (proj1 (Nat.ltb_lt _ _) Hlt) as Hlt'.
    replace (n - length row)%nat with (S (n - (length row + 1)))%nat by lia.
    simpl. rewrite <- app_assoc. reflexivity.
  - pose proof (proj1 (Nat.ltb_ge _ _) e) as Hge.
    replace (n - length row)%nat with O by lia.
    simpl. rewrite app_nil_r. reflexivity.
Qed.

(** ** C2: row width after loading *)

(** C2. In the table that the loader builds from the lines of a file
    whose header has [N] columns, the row made from a data line with
    [k < N] tab-separated fields has exactly [N] fields, its own [k]
    followed by [N - k] empty strings; a data line with [N] fields or
    more keeps all of them. *)
Theorem C2_rows_padded_never_truncated (lines : list pystr) (pt : proto_table) :
  parse_lines lines = Some pt ->
  forall (i : nat) (line : pystr),
    tail lines !! i = Some line ->
    exists row,
      pt_data pt !! i = Some row /\
      let N := length (pt_headers pt) in
      let fields := split TAB line in
      let k := length fields in
      ((k < N)%nat ->
         row = fields ++ replicate (N - k) [] /\ length row = N) /\
      ((N <= k)%nat -> row = fields).
Proof.
  intros Hparse i line Hline.
  destruct lines as [|first rest]; [discriminate|].
  simpl in Hparse. injection Hparse as <-. simpl in *.
  exists (pad_row (length (split TAB first)) (split TAB line)).
  split.
  - rewrite list_lookup_fmap, Hline. reflexivity.
  - rewrite pad_row_spec. split.
    + intros Hk. split; [reflexivity|].
      rewrite length_app, length_replicate. lia.
    + intros Hk.
      replace (length (split TAB first) - length (split TAB line))%nat
        with O by lia.
      simpl. apply app_nil_r.
Qed.

Lemma C2_witness :
  exists row,
    pt_data (ProtoTable [py "VNUM"; py "NAME"; py "LEVEL"]
               [[py "101"; []; []]]) !! O = Some row /\
    row = [py "101"; []; []].
Proof.
  destruct (C2_rows_padded_never_truncated
              [py "VNUM" ++ [TAB] ++ py "NAME" ++ [TAB] ++ py "LEVEL"; py "101"]
              (ProtoTable [py "VNUM"; py "NAME"; py "LEVEL"]
                 [[py "101"; []; []]])
              eq_refl O (py "101") eq_refl) as [row [Hrow [Hshort _]]].
  exists row. split; [exact Hrow|].
  apply Hshort. vm_compute. lia.
Defined.

(** ** C4 and C10: the encoding resolver *)

Section Resolver.
Variable lib : codec_library.
Variable lossy : list byte -> pystr.

(** A candidate that cannot decode the content is passed over. *)
Lemma try_encodings_skip encoding rest content :
  refuses lib encoding content ->
  try_encodings lib (encoding :: rest) content
  = try_encodings lib rest content.
Proof.
  intros [e He]. simpl. rewrite He. simpl. destruct e; reflexivity.
Qed.

Lemma try_encodings_first before encoding after content text :
  (forall e, e ∈ before -> refuses lib e content) ->
  lib encoding content = Ok text ->
  try_encodings lib (before ++ encoding :: after) content
  = Some (stripped_nonblank (readlines text), encoding).
Proof.
  intros Hbefore Hok. induction before as [|b before IH].
  - simpl. rewrite Hok. reflexivity.
  - rewrite <- app_comm_cons, try_encodings_skip.
    + apply IH. intros e He. apply Hbefore. now right.
    + apply Hbefore. now left.
Qed.

Lemma try_encodings_none encodings content :
  (forall e, e ∈ encodings -> refuses lib e content) ->
  try_encodings lib encodings content = None.
Proof.
  induction encodings as [|b encodings IH]; intros Hall; [reflexivity|].
  rewrite try_encodings_skip.
  - apply IH. intros e He. apply Hall. now right.
  - apply Hall. now left.
Qed.

Lemma try_encodings_none_inv encodings content :
  try_encodings lib encodings content = None ->
  forall e, e ∈ encodings -> refuses lib e content.
Proof.
  induction encodings as [|b encodings IH]; intros Htry e He.
  - inversion He.
  - simpl in Htry. destruct (lib b content) as [text|e'] eqn:Hb; simpl in Htry.
    + discriminate.
    + inversion He as [|? ? ? Hin]; subst.
      * exists e'. exact Hb.
      * apply IH; [destruct e'; exact Htry | exact Hin].
Qed.

(** The loop leaves with the candidate it names, and every candidate
    before that one has refused the content. *)
Lemma try_encodings_some encodings content lines encoding :
  try_encodings lib encodings content = Some (lines, encoding) ->
  exists before after text,
    encodings = before ++ encoding :: after /\
    (forall e, e ∈ before -> refuses lib e content) /\
    lib encoding content = Ok text /\
    lines = stripped_nonblank (readlines text).
Proof.
  induction encodings as [|b encodings IH]; [discriminate|].
  simpl. destruct (lib b content) as [text|e] eqn:Hb; simpl.
  - intros [= <- <-]. exists [], encodings, text.
    split; [reflexivity|]. split; [|split; [exact Hb | reflexivity]].
    intros e He. inversion He.
  - intros Hrest.
    assert (Htry : try_encodings lib encodings content
                   = Some (lines, encoding)) by (destruct e; exact Hrest).
    destruct (IH Htry) as (before & after & text & -> & Hbefore & Hok & Hl).
    exists (b :: before), after, text. repeat split; try assumption.
    intros e' He'. inversion He' as [|? ? ? Hin]; subst.
    + exists e. exact Hb.
    + now apply Hbefore.
Qed.

(** C4. The resolver tries cp949, euc-kr, utf-8, utf-8-sig, latin1 and
    cp1252 in this order; it returns the lines of the text decoded by
    the first candidate that decodes the content, with that
    candidate's name; when every candidate refuses the content it
    returns the lines of the lossy decoding; and it returns lines for
    every content, without raising. *)
Theorem C4_resolver_first_success (content : list byte) :
  encodings_to_try
  = [py "cp949"; py "euc-kr"; py "utf-8"; py "utf-8-sig"; py "latin1";
     py "cp1252"] /\
  (forall before encoding after text,
      encodings_to_try = before ++ encoding :: after ->
      (forall e, e ∈ before -> refuses lib e content) ->
      lib encoding content = Ok text ->
      read_lines lib lossy content
      = Ok (stripped_nonblank (readlines text), Some encoding)) /\
  ((forall e, e ∈ encodings_to_try -> refuses lib e content) ->
   read_lines lib lossy content
   = Ok (stripped_nonblank (split LF (lossy content)), None)) /\
  (exists lines encoding,
      read_lines lib lossy content = Ok (lines, encoding)).
Proof.
  split; [reflexivity|]. split; [|split].
  - intros before encoding after text Hsplit Hbefore Hok.
    unfold read_lines. rewrite Hsplit.
    rewrite (try_encodings_first _ _ _ _ _ Hbefore Hok). reflexivity.
  - intros Hall. unfold read_lines.
    rewrite (try_encodings_none _ _ Hall). reflexivity.
  - unfold read_lines.
    destruct (try_encodings lib encodings_to_try content) as [[ls enc]|];
      eauto.
Qed.

(** C10. Since latin1 decodes every byte sequence, some candidate
    always succeeds: the lossy fallback is never taken, the encoding
    reported is one of the first five candidates, and it is never
    cp1252. *)
Theorem C10_latin1_always_succeeds (content : list byte) :
  latin1_codec lib ->
  exists lines encoding,
    read_lines lib lossy content = Ok (lines, Some encoding) /\
    encoding ∈ [py "cp949"; py "euc-kr"; py "utf-8"; py "utf-8-sig";
                py "latin1"] /\
    encoding <> py "cp1252".
Proof.
  intros Hlatin1. unfold read_lines.
  destruct (try_encodings lib encodings_to_try content)
    as [[lines encoding]|] eqn:Htry.
  - exists lines, encoding. split; [reflexivity|].
    destruct (try_encodings_some _ _ _ _ Htry)
      as (before & after & text & Hsplit & Hbefore & Hok & _).
    assert (Hnot : py "latin1" ∉ before).
    { intros Hin. destruct (Hbefore _ Hin) as [e He].
      rewrite Hlatin1 in He. discriminate. }
    unfold encodings_to_try in Hsplit.
    do 4 (destruct before as [|? before];
          [injection Hsplit as <- _; split;
             [repeat constructor | intros Heq; vm_compute in Heq; discriminate]|];
          injection Hsplit as <- Hsplit).
    destruct before as [|? before].
    + injection Hsplit as <- _. split;
        [repeat constructor | intros Heq; vm_compute in Heq; discriminate].
    + injection Hsplit as <- Hsplit. exfalso. apply Hnot. repeat constructor.
  - exfalso.
    destruct (try_encodings_none_inv _ _ Htry (py "latin1")) as [e He];
      [unfold encodings_to_try; repeat constructor|].
    rewrite Hlatin1 in He. discriminate.
Qed.
End Resolver.

Lemma C4_witness :
  read_lines ascii_utf8 lossy_ascii sample_file
  = Ok (sample_lines, Some (py "utf-8"))
  /\ read_lines no_codec lossy_ascii sample_file = Ok (sample_lines, None).
Proof.
  split.
  - destruct (C4_resolver_first_success ascii_utf8 lossy_ascii sample_file)
      as (_ & Hfirst & _).
    rewrite (Hfirst [py "cp949"; py "euc-kr"] (py "utf-8")
               [py "utf-8-sig"; py "latin1"; py "cp1252"]
               (latin1_decode sample_file)).
    + reflexivity.
    + reflexivity.
    + intros e He. exists UnicodeDecodeError.
      apply list_elem_of_In in He. simpl in He.
      destruct He as [<-|[<-|[]]]; reflexivity.
    + reflexivity.
  - destruct (C4_resolver_first_success no_codec lossy_ascii sample_file)
      as (_ & _ & Hnone & _).
    rewrite Hnone; [reflexivity|].
    intros e _. exists UnicodeDecodeError. reflexivity.
Defined.

Lemma C10_witness :
  exists lines encoding,
    read_lines latin1_only lossy_ascii sample_file = Ok (lines, Some encoding)
    /\ encoding ∈ [py "cp949"; py "euc-kr"; py "utf-8"; py "utf-8-sig";
                   py "latin1"]
    /\ encoding <> py "cp1252".
Proof.
  apply (C10_latin1_always_succeeds latin1_only lossy_ascii).
  intros content. reflexivity.
Defined.

(** ** The grid *)

Lemma in_grid_setItem t r c text r' c' :
  in_grid (setItem t r c text) r' c' = in_grid t r' c'.
Proof. unfold setItem. destruct (in_grid t r c); reflexivity. Qed.

Lemma apply_writes_app ws1 ws2 t :
  apply_writes (ws1 ++ ws2) t = apply_writes ws2 (apply_writes ws1 t).
Proof. unfold apply_writes. apply fold_left_app. Qed.

Lemma apply_writes_counts ws t :
  rowCount (apply_writes ws t) = rowCount t
  /\ columnCount (apply_writes ws t) = columnCount t.
Proof.
  revert t. induction ws as [|w ws IH]; intros t; [split; reflexivity|].
  simpl. destruct (IH (setItem t w.1.1 w.1.2 w.2)) as [-> ->].
  unfold setItem. destruct (in_grid t w.1.1 w.1.2); split; reflexivity.
Qed.

Lemma in_grid_apply_writes ws t r c :
  in_grid (apply_writes ws t) r c = in_grid t r c.
Proof.
  unfold in_grid. destruct (apply_writes_counts ws t) as [-> ->]. reflexivity.
Qed.

(** The grid after a sequence of writes: at each position of the grid
    the last value written there, elsewhere what it held. *)
Lemma items_apply_writes ws t k :
  items (apply_writes ws t) !! k
  = if in_grid t k.1 k.2
    then match final_write ws k with
         | Some v => Some v
         | None => items t !! k
         end
    else items t !! k.
Proof.
  revert t. induction ws as [|w ws IH]; intros t.
  - simpl. destruct (in_grid t k.1 k.2); reflexivity.
  - simpl. rewrite IH, in_grid_setItem.
    destruct w as [[r c] v]. destruct k as [r' c']. simpl.
    unfold setItem.
    destruct (in_grid t r' c') eqn:Hk.
    + destruct (final_write ws (r', c')); [reflexivity|].
      case_bool_decide as Heq.
      * injection Heq as -> ->. rewrite Hk. simpl. apply lookup_insert_eq.
      * destruct (in_grid t r c); [|reflexivity]. simpl.
        apply lookup_insert_ne. exact Heq.
    + destruct (in_grid t r c) eqn:Hw; [|reflexivity]. simpl.
      apply lookup_insert_ne. intros [= -> ->]. congruence.
Qed.

Lemma QTable_eq t1 t2 :
  rowCount t1 = rowCount t2 -> columnCount t1 = columnCount t2 ->
  items t1 = items t2 -> t1 = t2.
Proof. destruct t1, t2. simpl. intros -> -> ->. reflexivity. Qed.

(** Writing the same sequence a second time changes nothing. *)
Lemma apply_writes_absorb ws t :
  apply_writes ws (apply_writes ws t) = apply_writes ws t.
Proof.
  apply QTable_eq.
  - destruct (apply_writes_counts ws (apply_writes ws t)) as [-> _].
    reflexivity.
  - destruct (apply_writes_counts ws (apply_writes ws t)) as [_ ->].
    reflexivity.
  - apply map_eq. intros k.
    rewrite (items_apply_writes ws (apply_writes ws t)).
    rewrite in_grid_apply_writes.
    rewrite (items_apply_writes ws t).
    destruct (in_grid t k.1 k.2); [|reflexivity].
    destruct (final_write ws k); reflexivity.
Qed.

Lemma final_write_app ws1 ws2 k :
  final_write (ws1 ++ ws2) k
  = match final_write ws2 k with
    | Some v => Some v
    | None => final_write ws1 k
    end.
Proof.
  induction ws1 as [|w ws1 IH]; simpl.
  - destruct (final_write ws2 k); reflexivity.
  - rewrite IH. destruct (final_write ws2 k); reflexivity.
Qed.

Lemma final_write_row r col vals r' c' :
  final_write (row_writes r col vals) (r', c')
  = if bool_decide (r' = r /\ (col <= c')%nat) then vals !! (c' - col)%nat
    else None.
Proof.
  revert col. induction vals as [|v vals IH]; intros col; simpl.
  - case_bool_decide; reflexivity.
  - rewrite IH. clear IH.
    destruct (decide (r' = r)) as [->|Hr].
    + destruct (lt_eq_lt_dec c' col) as [[Hlt| ->]|Hgt].
      * rewrite !bool_decide_eq_false_2; [reflexivity| | |]; try lia.
        intros [= ?]. lia.
      * rewrite (bool_decide_eq_false_2 (r = r /\ (S col <= col)%nat)) by lia.
        rewrite bool_decide_eq_true_2 by reflexivity.
        rewrite bool_decide_eq_true_2 by (split; [reflexivity|lia]).
        rewrite Nat.sub_diag. reflexivity.
      * rewrite (bool_decide_eq_true_2 (r = r /\ (S col <= c')%nat))
          by (split; [reflexivity|lia]).
        rewrite (bool_decide_eq_true_2 (r = r /\ (col <= c')%nat))
          by (split; [reflexivity|lia]).
        replace (c' - col)%nat with (S (c' - S col)) by lia. simpl.
        destruct (vals !! (c' - S col)%nat); [reflexivity|].
        rewrite bool_decide_eq_false_2; [reflexivity|].
        intros [= ?]. lia.
    + rewrite !bool_decide_eq_false_2; [reflexivity| | |]; try tauto.
      intros [= ? ?]. congruence.
Qed.

(** ** Name resolution *)

Lemma Mob_not_placeholder vnum : py "Mob " ++ vnum ∉ placeholders.
Proof.
  intros Hin. apply list_elem_of_In in Hin. simpl in Hin.
  destruct Hin as [H|[H|[H|[]]]]; discriminate H.
Qed.

Lemma get_mob_name_found names vnum original_name name :
  names !! vnum = Some name -> get_mob_name names vnum original_name = name.
Proof. intros H. unfold get_mob_name. rewrite H. reflexivity. Qed.

Lemma get_mob_name_kept names vnum original_name :
  names !! vnum = None -> original_name <> [] ->
  original_name ∉ placeholders ->
  get_mob_name names vnum original_name = original_name.
Proof.
  intros H Hne Hph. unfold get_mob_name. rewrite H.
  destruct original_name; [congruence|].
  rewrite bool_decide_eq_false_2 by exact Hph. reflexivity.
Qed.

Lemma get_mob_name_synthesized names vnum original_name :
  names !! vnum = None ->
  original_name = [] \/ original_name ∈ placeholders ->
  get_mob_name names vnum original_name = py "Mob " ++ vnum.
Proof.
  intros H Hor. unfold get_mob_name. rewrite H.
  destruct original_name; [reflexivity|].
  destruct Hor as [Hnil|Hph]; [discriminate|].
  rewrite bool_decide_eq_true_2 by exact Hph. reflexivity.
Qed.

(** A resolved name resolves to itself. *)
Lemma get_mob_name_idempotent names vnum original_name :
  get_mob_name names vnum (get_mob_name names vnum original_name)
  = get_mob_name names vnum original_name.
Proof.
  destruct (names !! vnum) as [name|] eqn:Hlook.
  - rewrite !(get_mob_name_found _ _ _ _ Hlook). reflexivity.
  - destruct original_name as [|c s].
    + rewrite (get_mob_name_synthesized names vnum []) by auto.
      apply get_mob_name_kept; [assumption|discriminate|].
      apply Mob_not_placeholder.
    + destruct (decide (c :: s ∈ placeholders)) as [Hph|Hph].
      * rewrite (get_mob_name_synthesized names vnum (c :: s)) by auto.
        apply get_mob_name_kept; [assumption|discriminate|].
        apply Mob_not_placeholder.
      * rewrite (get_mob_name_kept names vnum (c :: s)) by (auto; discriminate).
        apply get_mob_name_kept; [assumption|discriminate|assumption].
Qed.

Section SetupTable.
Variable names : gmap pystr pystr.
Variable hdrs : list pystr.

(** From the third column on the inner loop only fills the grid. *)
Lemma setup_cells_plain r col todo row_data t :
  (2 <= col)%nat ->
  setup_cells names hdrs r col todo row_data t
  = (row_data, apply_writes (row_writes r col todo) t, None).
Proof.
  revert col t. induction todo as [|value todo IH]; intros col t Hcol.
  - reflexivity.
  - simpl. unfold setup_cell.
    destruct (col =? 1)%nat eqn:Hc; [apply Nat.eqb_eq in Hc; lia|].
    simpl. apply IH. lia.
Qed.

(** The inner loop on a whole row computes [row_effect]. *)
Lemma setup_cells_effect r row_data t :
  setup_cells names hdrs r 0 row_data row_data t
  = let '(row', vals, e) := row_effect names hdrs row_data in
    (row', apply_writes (row_writes r 0 vals) t, e).
Proof.
  destruct row_data as [|vnum [|name rest]]; try reflexivity.
  unfold row_effect. simpl. unfold setup_cell. simpl. unfold index.
  destruct (hdrs !! 1%nat) as [h|]; simpl; [|reflexivity].
  destruct (pystr_eqb h NAME); simpl.
  - rewrite setup_cells_plain by lia. reflexivity.
  - rewrite setup_cells_plain by lia. reflexivity.
Qed.

(** The outer loop computes [rows_effect]. *)
Lemma setup_rows_effect r rows t :
  setup_rows names hdrs r rows t
  = let '(rows', ws, e) := rows_effect names hdrs r rows in
    (rows', apply_writes ws t, e).
Proof.
  revert r t. induction rows as [|row_data rows IH]; intros r t.
  - reflexivity.
  - simpl. rewrite setup_cells_effect.
    destruct (row_effect names hdrs row_data) as [[row' vals] [e|]].
    + reflexivity.
    + rewrite IH.
      destruct (rows_effect names hdrs (S r) rows) as [[rows'' ws] e].
      rewrite apply_writes_app. reflexivity.
Qed.

Lemma row_effect_idempotent row_data :
  row_effect names hdrs (row_effect names hdrs row_data).1.1
  = row_effect names hdrs row_data.
Proof.
  destruct row_data as [|vnum [|name rest]]; try reflexivity.
  unfold row_effect. destruct (hdrs !! 1%nat) as [h|]; simpl; [|reflexivity].
  destruct (pystr_eqb h NAME) eqn:Hn; simpl;
    rewrite ?Hn, ?get_mob_name_idempotent; reflexivity.
Qed.

Lemma rows_effect_idempotent r rows :
  rows_effect names hdrs r (rows_effect names hdrs r rows).1.1
  = rows_effect names hdrs r rows.
Proof.
  revert r. induction rows as [|row_data rows IH]; intros r.
  - reflexivity.
  - simpl.
    pose proof (row_effect_idempotent row_data) as Hrow.
    destruct (row_effect names hdrs row_data) as [[row' vals] [e|]] eqn:He;
      simpl in *.
    + rewrite Hrow. reflexivity.
    + specialize (IH (S r)).
      destruct (rows_effect names hdrs (S r) rows) as [[rows'' ws] e'] eqn:Hr.
      simpl in *. rewrite Hrow, IH. reflexivity.
Qed.

(** Without a second header, no row changes. *)
Lemma rows_effect_no_header r rows :
  hdrs !! 1%nat = None -> (rows_effect names hdrs r rows).1.1 = rows.
Proof.
  intros Hh. revert r. induction rows as [|row_data rows IH]; intros r.
  - reflexivity.
  - simpl. destruct row_data as [|vnum [|name rest]]; simpl.
    + specialize (IH (S r)).
      destruct (rows_effect names hdrs (S r) rows) as [[rows'' ws] e].
      simpl in *. congruence.
    + specialize (IH (S r)).
      destruct (rows_effect names hdrs (S r) rows) as [[rows'' ws] e].
      simpl in *. congruence.
    + rewrite Hh. reflexivity.
Qed.

(** With a second header the loops run to their end, and each row is
    treated on its own. *)
Lemma rows_effect_header h r rows :
  hdrs !! 1%nat = Some h ->
  exists ws,
    rows_effect names hdrs r rows
    = (map (fun row => (row_effect names hdrs row).1.1) rows, ws, None)
    /\ forall r' c',
         final_write ws (r', c')
         = if bool_decide (r <= r')%nat
           then row ← rows !! (r' - r)%nat;
                (row_effect names hdrs row).1.1 !! c'
           else None.
Proof.
  intros Hh. revert r. induction rows as [|row_data rows IH]; intros r.
  - exists []. split; [reflexivity|]. intros r' c'. simpl.
    case_bool_decide; reflexivity.
  - destruct (IH (S r)) as (ws & Heff & Hfin). simpl. rewrite Heff.
    assert (Hrow : exists row',
               row_effect names hdrs row_data = (row', row', None)).
    { destruct row_data as [|vnum [|name rest]]; simpl; eauto.
      rewrite Hh. destruct (pystr_eqb h NAME); eauto. }
    destruct Hrow as [row' Hrow]. rewrite Hrow. simpl.
    eexists. split; [reflexivity|].
    intros r' c'. rewrite final_write_app, Hfin, final_write_row.
    destruct (decide (r' = r)) as [->|Hne].
    + rewrite (bool_decide_eq_false_2 (S r <= r)%nat) by lia.
      rewrite bool_decide_eq_true_2 by (split; [reflexivity|lia]).
      rewrite bool_decide_eq_true_2 by lia.
      rewrite Nat.sub_diag, Nat.sub_0_r. simpl. rewrite Hrow. simpl.
      destruct (row' !! c'); reflexivity.
    + rewrite (bool_decide_eq_false_2 (r' = r /\ (0 <= c')%nat)) by tauto.
      destruct (decide (S r <= r')%nat) as [Hle|Hgt].
      * rewrite !bool_decide_eq_true_2 by lia.
        replace (r' - r)%nat with (S (r' - S r)) by lia. simpl.
        destruct (rows !! (r' - S r)%nat) as [row|]; simpl; [|reflexivity].
        destruct ((row_effect names hdrs row).1.1 !! c'); reflexivity.
      * rewrite !bool_decide_eq_false_2 by lia. reflexivity.
Qed.
End SetupTable.


Lemma resized_in_grid n m t :
  items_in_grid (setColumnCount m (setRowCount n t)).
Proof.
  intros r c text. unfold setColumnCount, setRowCount. simpl.
  rewrite !map_lookup_filter_Some. simpl. tauto.
Qed.

Lemma setItem_in_grid t r c text :
  items_in_grid t -> items_in_grid (setItem t r c text).
Proof.
  intros Hin r' c' text'. unfold setItem.
  destruct (in_grid t r c) eqn:Hg; [|apply Hin]. simpl.
  destruct (decide ((r, c) = (r', c'))) as [[= <- <-]|Hne].
  - intros _. unfold in_grid in Hg.
    apply andb_true_iff in Hg as [H1 H2].
    apply Nat.ltb_lt in H1, H2. tauto.
  - rewrite lookup_insert_ne by exact Hne. apply Hin.
Qed.

Lemma apply_writes_in_grid ws t :
  items_in_grid t -> items_in_grid (apply_writes ws t).
Proof.
  revert t. induction ws as [|w ws IH]; intros t Ht; [exact Ht|].
  simpl. apply IH, setItem_in_grid, Ht.
Qed.

(** Setting the counts a grid already has changes nothing. *)
Lemma resize_same t :
  items_in_grid t ->
  setColumnCount (columnCount t) (setRowCount (rowCount t) t) = t.
Proof.
  intros Hin. unfold setColumnCount, setRowCount. simpl.
  apply QTable_eq; simpl; try reflexivity.
  rewrite (map_filter_id _ (items t)).
  - apply map_filter_id. intros [r c] text Hl. simpl. apply (Hin _ _ _ Hl).
  - intros [r c] text Hl. simpl. apply (Hin _ _ _ Hl).
Qed.

Lemma rows_effect_length names hdrs r rows :
  length (rows_effect names hdrs r rows).1.1 = length rows.
Proof.
  revert r. induction rows as [|row_data rows IH]; intros r; [reflexivity|].
  simpl. destruct (row_effect names hdrs row_data) as [[row' vals] [e|]].
  - reflexivity.
  - specialize (IH (S r)).
    destruct (rows_effect names hdrs (S r) rows) as [[rows'' ws] e].
    simpl in *. congruence.
Qed.

(** [setup_table] in terms of the effect of its loops. *)
Lemma setup_table_effect ed :
  setup_table ed
  = let '(rows', ws, e) :=
      rows_effect (mob_names ed) (headers ed) 0 (data ed) in
    (set_table
       (apply_writes ws
          (setColumnCount (length (headers ed))
             (setRowCount (length (data ed)) (table ed))))
       (set_data rows' ed), e).
Proof.
  unfold setup_table. rewrite setup_rows_effect.
  destruct (rows_effect (mob_names ed) (headers ed) 0 (data ed))
    as [[rows' ws] e].
  reflexivity.
Qed.

(** With another second header, or none, the rows stay as they are. *)
Lemma setup_table_other_header ed :
  headers ed !! 1%nat <> Some NAME -> data (setup_table ed).1 = data ed.
Proof.
  intros Hother. rewrite setup_table_effect.
  destruct (headers ed !! 1%nat) as [h|] eqn:Hh.
  - destruct (rows_effect_header (mob_names ed) (headers ed) h 0 (data ed)
                Hh) as (ws & -> & _).
    simpl. rewrite <- (map_id (data ed)) at 2.
    apply map_ext. intros row.
    destruct row as [|vnum [|name rest]]; try reflexivity.
    unfold row_effect. rewrite Hh.
    unfold pystr_eqb. rewrite bool_decide_eq_false_2 by congruence.
    reflexivity.
  - pose proof (rows_effect_no_header (mob_names ed) (headers ed) 0
                  (data ed) Hh) as Hsame.
    destruct (rows_effect (mob_names ed) (headers ed) 0 (data ed))
      as [[rows' ws] e].
    exact Hsame.
Qed.

(** ** C3: name resolution *)

(** The placeholders are the three strings of question marks. *)
Lemma placeholders_elem name :
  name ∈ placeholders <->
  name = py "??" \/ name = py "???" \/ name = py "????".
Proof.
  unfold placeholders. rewrite list_elem_of_In. simpl. split.
  - intros [H|[H|[H|[]]]]; auto.
  - intros [H|[H|H]]; auto.
Qed.

(** C3. When the second header is "NAME", [setup_table] ends without an
    exception and, for every row [vnum :: name :: rest]: if [vnum] is a
    key of the name lookup, the stored field at position 1 and the name
    shown become the looked-up value; if it is not and [name] is
    non-empty and none of "??", "???", "????", the name is kept;
    otherwise (the name is empty or one of "??", "???", "????") the
    name becomes "Mob " followed by [vnum]. When the second header is
    not "NAME", no row is altered. *)
Theorem C3_name_resolution (ed : editor) :
  (headers ed !! 1%nat = Some (py "NAME") ->
   (setup_table ed).2 = None /\
   forall r vnum name rest,
     data ed !! r = Some (vnum :: name :: rest) ->
     let ed' := (setup_table ed).1 in
     (forall looked_up,
         mob_names ed !! vnum = Some looked_up ->
         data ed' !! r = Some (vnum :: looked_up :: rest)
         /\ item (table ed') r 1 = Some looked_up) /\
     (mob_names ed !! vnum = None -> name <> [] ->
      name <> py "??" -> name <> py "???" -> name <> py "????" ->
      data ed' !! r = Some (vnum :: name :: rest)
      /\ item (table ed') r 1 = Some name) /\
     (mob_names ed !! vnum = None ->
      name = [] \/ name = py "??" \/ name = py "???" \/ name = py "????" ->
      data ed' !! r = Some (vnum :: (py "Mob " ++ vnum) :: rest)
      /\ item (table ed') r 1 = Some (py "Mob " ++ vnum))) /\
  (headers ed !! 1%nat <> Some (py "NAME") ->
   data (setup_table ed).1 = data ed).
Proof.
  split.
  - intros Hname. change (py "NAME") with NAME in Hname.
    rewrite setup_table_effect.
    destruct (rows_effect_header (mob_names ed) (headers ed) NAME 0 (data ed)
                Hname) as (ws & -> & Hfin).
    split; [reflexivity|].
    intros r vnum name rest Hrow. simpl.
    assert (Hres :
      map (fun row => (row_effect (mob_names ed) (headers ed) row).1.1)
          (data ed) !! r
      = Some (vnum :: get_mob_name (mob_names ed) vnum name :: rest)
      /\ item (apply_writes ws
                 (setColumnCount (length (headers ed))
                    (setRowCount (length (data ed)) (table ed)))) r 1
         = Some (get_mob_name (mob_names ed) vnum name)).
    { assert (Heff : (row_effect (mob_names ed) (headers ed)
                        (vnum :: name :: rest)).1.1
                     = vnum :: get_mob_name (mob_names ed) vnum name :: rest).
      { unfold row_effect. rewrite Hname. reflexivity. }
      split.
      - rewrite <- Heff, list_lookup_fmap, Hrow. reflexivity.
      - unfold item. rewrite in_grid_apply_writes.
        assert (Hgrid : in_grid
                  (setColumnCount (length (headers ed))
                     (setRowCount (length (data ed)) (table ed))) r 1 = true).
        { unfold in_grid. simpl. apply andb_true_iff. split; apply Nat.ltb_lt.
          - apply lookup_lt_Some in Hrow. exact Hrow.
          - apply lookup_lt_Some in Hname. exact Hname. }
        rewrite Hgrid, items_apply_writes. simpl. rewrite Hgrid, Hfin.
        rewrite bool_decide_eq_true_2 by lia.
        rewrite Nat.sub_0_r.
        assert (Hlook :
          (data ed !! r ≫= fun row =>
             (row_effect (mob_names ed) (headers ed) row).1.1 !! 1%nat)
          = Some (get_mob_name (mob_names ed) vnum name)).
        { rewrite Hrow.
          transitivity ((row_effect (mob_names ed) (headers ed)
                           (vnum :: name :: rest)).1.1 !! 1%nat);
            [reflexivity | rewrite Heff; reflexivity]. }
        rewrite Hlook. reflexivity. }
    destruct Hres as [Hdata Hitem].
    split; [|split].
    + intros looked_up Hl.
      rewrite (get_mob_name_found _ _ name _ Hl) in Hdata, Hitem. tauto.
    + intros Hl Hne H2 H3 H4.
      assert (Hph : name ∉ placeholders)
        by (rewrite placeholders_elem; tauto).
      rewrite (get_mob_name_kept _ _ _ Hl Hne Hph) in Hdata, Hitem. tauto.
    + intros Hl Hor.
      assert (Hor' : name = [] \/ name ∈ placeholders)
        by (rewrite placeholders_elem; tauto).
      rewrite (get_mob_name_synthesized _ _ _ Hl Hor') in Hdata, Hitem. tauto.
  - change (py "NAME") with NAME. apply setup_table_other_header.
Qed.

(** ** C7: name resolution is idempotent *)

(** C7. For every editor (table, grid and name lookup), running the
    name resolution of [setup_table] a second time leaves the stored
    rows, the grid with the names shown, and the outcome as the first
    run left them. *)
Theorem C7_name_resolution_idempotent (ed : editor) :
  setup_table (setup_table ed).1 = setup_table ed.
Proof.
  rewrite (setup_table_effect ed).
  pose proof (rows_effect_idempotent (mob_names ed) (headers ed) 0 (data ed))
    as Hidem.
  pose proof (rows_effect_length (mob_names ed) (headers ed) 0 (data ed))
    as Hlen.
  destruct (rows_effect (mob_names ed) (headers ed) 0 (data ed))
    as [[rows' ws] e] eqn:Heff.
  simpl in Hidem, Hlen. simpl.
  rewrite setup_table_effect. simpl. rewrite Hidem, Hlen.
  set (t0 := setColumnCount (length (headers ed))
               (setRowCount (length (data ed)) (table ed))).
  assert (Hsame : setColumnCount (length (headers ed))
                    (setRowCount (length (data ed)) (apply_writes ws t0))
                  = apply_writes ws t0).
  { pose proof (apply_writes_counts ws t0) as [Hr Hc]. simpl in Hr, Hc.
    rewrite <- Hr at 1. rewrite <- Hc at 1.
    apply resize_same, apply_writes_in_grid, resized_in_grid. }
  rewrite Hsame, apply_writes_absorb. reflexivity.
Qed.

Lemma C3_witness :
  let ed' := (setup_table placeholder_editor).1 in
  (data ed' !! 0%nat = Some [py "9001"; Hoellenwolf; py "5"]
   /\ item (table ed') 0 1 = Some Hoellenwolf)
  /\ (data ed' !! 1%nat = Some [py "9002"; py "Wolf"; py "6"]
      /\ item (table ed') 1 1 = Some (py "Wolf"))
  /\ (data ed' !! 2%nat = Some [py "9003"; py "Mob 9003"; py "7"]
      /\ item (table ed') 2 1 = Some (py "Mob 9003"))
  /\ (data ed' !! 3%nat = Some [py "9004"; py "Mob 9004"; py "8"]
      /\ item (table ed') 3 1 = Some (py "Mob 9004"))
  /\ (data ed' !! 4%nat = Some [py "9005"; py "Mob 9005"; py "9"]
      /\ item (table ed') 4 1 = Some (py "Mob 9005"))
  /\ (data ed' !! 5%nat = Some [py "9006"; py "Mob 9006"; py "10"]
      /\ item (table ed') 5 1 = Some (py "Mob 9006")).
Proof.
  intros ed'. subst ed'.
  destruct (C3_name_resolution placeholder_editor) as [Hname _].
  destruct (Hname eq_refl) as [_ Hrows].
  split; [|split; [|split; [|split; [|split]]]].
  - destruct (Hrows 0%nat (py "9001") (py "????") [py "5"] eq_refl)
      as (Hfound & _ & _).
    apply Hfound. reflexivity.
  - destruct (Hrows 1%nat (py "9002") (py "Wolf") [py "6"] eq_refl)
      as (_ & Hkept & _).
    apply Hkept; [reflexivity | discriminate..].
  - destruct (Hrows 2%nat (py "9003") [] [py "7"] eq_refl)
      as (_ & _ & Hsynth).
    apply Hsynth; [reflexivity | left; reflexivity].
  - destruct (Hrows 3%nat (py "9004") (py "??") [py "8"] eq_refl)
      as (_ & _ & Hsynth).
    apply Hsynth; [reflexivity | right; left; reflexivity].
  - destruct (Hrows 4%nat (py "9005") (py "???") [py "9"] eq_refl)
      as (_ & _ & Hsynth).
    apply Hsynth; [reflexivity | right; right; left; reflexivity].
  - destruct (Hrows 5%nat (py "9006") (py "????") [py "10"] eq_refl)
      as (_ & _ & Hsynth).
    apply Hsynth; [reflexivity | right; right; right; reflexivity].
Defined.

Example setup_table_twice :
  setup_table (setup_table sample_editor).1 = setup_table sample_editor.
Proof. vm_compute. reflexivity. Qed.

(** ** C8: the character repairs *)

Lemma replace_char x y s :
  replace [x] [y] s = map (fun c => if c =? x then y else c) s.
Proof.
  unfold replace. induction s as [|c s IH]; [reflexivity|].
  simpl. rewrite andb_true_r, (N.eqb_sym x c).
  destruct (c =? x); simpl; rewrite IH; reflexivity.
Qed.

Lemma starts_with_elem old s x :
  starts_with old s = true -> x ∈ old -> x ∈ s.
Proof.
  revert s. induction old as [|a old IH]; intros s Hsw Hin.
  - inversion Hin.
  - destruct s as [|b s]; [discriminate|]. simpl in Hsw.
    apply andb_true_iff in Hsw as [Hab Hrest]. apply N.eqb_eq in Hab. subst b.
    inversion Hin; subst; [left | right; now apply IH].
Qed.

(** A pattern with a character that the string lacks never matches. *)
Lemma replace_absent old new s x :
  x ∈ old -> x ∉ s -> replace old new s = s.
Proof.
  intros Hold. unfold replace. induction s as [|c s IH]; intros Hs.
  - reflexivity.
  - simpl. destruct old as [|a old]; [inversion Hold|].
    destruct (starts_with (a :: old) (c :: s)) eqn:Hsw.
    + exfalso. apply Hs. apply (starts_with_elem _ _ _ Hsw Hold).
    + f_equal. apply IH. intros Hin. apply Hs. now right.
Qed.

Lemma apply_fixes_absent fixes s :
  Forall (fun fx : pystr * pystr => REPLACEMENT ∈ fx.1) fixes ->
  REPLACEMENT ∉ s -> apply_fixes fixes s = s.
Proof.
  unfold apply_fixes. intros Hall Hs.
  induction Hall as [|fx fixes Hfx _ IH]; [reflexivity|].
  simpl. rewrite (replace_absent _ _ _ _ Hfx Hs). exact IH.
Qed.

Lemma to_a_umlaut_clean s : REPLACEMENT ∉ map to_a_umlaut s.
Proof.
  intros Hin. apply list_elem_of_In, in_map_iff in Hin as (c & Hc & _).
  unfold to_a_umlaut in Hc. destruct (c =? REPLACEMENT) eqn:Heq.
  - discriminate.
  - apply N.eqb_neq in Heq. congruence.
Qed.

Lemma name_fixes_patterns :
  Forall (fun fx : pystr * pystr => REPLACEMENT ∈ fx.1) (tail name_fixes).
Proof.
  unfold name_fixes. simpl.
  repeat (apply Forall_cons; split;
          [simpl; apply list_elem_of_In; simpl; tauto|]).
  apply Forall_nil_2.
Qed.

Lemma line_fixes_patterns :
  Forall (fun fx : pystr * pystr => REPLACEMENT ∈ fx.1) (tail line_fixes).
Proof.
  unfold line_fixes, name_fixes. simpl.
  repeat (apply Forall_cons; split;
          [simpl; apply list_elem_of_In; simpl; tauto|]).
  apply Forall_nil_2.
Qed.

(** C8. The repair chains do not map each corrupted sequence to its own
    character: every pattern of the chain contains the one character
    U+FFFD, so the first replacement turns each U+FFFD into a-umlaut and
    no later replacement finds anything. [fix_name] and [fix_line] are
    the map of U+FFFD to a-umlaut; the corrupted "Boser" (o-umlaut lost)
    is repaired with a-umlaut and holds no o-umlaut. *)
Theorem C8_every_repair_yields_a_umlaut :
  (forall name, fix_name name = map to_a_umlaut name) /\
  (forall line, fix_line line = map to_a_umlaut line) /\
  fix_name (py "B" ++ [REPLACEMENT] ++ py "ser")
  = py "B" ++ [a_uml] ++ py "ser" /\
  o_uml ∉ fix_name (py "B" ++ [REPLACEMENT] ++ py "ser").
Proof.
  assert (Hname : forall name, fix_name name = map to_a_umlaut name).
  { intros name. unfold fix_name.
    change (apply_fixes name_fixes name)
      with (apply_fixes (tail name_fixes) (replace [REPLACEMENT] [a_uml] name)).
    rewrite replace_char.
    apply apply_fixes_absent;
      [exact name_fixes_patterns | apply to_a_umlaut_clean]. }
  split; [exact Hname|]. split; [|split].
  - intros line. unfold fix_line.
    change (apply_fixes line_fixes line)
      with (apply_fixes (tail line_fixes) (replace [REPLACEMENT] [a_uml] line)).
    rewrite replace_char.
    apply apply_fixes_absent;
      [exact line_fixes_patterns | apply to_a_umlaut_clean].
  - reflexivity.
  - rewrite Hname. intros Hin. apply list_elem_of_In in Hin. simpl in Hin.
    repeat (destruct Hin as [Hin|Hin]; [discriminate Hin|]). exact Hin.
Qed.

(** The same repair on a line of the name file read by
    [load_mob_names]. *)
Example load_mob_names_repair :
  add_name_line ∅ (py "101" ++ [TAB] ++ py "B" ++ [REPLACEMENT] ++ py "ser" ++ [LF])
  !! py "101"
  = Some (py "B" ++ [a_uml] ++ py "ser").
Proof. vm_compute. reflexivity. Qed.

(** ** Mass edit *)

Lemma item_setItem t r c text r' c' :
  item (setItem t r c text) r' c'
  = if bool_decide ((r, c) = (r', c')) && in_grid t r c then Some text
    else item t r' c'.
Proof.
  unfold item. rewrite in_grid_setItem. unfold setItem.
  case_bool_decide as Heq.
  - injection Heq as <- <-. destruct (in_grid t r c); simpl; [|reflexivity].
    apply lookup_insert_eq.
  - simpl. destruct (in_grid t r c); [|reflexivity]. simpl.
    destruct (in_grid t r' c'); [|reflexivity].
    apply lookup_insert_ne. exact Heq.
Qed.

(** The column found carries the name searched. *)
Lemma find_column_lookup hdrs col_name i j :
  find_column hdrs col_name i = Some j ->
  (i <= j)%nat /\ hdrs !! (j - i)%nat = Some col_name.
Proof.
  revert i. induction hdrs as [|header hdrs IH]; intros i; [discriminate|].
  simpl. unfold pystr_eqb. case_bool_decide as Heq.
  - intros [= <-]. rewrite Nat.sub_diag. subst. split; [lia|reflexivity].
  - intros Hfind. destruct (IH _ Hfind) as [Hle Hlook]. split; [lia|].
    replace (j - i)%nat with (S (j - S i)) by lia. exact Hlook.
Qed.


Lemma changed_only_refl P t : changed_only P t t.
Proof. repeat split. intros r c H. congruence. Qed.

Lemma changed_only_trans P t1 t2 t3 :
  changed_only P t1 t2 -> changed_only P t2 t3 -> changed_only P t1 t3.
Proof.
  intros (Hr1 & Hc1 & H1) (Hr2 & Hc2 & H2).
  split; [congruence|]. split; [congruence|].
  intros r c Hne.
  destruct (decide (item t2 r c = item t1 r c)) as [Heq|Hd].
  - apply H2. congruence.
  - apply H1, Hd.
Qed.

Lemma changed_only_weaken (P Q : nat -> nat -> Prop) t t' :
  (forall r c, P r c -> Q r c) -> changed_only P t t' -> changed_only Q t t'.
Proof. intros HPQ (Hr & Hc & H). repeat split; auto. Qed.

Lemma changed_only_setItem (P : nat -> nat -> Prop) t r c text :
  P r c -> changed_only P t (setItem t r c text).
Proof.
  intros HP. split; [|split].
  - unfold setItem. destruct (in_grid t r c); reflexivity.
  - unfold setItem. destruct (in_grid t r c); reflexivity.
  - intros r' c'. rewrite item_setItem.
    case_bool_decide as Heq; simpl; [|congruence].
    injection Heq as <- <-. intros _. exact HP.
Qed.

Section MassEdit.
Variable decimal : N -> option N.
Variable hdrs : list pystr.

(** One change on one row touches at most the cell of that row under
    the first header named by the change. *)
Lemma apply_to_row_frame row ch t n :
  changed_only (fun r c => r = row /\ hdrs !! c = Some ch.1.1) t
    (apply_to_row decimal hdrs row ch t n).1.1.
Proof.
  destruct ch as [[col_name operation] value]. simpl.
  destruct (find_column hdrs col_name 0) as [col_index|] eqn:Hfind;
    [|apply changed_only_refl].
  destruct (apply_change decimal (item t row col_index) operation value);
    simpl; try apply changed_only_refl.
  apply changed_only_setItem.
  apply find_column_lookup in Hfind as [_ Hlook].
  rewrite Nat.sub_0_r in Hlook. auto.
Qed.

Lemma apply_changes_frame row changes t n :
  changed_only
    (fun r c => r = row /\ exists ch, ch ∈ changes /\ hdrs !! c = Some ch.1.1)
    t (apply_changes decimal hdrs row changes t n).1.1.
Proof.
  revert t n. induction changes as [|ch changes IH]; intros t n.
  - apply changed_only_refl.
  - simpl. pose proof (apply_to_row_frame row ch t n) as Hone.
    destruct (apply_to_row decimal hdrs row ch t n) as [[t' n'] [e|]];
      simpl in Hone.
    + simpl. eapply changed_only_weaken; [|exact Hone].
      intros r c [-> Hc]. split; [reflexivity|].
      exists ch. split; [left|exact Hc].
    + eapply changed_only_trans.
      * eapply changed_only_weaken; [|exact Hone].
        intros r c [-> Hc]. split; [reflexivity|].
        exists ch. split; [left|exact Hc].
      * eapply changed_only_weaken; [|apply IH].
        intros r c (-> & ch' & Hin & Hc). split; [reflexivity|].
        exists ch'. split; [now right|exact Hc].
Qed.

Lemma apply_rows_frame rows changes t n :
  changed_only
    (fun r c => r ∈ rows /\ exists ch, ch ∈ changes /\ hdrs !! c = Some ch.1.1)
    t (apply_rows decimal hdrs rows changes t n).1.1.
Proof.
  revert t n. induction rows as [|row rows IH]; intros t n.
  - apply changed_only_refl.
  - simpl. pose proof (apply_changes_frame row changes t n) as Hone.
    destruct (apply_changes decimal hdrs row changes t n)
      as [[t' n'] [e|]]; simpl in Hone.
    + simpl. eapply changed_only_weaken; [|exact Hone].
      intros r c [-> Hc]. split; [left|exact Hc].
    + eapply changed_only_trans.
      * eapply changed_only_weaken; [|exact Hone].
        intros r c [-> Hc]. split; [left|exact Hc].
      * eapply changed_only_weaken; [|apply IH].
        intros r c [Hin Hc]. split; [now right|exact Hc].
Qed.
End MassEdit.

(** ** C9: what a mass edit leaves alone *)

(** C9. After a mass edit, whether it ran to its end or was left by an
    exception, the header and the stored rows are unchanged, the grid
    keeps its size, and a cell of the grid differs from before only if
    its row is a target row (a selected row, or any row when nothing is
    selected) and the header of its column is the column name of one of
    the changes. *)
Theorem C9_mass_edit_frame (decimal : N -> option N) (selected : list nat)
    (changes : list change) (ed : editor) :
  let ed' := (apply_mass_changes decimal selected changes ed).1.1 in
  headers ed' = headers ed /\
  data ed' = data ed /\
  rowCount (table ed') = rowCount (table ed) /\
  columnCount (table ed') = columnCount (table ed) /\
  forall r c,
    item (table ed') r c <> item (table ed) r c ->
    (selected = [] \/ r ∈ selected) /\
    r ∈ rows_to_change selected (table ed) /\
    exists ch, ch ∈ changes /\ headers ed !! c = Some ch.1.1.
Proof.
  unfold apply_mass_changes.
  destruct changes as [|ch changes].
  - simpl. repeat split; try reflexivity; congruence.
  - pose proof (apply_rows_frame decimal (headers ed)
                  (rows_to_change selected (table ed)) (ch :: changes)
                  (table ed) O) as (Hr & Hc & Hframe).
    destruct (apply_rows decimal (headers ed)
                (rows_to_change selected (table ed)) (ch :: changes)
                (table ed) O) as [[t' n] e].
    simpl in *. repeat split; try assumption; try reflexivity.
    + destruct (Hframe r c H) as [Hin _].
      destruct selected; [left; reflexivity | right; exact Hin].
    + apply (Hframe r c H).
    + apply (Hframe r c H).
Qed.

Lemma C9_witness :
  (0%nat ∈ rows_to_change [] (table exp_editor)) /\
  exists ch : change,
    ch ∈ [(py "EXP", py "multiply", py "4")]
    /\ headers exp_editor !! 2%nat = Some ch.1.1.
Proof.
  destruct (C9_mass_edit_frame ascii_digits []
              [(py "EXP", py "multiply", py "4")] exp_editor)
    as (_ & _ & _ & _ & Hframe).
  destruct (Hframe 0%nat 2%nat) as (_ & Hrow & Hcol).
  - vm_compute. discriminate.
  - split; [exact Hrow | exact Hcol].
Defined.

(** ** C1: one application of a change *)

Lemma py_float_error decimal s e :
  py_float decimal s = Raise e -> e = ValueError.
Proof.
  unfold py_float.
  destruct (remove_underscores 0 (c_strip (map (to_ascii decimal) s)))
    as [t|]; [|congruence].
  destruct (parse_decimal t); [discriminate|].
  destruct (parse_inf_nan t); [discriminate|congruence].
Qed.

(** [int] drops the fraction: the quotient is the one that rounds toward
    zero. *)
Lemma py_int_truncates s m e :
  py_int (S754_finite s m e)
  = Ok (if (0 <=? e)%Z then cond_Zopp s (Zpos m * 2 ^ e)
        else Z.quot (cond_Zopp s (Zpos m)) (2 ^ (- e)))%Z.
Proof.
  unfold py_int. f_equal.
  destruct (0 <=? e)%Z eqn:He.
  - apply Z.leb_le in He. rewrite Z.shiftl_mul_pow2 by exact He. reflexivity.
  - apply Z.leb_gt in He. rewrite Z.shiftl_div_pow2 by lia.
    assert (Hpow : (0 < 2 ^ (- e))%Z) by (apply Z.pow_pos_nonneg; lia).
    destruct s; simpl.
    + change (Z.neg m) with (- Z.pos m)%Z.
      rewrite Z.quot_opp_l by lia.
      rewrite Z.quot_div_nonneg by lia. reflexivity.
    + rewrite Z.quot_div_nonneg by lia. reflexivity.
Qed.

Lemma operate_known decimal operation value c v x :
  py_float decimal value = Ok v ->
  (operation, x) ∈ [(py "multiply", float_mul c v); (py "add", float_add c v);
                    (py "set", v)] ->
  operate decimal operation value c = Ok (Some x).
Proof.
  intros Hv Hin. apply list_elem_of_In in Hin. simpl in Hin.
  unfold operate. rewrite Hv.
  destruct Hin as [[= <- <-]|[[= <- <-]|[[= <- <-]|[]]]]; reflexivity.
Qed.

(** C1, as the code has it. For each application of a change to a cell:
    a missing or empty cell counts as 0; a cell whose text is not a
    numeral skips this one application, and the loops go on with the
    remaining changes and rows from the same grid and count; for
    multiply, add and set the value computed is current*operand,
    current+operand and operand, and when it is finite the text written
    is the decimal form of its truncation toward zero, so that 101
    multiplied by 2.5 gives "252"; an application whose value is NaN is
    skipped. *)
Theorem C1_mass_edit_application (decimal : N -> option N) :
  current_value decimal None = Ok (S754_zero false) /\
  current_value decimal (Some []) = Ok (S754_zero false) /\
  (forall text operation value e,
      text <> [] -> py_float decimal text = Raise e ->
      apply_change decimal (Some text) operation value = Skipped) /\
  (forall hdrs row rows col_name operation value rest t n col_index text e,
      find_column hdrs col_name 0 = Some col_index ->
      item t row col_index = Some text ->
      text <> [] -> py_float decimal text = Raise e ->
      apply_changes decimal hdrs row ((col_name, operation, value) :: rest) t n
      = apply_changes decimal hdrs row rest t n
      /\ apply_rows decimal hdrs (row :: rows) [(col_name, operation, value)]
           t n
         = apply_rows decimal hdrs rows [(col_name, operation, value)] t n) /\
  (forall it operation value c v x z,
      current_value decimal it = Ok c ->
      py_float decimal value = Ok v ->
      (operation, x) ∈ [(py "multiply", float_mul c v);
                        (py "add", float_add c v); (py "set", v)] ->
      py_int x = Ok z ->
      apply_change decimal it operation value = Updated (py_str_int z)) /\
  (forall s m e,
      py_int (S754_finite s m e)
      = Ok (if (0 <=? e)%Z then cond_Zopp s (Zpos m * 2 ^ e)
            else Z.quot (cond_Zopp s (Zpos m)) (2 ^ (- e)))%Z) /\
  (forall it operation value c v,
      current_value decimal it = Ok c ->
      py_float decimal value = Ok v ->
      (operation, S754_nan) ∈ [(py "multiply", float_mul c v);
                               (py "add", float_add c v); (py "set", v)] ->
      apply_change decimal it operation value = Skipped) /\
  apply_change decimal (Some (py "101")) (py "multiply") (py "2.5")
  = Updated (py "252").
Proof.
  assert (Hskip : forall text operation value e,
             text <> [] -> py_float decimal text = Raise e ->
             apply_change decimal (Some text) operation value = Skipped).
  { intros text operation value e Hne Hraise.
    pose proof (py_float_error _ _ _ Hraise) as ->.
    unfold apply_change, new_text, current_value.
    destruct text as [|ch text]; [congruence|].
    rewrite Hraise. reflexivity. }
  split; [reflexivity|]. split; [reflexivity|]. split; [exact Hskip|].
  split; [|split; [|split; [|split]]].
  - intros hdrs row rows col_name operation value rest t n col_index text e
      Hfind Hitem Hne Hraise.
    simpl. rewrite Hfind, Hitem.
    rewrite (Hskip _ _ _ _ Hne Hraise). split; reflexivity.
  - intros it operation value c v x z Hc Hv Hin Hz.
    unfold apply_change, new_text. rewrite Hc. simpl.
    rewrite (operate_known _ _ _ _ _ _ Hv Hin). simpl.
    rewrite Hz. reflexivity.
  - apply py_int_truncates.
  - intros it operation value c v Hc Hv Hin.
    unfold apply_change, new_text. rewrite Hc. simpl.
    rewrite (operate_known _ _ _ _ _ _ Hv Hin). reflexivity.
  - vm_compute. reflexivity.
Qed.

Lemma C1_witness :
  apply_change ascii_digits (Some (py "abc")) (py "add") (py "1") = Skipped
  /\ apply_change ascii_digits (Some (py "100")) (py "multiply") (py "2.5")
     = Updated (py "250")
  /\ apply_change ascii_digits (Some (py "inf")) (py "multiply") (py "0")
     = Skipped.
Proof.
  destruct (C1_mass_edit_application ascii_digits)
    as (_ & _ & Hskip & _ & Hupd & _ & Hnan & _).
  split; [|split].
  - apply (Hskip (py "abc") (py "add") (py "1") ValueError);
      [discriminate | reflexivity].
  - apply (Hupd (Some (py "100")) (py "multiply") (py "2.5")
             (S754_finite false 7036874417766400 (-46))
             (S754_finite false 5629499534213120 (-51))
             (float_mul (S754_finite false 7036874417766400 (-46))
                        (S754_finite false 5629499534213120 (-51)))
             250%Z).
    + vm_compute. reflexivity.
    + vm_compute. reflexivity.
    + left.
    + vm_compute. reflexivity.
  - apply (Hnan (Some (py "inf")) (py "multiply") (py "0")
             (S754_infinity false) (S754_zero false)).
    + vm_compute. reflexivity.
    + vm_compute. reflexivity.
    + left.
Defined.

(** The claim as the specification words it fails where the value
    computed is not finite. 1e308 times 10 overflows to infinity: [int]
    raises [OverflowError], which [apply_mass_changes] does not catch,
    so nothing is written and the batch stops at the first row it
    treats. 1e999 reads as infinity, and times 0 it is NaN: [int] raises
    [ValueError] and the application is skipped, although the cell and
    the operand are both read as numbers. *)
Lemma C1_counterexample :
  (exists c v,
      current_value ascii_digits (Some (py "1e308")) = Ok c
      /\ py_float ascii_digits (py "10") = Ok v
      /\ float_mul c v = S754_infinity false) /\
  (exists c v,
      current_value ascii_digits (Some (py "1e999")) = Ok c
      /\ py_float ascii_digits (py "0") = Ok v
      /\ float_mul c v = S754_nan
      /\ apply_change ascii_digits (Some (py "1e999")) (py "multiply") (py "0")
         = Skipped) /\
  apply_change ascii_digits (Some (py "1e308")) (py "multiply") (py "10")
  = Aborted OverflowError /\
  (apply_mass_changes ascii_digits [1%nat; 0%nat]
     [(py "EXP", py "multiply", py "10")] exp_editor).2
  = Some OverflowError /\
  item (table (apply_mass_changes ascii_digits [1%nat; 0%nat]
                 [(py "EXP", py "multiply", py "10")] exp_editor).1.1) 0 2
  = Some (py "100").
Proof.
  split; [|split; [|split; [|split]]].
  - eexists _, _. split; [vm_compute; reflexivity|].
    split; vm_compute; reflexivity.
  - eexists _, _. split; [vm_compute; reflexivity|].
    split; [vm_compute; reflexivity|]. split; vm_compute; reflexivity.
  - vm_compute. reflexivity.
  - vm_compute. reflexivity.
  - vm_compute. reflexivity.
Qed.

(** ** Saving and loading again *)

Lemma universal_newlines_id text :
  CR ∉ text -> universal_newlines text = text.
Proof.
  induction text as [|c text IH]; intros Hcr; [reflexivity|].
  simpl. destruct (c =? CR) eqn:Hc.
  - apply N.eqb_eq in Hc. subst. exfalso. apply Hcr. left.
  - f_equal. apply IH. intros Hin. apply Hcr. now right.
Qed.

Lemma keep_lines_line l rest :
  LF ∉ l -> keep_lines (l ++ LF :: rest) = (l ++ [LF]) :: keep_lines rest.
Proof.
  induction l as [|c l IH]; intros Hlf; [reflexivity|].
  simpl. destruct (c =? LF) eqn:Hc.
  - apply N.eqb_eq in Hc. subst. exfalso. apply Hlf. left.
  - rewrite IH; [reflexivity|]. intros Hin. apply Hlf. now right.
Qed.

Lemma lstrip_length s : (length (lstrip s) <= length s)%nat.
Proof.
  induction s as [|c s IH]; simpl; [lia|].
  destruct (is_space c); simpl; lia.
Qed.

Lemma rstrip_length s : (length (rstrip s) <= length s)%nat.
Proof.
  unfold rstrip. rewrite length_rev.
  etransitivity; [apply lstrip_length|]. rewrite length_rev. lia.
Qed.

Lemma lstrip_spaces ws s :
  Forall (fun c => is_space c = true) ws -> lstrip (ws ++ s) = lstrip s.
Proof.
  induction 1 as [|c ws Hc _ IH]; [reflexivity|]. simpl. rewrite Hc. exact IH.
Qed.

(** A line that [strip] leaves alone is stripped back to itself when
    blanks are appended. *)
Lemma strip_trailing l ws :
  l <> [] -> strip l = l -> Forall (fun c => is_space c = true) ws ->
  strip (l ++ ws) = l.
Proof.
  intros Hne Hstrip Hws. destruct l as [|c l]; [congruence|].
  assert (Hc : is_space c = false).
  { destruct (is_space c) eqn:Hc; [|reflexivity]. exfalso.
    assert (Hlen : (length (strip (c :: l)) <= length l)%nat).
    { unfold strip. simpl. rewrite Hc.
      etransitivity; [apply rstrip_length | apply lstrip_length]. }
    rewrite Hstrip in Hlen. simpl in Hlen. lia. }
  unfold strip in *. simpl in *. rewrite Hc in *.
  unfold rstrip in *.
  change (c :: l ++ ws) with ((c :: l) ++ ws).
  rewrite rev_app_distr, lstrip_spaces; [exact Hstrip|].
  apply Forall_rev, Hws.
Qed.

Lemma written_no_CR lks :
  Forall (fun lk : pystr * nat => line_ok lk.1) lks ->
  CR ∉ concat (map written lks).
Proof.
  induction 1 as [|[l k] lks (_ & _ & _ & Hcr) _ IH]; simpl.
  - intros Hin. inversion Hin.
  - unfold written at 1. simpl. intros Hin.
    rewrite !elem_of_app in Hin.
    destruct Hin as [[Hin|[Hin|Hin]]|Hin]; try contradiction.
    + apply elem_of_replicate in Hin as [Hin _]. discriminate.
    + apply list_elem_of_singleton in Hin. discriminate.
Qed.

Lemma keep_lines_written l k rest :
  LF ∉ l ->
  keep_lines ((l ++ replicate k TAB ++ [LF]) ++ rest)
  = (l ++ replicate k TAB ++ [LF]) :: keep_lines rest.
Proof.
  intros Hlf.
  replace ((l ++ replicate k TAB ++ [LF]) ++ rest)
    with ((l ++ replicate k TAB) ++ LF :: rest)
    by (rewrite <- !app_assoc; reflexivity).
  rewrite keep_lines_line.
  - rewrite <- app_assoc. reflexivity.
  - rewrite elem_of_app. intros [Hin|Hin]; [contradiction|].
    apply elem_of_replicate in Hin as [Hin _]. discriminate.
Qed.

(** Written lines come back without their trailing tabs. *)
Lemma read_written_lines lks :
  Forall (fun lk : pystr * nat => line_ok lk.1) lks ->
  stripped_nonblank (readlines (concat (map written lks))) = map fst lks.
Proof.
  intros Hok. unfold readlines.
  rewrite universal_newlines_id by (apply written_no_CR, Hok).
  induction Hok as [|[l k] lks (Hne & Hstrip & Hlf & _) _ IH]; [reflexivity|].
  simpl in *. unfold written at 1. simpl.
  rewrite keep_lines_written by exact Hlf. simpl.
  rewrite (strip_trailing l (replicate k TAB ++ [LF]) Hne Hstrip), IH.
  - destruct l; [congruence | reflexivity].
  - apply Forall_app. split; [|repeat constructor].
    apply Forall_replicate. reflexivity.
Qed.

Lemma split_no_sep sep f : sep ∉ f -> split sep f = [f].
Proof.
  induction f as [|c f IH]; intros Hs; [reflexivity|].
  simpl. destruct (c =? sep) eqn:Hc.
  - apply N.eqb_eq in Hc. subst. exfalso. apply Hs. left.
  - rewrite IH; [reflexivity|]. intros Hin. apply Hs. now right.
Qed.

Lemma split_app_sep sep f rest :
  sep ∉ f -> split sep (f ++ sep :: rest) = f :: split sep rest.
Proof.
  induction f as [|c f IH]; intros Hs.
  - simpl. rewrite N.eqb_refl. reflexivity.
  - simpl. destruct (c =? sep) eqn:Hc.
    + apply N.eqb_eq in Hc. subst. exfalso. apply Hs. left.
    + rewrite IH; [reflexivity|]. intros Hin. apply Hs. now right.
Qed.

Lemma split_join fields :
  fields <> [] -> Forall (fun f => TAB ∉ f) fields ->
  split TAB (join [TAB] fields) = fields.
Proof.
  intros Hne Hall. induction Hall as [|f fields Hf Hall IH]; [congruence|].
  destruct fields as [|g fields].
  - simpl. apply split_no_sep, Hf.
  - change (join [TAB] (f :: g :: fields))
      with (f ++ TAB :: join [TAB] (g :: fields)).
    rewrite split_app_sep by exact Hf. f_equal. apply IH. discriminate.
Qed.

Lemma join_chars (P : N -> Prop) fields :
  P TAB -> Forall (Forall P) fields -> Forall P (join [TAB] fields).
Proof.
  intros Ht Hall. induction Hall as [|f fields Hf Hall IH]; [constructor|].
  destruct fields as [|g fields]; [exact Hf|].
  change (join [TAB] (f :: g :: fields))
    with (f ++ TAB :: join [TAB] (g :: fields)).
  apply Forall_app. split; [exact Hf|]. constructor; [exact Ht | exact IH].
Qed.

(** Each trailing empty field is written as one more tab. *)
Lemma join_padded fields k :
  fields <> [] ->
  join [TAB] (fields ++ replicate k []) = join [TAB] fields ++ replicate k TAB.
Proof.
  intros Hne. induction fields as [|f fields IH]; [congruence|].
  destruct fields as [|g fields].
  - clear IH. simpl. induction k as [|k IHk]; [symmetry; apply app_nil_r|].
    change (join [TAB] (f :: replicate (S k) []))
      with (f ++ TAB :: join [TAB] ([] :: replicate k [])).
    destruct k as [|k]; [reflexivity|].
    f_equal. simpl replicate at 2. f_equal.
    change ([] :: replicate (S k) []) with ([[]] ++ replicate (S k) ([] : pystr)).
    simpl in IHk. apply (app_inv_head f). apply IHk.
  - change (join [TAB] ((f :: g :: fields) ++ replicate k []))
      with (f ++ TAB :: join [TAB] ((g :: fields) ++ replicate k [])).
    rewrite IH by discriminate.
    change (join [TAB] (f :: g :: fields))
      with (f ++ TAB :: join [TAB] (g :: fields)).
    rewrite <- app_assoc. reflexivity.
Qed.

Lemma clean_fields_line fields :
  clean_fields fields -> line_ok (join [TAB] fields).
Proof.
  intros (Hne & Hplain & Hnb & Hstrip). repeat split; try assumption.
  - intros Hin.
    assert (H : Forall (fun c => c <> LF) (join [TAB] fields)).
    { apply join_chars; [discriminate|].
      eapply Forall_impl; [exact Hplain|]. intros f Hf.
      eapply Forall_impl; [exact Hf|]. intros c Hc. apply Hc. }
    rewrite Forall_forall in H. apply (H _ Hin). reflexivity.
  - intros Hin.
    assert (H : Forall (fun c => c <> CR) (join [TAB] fields)).
    { apply join_chars; [discriminate|].
      eapply Forall_impl; [exact Hplain|]. intros f Hf.
      eapply Forall_impl; [exact Hf|]. intros c Hc. apply Hc. }
    rewrite Forall_forall in H. apply (H _ Hin). reflexivity.
Qed.

Lemma clean_fields_split fields :
  clean_fields fields -> split TAB (join [TAB] fields) = fields.
Proof.
  intros (Hne & Hplain & _). apply split_join; [exact Hne|].
  eapply Forall_impl; [exact Hplain|]. intros f Hf Hin.
  rewrite Forall_forall in Hf. destruct (Hf _ Hin) as [Ht _].
  apply Ht. reflexivity.
Qed.

(** The line written for a row, in terms of the fields that come
    back. *)
Lemma roundtrip_row_written n row :
  roundtrip_row n row ->
  join [TAB] row ++ [LF]
  = written (join [TAB] (trim_empty row), (n - length (trim_empty row))%nat).
Proof.
  intros [Hclean Hpad]. unfold written. simpl.
  rewrite Hpad at 1. rewrite pad_row_spec, join_padded by apply Hclean.
  rewrite <- app_assoc. reflexivity.
Qed.

Lemma utf8_encode_app s1 s2 b1 b2 :
  utf8_encode s1 = Ok b1 -> utf8_encode s2 = Ok b2 ->
  utf8_encode (s1 ++ s2) = Ok (b1 ++ b2).
Proof.
  revert b1. induction s1 as [|c s1 IH]; intros b1 H1 H2.
  - injection H1 as <-. exact H2.
  - simpl in *. destruct (utf8_encode_char c) as [bc|]; [|discriminate].
    simpl in *. destruct (utf8_encode s1) as [bs|]; [|discriminate].
    simpl in *. injection H1 as <-.
    rewrite (IH bs eq_refl H2). simpl. rewrite <- app_assoc. reflexivity.
Qed.

Lemma utf8_encode_app_inv s1 s2 bs :
  utf8_encode (s1 ++ s2) = Ok bs ->
  exists b1 b2,
    utf8_encode s1 = Ok b1 /\ utf8_encode s2 = Ok b2 /\ bs = b1 ++ b2.
Proof.
  revert bs. induction s1 as [|c s1 IH]; intros bs Henc.
  - exists [], bs. auto.
  - simpl in Henc. destruct (utf8_encode_char c) as [bc|] eqn:Hc;
      [|discriminate].
    destruct (utf8_encode (s1 ++ s2)) as [rest|] eqn:Hrest; [|discriminate].
    injection Henc as <-.
    destruct (IH rest eq_refl) as (b1 & b2 & H1 & H2 & ->).
    exists (bc ++ b1), b2. simpl. rewrite Hc, H1. simpl.
    rewrite app_assoc. auto.
Qed.

(** When every write succeeds the file holds the encoding of the whole
    text. *)
Lemma write_all_text chunks written bs :
  utf8_encode (concat chunks) = Ok bs ->
  write_all chunks written = (written ++ bs, None).
Proof.
  revert written bs. induction chunks as [|chunk chunks IH];
    intros written bs Henc.
  - injection Henc as <-. simpl. rewrite app_nil_r. reflexivity.
  - simpl in Henc.
    destruct (utf8_encode_app_inv _ _ _ Henc) as (b1 & b2 & H1 & H2 & ->).
    simpl. rewrite H1, (IH _ _ H2), app_assoc. reflexivity.
Qed.

(** A successful save leaves in the target the UTF-8 encoding of the
    text of the table shown in the grid. *)
Lemma save_to_file_content now ed path fs bs :
  utf8_encode (table_text (headers ed) (current_data (table ed))) = Ok bs ->
  writable fs path = true ->
  (files fs !! path <> None -> writable fs (backup_path now path) = true) ->
  (save_to_file now ed path fs).2 = None /\
  files (save_to_file now ed path fs).1 !! path = Some bs.
Proof.
  intros Henc Hw Hbackup. unfold save_to_file, copy2.
  destruct (files fs !! path) as [old|] eqn:Hold.
  - rewrite Hbackup by discriminate. cbn [writable files]. rewrite Hw.
    rewrite (write_all_text _ [] bs Henc). simpl. split; [reflexivity|].
    apply lookup_insert_eq.
  - rewrite Hw. rewrite (write_all_text _ [] bs Henc). simpl.
    split; [reflexivity|]. apply lookup_insert_eq.
Qed.

Lemma utf8_encode_ascii s :
  Forall (fun c => c < 128) s ->
  exists bs, utf8_encode s = Ok bs
             /\ Forall (fun b => Byte.to_N b < 128) bs
             /\ latin1_decode bs = s.
Proof.
  induction 1 as [|c s Hc _ (bs & Henc & Hbs & Hdec)].
  - exists []. repeat split; constructor.
  - assert (Hbyte : Byte.to_N (byte_of_N c) = c).
    { unfold byte_of_N. destruct (Byte.of_N c) as [b|] eqn:Hb.
      - apply Byte.to_of_N, Hb.
      - apply Byte.of_N_None_iff in Hb. lia. }
    exists (byte_of_N c :: bs). simpl. unfold utf8_encode_char.
    apply N.ltb_lt in Hc as Hc'. rewrite Hc'. simpl. rewrite Henc. simpl.
    split; [reflexivity|]. split.
    + constructor; [rewrite Hbyte; exact Hc | exact Hbs].
    + unfold latin1_decode in *. simpl. rewrite Hbyte, Hdec. reflexivity.
Qed.

(** The UTF-8 bytes of an ASCII text are read back as that text by
    cp949, the first candidate. *)
Lemma read_written_ascii lib lossy text :
  cp949_ascii lib ->
  Forall (fun c => c < 128) text ->
  exists bs,
    utf8_encode text = Ok bs /\
    read_lines lib lossy bs
    = Ok (stripped_nonblank (readlines text), Some (py "cp949")).
Proof.
  intros Hcp Hascii.
  destruct (utf8_encode_ascii _ Hascii) as (bs & Henc & Hbs & Hdec).
  exists bs. split; [exact Henc|].
  unfold read_lines.
  change encodings_to_try
    with ([] ++ py "cp949"
             :: [py "euc-kr"; py "utf-8"; py "utf-8-sig"; py "latin1";
                 py "cp1252"]).
  rewrite (try_encodings_first lib [] (py "cp949") _ bs text).
  - reflexivity.
  - intros e He. inversion He.
  - rewrite (Hcp bs Hbs), Hdec. reflexivity.
Qed.

(** ** C6: the backup made by saving *)

Lemma fixed_digits_length w n : length (fixed_digits w n) = w.
Proof.
  revert n. induction w as [|w IH]; intros n; [reflexivity|].
  simpl. rewrite length_app, IH. simpl. lia.
Qed.

Lemma fixed_digits_digits w n :
  Forall (fun c => is_digit c = true) (fixed_digits w n).
Proof.
  revert n. induction w as [|w IH]; intros n; [constructor|].
  simpl. apply Forall_app. split; [apply IH|].
  constructor; [|constructor]. unfold is_digit.
  pose proof (N.mod_upper_bound n 10 ltac:(discriminate)) as Hlt.
  revert Hlt. generalize (n mod 10). intros d Hlt.
  apply andb_true_iff. split; apply N.leb_le; lia.
Qed.

Lemma backup_path_fresh now path : backup_path now path <> path.
Proof.
  intros Heq. apply (f_equal length) in Heq.
  unfold backup_path in Heq. rewrite !length_app in Heq.
  simpl in Heq. lia.
Qed.

Lemma digits_value_snoc ds d :
  digits_value (ds ++ [d]) = 10 * digits_value ds + d.
Proof. unfold digits_value. rewrite fold_left_app. reflexivity. Qed.

(** The digits printed for a field denote the field, up to the width
    printed. *)
Lemma fixed_digits_value w n :
  decimal_value (fixed_digits w n) = n mod 10 ^ N.of_nat w.
Proof.
  unfold decimal_value. revert n. induction w as [|w IH]; intros n.
  - simpl. rewrite N.mod_1_r. reflexivity.
  - cbn [fixed_digits]. rewrite map_app. cbn [map].
    rewrite digits_value_snoc, IH.
    rewrite Nat2N.inj_succ, N.pow_succ_r', N.Div0.mod_mul_r.
    generalize (n mod 10) ((n / 10) mod 10 ^ N.of_nat w). intros a b. lia.
Qed.

(** C6. When the target file exists, the backup path is the target path
    followed by ".backup_" and a stamp of eight digits, an underscore
    and six digits: the year of [now] in four digits, its month and its
    day in two digits each, then its hour, its minute and its second in
    two digits each. When the copy to that path fails, saving stops
    with that failure and the files are exactly as before; when it
    succeeds, the backup holds the prior content, before the target is
    written and after; so the target holds other content only when the
    backup holds the prior one. *)
Theorem C6_backup_before_write (now : datetime) (ed : editor) (path : pystr)
    (fs : filesystem) (old : list byte) :
  files fs !! path = Some old ->
  let bp := backup_path now path in
  let fs' := (save_to_file now ed path fs).1 in
  (exists date time Y M D h m s,
      bp = path ++ py ".backup_" ++ date ++ py "_" ++ time
      /\ length date = 8%nat /\ length time = 6%nat
      /\ Forall (fun c => is_digit c = true) date
      /\ Forall (fun c => is_digit c = true) time
      /\ date = Y ++ M ++ D /\ time = h ++ m ++ s
      /\ length Y = 4%nat /\ length M = 2%nat /\ length D = 2%nat
      /\ length h = 2%nat /\ length m = 2%nat /\ length s = 2%nat
      /\ decimal_value Y = year now mod 10000
      /\ decimal_value M = month now mod 100
      /\ decimal_value D = day now mod 100
      /\ decimal_value h = hour now mod 100
      /\ decimal_value m = minute now mod 100
      /\ decimal_value s = second now mod 100) /\
  (forall e, copy2 path bp fs = Raise e ->
             save_to_file now ed path fs = (fs, Some e)) /\
  (forall fs1, copy2 path bp fs = Ok fs1 ->
               files fs1 !! bp = Some old /\ files fs' !! bp = Some old) /\
  (files fs' !! path <> Some old -> files fs' !! bp = Some old).
Proof.
  intros Hold bp fs'.
  assert (Hfail : forall e, copy2 path bp fs = Raise e ->
                            save_to_file now ed path fs = (fs, Some e)).
  { intros e He. unfold save_to_file. rewrite Hold. fold bp. rewrite He.
    reflexivity. }
  assert (Hok : forall fs1, copy2 path bp fs = Ok fs1 ->
                  files fs1 !! bp = Some old /\ files fs' !! bp = Some old).
  { intros fs1 H1. subst fs'. unfold save_to_file. rewrite Hold. fold bp.
    rewrite H1. unfold copy2 in H1. rewrite Hold in H1.
    destruct (writable fs bp); [|discriminate]. injection H1 as <-.
    split; [apply lookup_insert_eq|].
    cbn [writable files].
    destruct (writable fs path).
    - destruct (write_all
                  (written_lines (headers ed) (current_data (table ed))) [])
        as [content e]. cbn [fst files].
      rewrite lookup_insert_ne by (apply not_eq_sym, backup_path_fresh).
      apply lookup_insert_eq.
    - apply lookup_insert_eq. }
  split; [|split; [exact Hfail|split; [exact Hok|]]].
  - exists (fixed_digits 4 (year now) ++ fixed_digits 2 (month now)
            ++ fixed_digits 2 (day now)),
           (fixed_digits 2 (hour now) ++ fixed_digits 2 (minute now)
            ++ fixed_digits 2 (second now)),
           (fixed_digits 4 (year now)), (fixed_digits 2 (month now)),
           (fixed_digits 2 (day now)), (fixed_digits 2 (hour now)),
           (fixed_digits 2 (minute now)), (fixed_digits 2 (second now)).
    split; [|split; [|split; [|split; [|split]]]].
    + unfold bp, backup_path, strftime_stamp.
      rewrite <- !app_assoc. reflexivity.
    + rewrite !length_app, !fixed_digits_length. reflexivity.
    + rewrite !length_app, !fixed_digits_length. reflexivity.
    + rewrite !Forall_app. repeat split; apply fixed_digits_digits.
    + rewrite !Forall_app. repeat split; apply fixed_digits_digits.
    + rewrite !fixed_digits_length, !fixed_digits_value.
      repeat split; reflexivity.
  - intros Hchanged.
    destruct (copy2 path bp fs) as [fs1|e] eqn:Hcopy.
    + apply (Hok fs1 eq_refl).
    + exfalso. apply Hchanged. subst fs'. rewrite (Hfail e eq_refl).
      exact Hold.
Qed.

Lemma C6_witness :
  backup_path sample_now proto_path = py "mob_proto.txt.backup_20261103_093507"
  /\ (exists Y M D h m s,
        backup_path sample_now proto_path
        = proto_path ++ py ".backup_" ++ (Y ++ M ++ D) ++ py "_"
          ++ (h ++ m ++ s)
        /\ decimal_value Y = 2026 /\ decimal_value M = 11
        /\ decimal_value D = 3 /\ decimal_value h = 9
        /\ decimal_value m = 35 /\ decimal_value s = 7)
  /\ save_to_file sample_now exp_editor proto_path locked_fs
     = (locked_fs, Some OSError)
  /\ files (save_to_file sample_now exp_editor proto_path open_fs).1
       !! backup_path sample_now proto_path
     = Some (bytes "old").
Proof.
  split; [reflexivity|]. split; [|split].
  - destruct (C6_backup_before_write sample_now exp_editor proto_path
                open_fs (bytes "old") eq_refl) as (Hstamp & _).
    destruct Hstamp
      as (date & time & Y & M & D & h & m & s & Hbp & _ & _ & _ & _
          & -> & -> & _ & _ & _ & _ & _ & _ & HY & HM & HD & Hh & Hm & Hs).
    exists Y, M, D, h, m, s. repeat split; assumption.
  - destruct (C6_backup_before_write sample_now exp_editor proto_path
                locked_fs (bytes "old") eq_refl) as (_ & Hfail & _).
    apply Hfail. reflexivity.
  - destruct (C6_backup_before_write sample_now exp_editor proto_path
                open_fs (bytes "old") eq_refl) as (_ & _ & Hok & _).
    apply (Hok (MkFs (<[backup_path sample_now proto_path := bytes "old"]>
                        (files open_fs)) (writable open_fs))).
    reflexivity.
Defined.

(** ** The loader and the writer on files *)

(** What [load_file_fast] leaves in the editor: the header as parsed,
    and the parsed rows after the name resolution of [setup_table]. *)
Lemma load_file_fast_parses lib lossy path content ed lines encoding pt :
  read_lines lib lossy content = Ok (lines, encoding) ->
  parse_lines lines = Some pt ->
  let ed' := (load_file_fast lib lossy path content ed).1 in
  headers ed' = pt_headers pt /\
  data ed'
  = (rows_effect (mob_names ed) (pt_headers pt) 0 (pt_data pt)).1.1 /\
  (pt_headers pt !! 1%nat <> Some NAME -> data ed' = pt_data pt).
Proof.
  intros Hread Hparse. unfold load_file_fast. rewrite Hread, Hparse.
  set (ed1 := match encoding with
              | Some e => set_file_encoding e ed
              | None => ed
              end).
  set (ed2 := set_file_path path
                (set_data (pt_data pt) (set_headers (pt_headers pt) ed1))).
  assert (Hnames : mob_names ed2 = mob_names ed)
    by (subst ed2 ed1; destruct encoding; reflexivity).
  pose proof (setup_table_effect ed2) as Heff.
  pose proof (setup_table_other_header ed2) as Hother.
  destruct (setup_table ed2) as [ed3 e] eqn:Hsetup.
  change (headers ed2) with (pt_headers pt) in *.
  change (data ed2) with (pt_data pt) in *.
  rewrite Hnames in Heff.
  destruct (rows_effect (mob_names ed) (pt_headers pt) 0 (pt_data pt))
    as [[rows' ws] e'].
  injection Heff as -> ->. simpl in Hother.
  destruct e'; simpl; repeat split; try reflexivity; exact Hother.
Qed.


(** Text outside ASCII is written as UTF-8 and read back by the first
    candidate that accepts the bytes. The bytes C3 B6 that UTF-8 writes
    for o-umlaut are also a character of cp949, U+CCA0: if cp949 decodes
    the saved file so, the table loaded holds that character in place
    of the o-umlaut saved. *)
Lemma umlaut_read_as_cp949 lib lossy :
  let hdrs := [py "VNUM"; py "NAME"] in
  let read_name := py "H" ++ [52384] ++ py "llenwolf" in
  exists bs,
    utf8_encode (table_text hdrs [[py "9001"; Hoellenwolf]]) = Ok bs /\
    (lib (py "cp949") bs
     = Ok (table_text hdrs [[py "9001"; read_name]]) ->
     exists lines,
       read_lines lib lossy bs = Ok (lines, Some (py "cp949")) /\
       parse_lines lines = Some (ProtoTable hdrs [[py "9001"; read_name]])).
Proof.
  intros hdrs read_name.
  eexists. split; [vm_compute; reflexivity|].
  intros Hcp. eexists. split.
  - unfold read_lines.
    change encodings_to_try
      with ([] ++ py "cp949"
               :: [py "euc-kr"; py "utf-8"; py "utf-8-sig"; py "latin1";
                   py "cp1252"]).
    rewrite (try_encodings_first lib [] (py "cp949") _ _ _
               ltac:(intros e He; inversion He) Hcp).
    reflexivity.
  - vm_compute. reflexivity.
Qed.

(** Name resolution keeps the width of a row and every field but the
    one at position 1. *)
Lemma row_effect_frame names hdrs row :
  length (row_effect names hdrs row).1.1 = length row /\
  forall j, j <> 1%nat -> (row_effect names hdrs row).1.1 !! j = row !! j.
Proof.
  destruct row as [|vnum [|name rest]]; try (split; reflexivity).
  unfold row_effect. destruct (hdrs !! 1%nat) as [h|]; [|split; reflexivity].
  destruct (pystr_eqb h NAME); [|split; reflexivity].
  split; [reflexivity|]. intros [|[|j]] Hj; [reflexivity|congruence|reflexivity].
Qed.

Lemma rows_effect_frame names hdrs r rows i row :
  rows !! i = Some row ->
  exists row',
    (rows_effect names hdrs r rows).1.1 !! i = Some row' /\
    length row' = length row /\
    forall j, j <> 1%nat -> row' !! j = row !! j.
Proof.
  revert r i. induction rows as [|row0 rows IH]; intros r i Hi;
    [discriminate|].
  simpl. pose proof (row_effect_frame names hdrs row0) as Hframe.
  destruct (row_effect names hdrs row0) as [[row0' vals] [e|]];
    simpl in Hframe.
  - destruct i as [|i]; simpl in *.
    + injection Hi as <-. exists row0'. split; [reflexivity|exact Hframe].
    + exists row. split; [exact Hi|]. split; reflexivity.
  - specialize (IH (S r)).
    destruct (rows_effect names hdrs (S r) rows) as [[rows'' ws] e'].
    destruct i as [|i]; simpl in *.
    + injection Hi as <-. exists row0'. split; [reflexivity|exact Hframe].
    + apply IH, Hi.
Qed.

(** The rows the loader builds, as [load_file_fast] leaves them in the
    editor: each keeps its width and its fields, but for the name at
    position 1. *)
Lemma load_file_fast_rows lib lossy path content ed lines encoding pt i row :
  read_lines lib lossy content = Ok (lines, encoding) ->
  parse_lines lines = Some pt ->
  pt_data pt !! i = Some row ->
  exists row',
    data (load_file_fast lib lossy path content ed).1 !! i = Some row' /\
    length row' = length row /\
    forall j, j <> 1%nat -> row' !! j = row !! j.
Proof.
  intros Hread Hparse Hrow.
  destruct (load_file_fast_parses lib lossy path content ed lines encoding pt
              Hread Hparse) as (_ & -> & _).
  apply rows_effect_frame, Hrow.
Qed.

(** ** C5: save, then load *)

(** C5, as the code has it. What [save_to_file] writes is the header
    and the rows shown in the grid, each collected over the width of
    the header. Take an editor whose grid shows a table in which no
    field holds a tab or a line end, whose header line is not blank and
    is left alone by [strip], and whose every row is a list of fields
    with these properties padded with empty fields to the width of the
    header. The text written for it is read back as the same header
    and the same rows. When that text is ASCII and the paths can be
    written, [save_to_file] ends without an exception and leaves the
    UTF-8 bytes of that text in the file; the first candidate of the
    resolver decodes them to the written text, the lines read parse to
    the header and the rows shown, and [load_file_fast] on the file
    leaves that header and those rows but for the name at position 1,
    which it resolves again when the second header is "NAME". *)
Theorem C5_save_load_roundtrip (now : datetime) (ed : editor) (path : pystr)
    (fs : filesystem) :
  let hdrs := headers ed in
  let rows := current_data (table ed) in
  roundtrip_ready hdrs rows ->
  load_text (table_text hdrs rows) = Some (ProtoTable hdrs rows) /\
  forall (lib : codec_library) (lossy : list byte -> pystr),
    cp949_ascii lib ->
    Forall (fun c => c < 128) (table_text hdrs rows) ->
    writable fs path = true ->
    (files fs !! path <> None -> writable fs (backup_path now path) = true) ->
    exists bs lines,
      utf8_encode (table_text hdrs rows) = Ok bs /\
      (save_to_file now ed path fs).2 = None /\
      files (save_to_file now ed path fs).1 !! path = Some bs /\
      read_lines lib lossy bs = Ok (lines, Some (py "cp949")) /\
      parse_lines lines = Some (ProtoTable hdrs rows) /\
      forall ed0 : editor,
        let loaded := (load_file_fast lib lossy path bs ed0).1 in
        headers loaded = hdrs /\
        (hdrs !! 1%nat <> Some (py "NAME") -> data loaded = rows) /\
        forall i row,
          rows !! i = Some row ->
          exists row',
            data loaded !! i = Some row' /\ length row' = length row /\
            forall j, j <> 1%nat -> row' !! j = row !! j.
Proof.
  intros hdrs rows [Hh Hrows].
  assert (Htext : load_text (table_text hdrs rows)
                  = Some (ProtoTable hdrs rows)).
  { unfold load_text, table_text, written_lines.
    set (n := length hdrs) in *.
    assert (Hlines :
      (join [TAB] hdrs ++ [LF])
      :: map (fun row_data => join [TAB] row_data ++ [LF]) rows
      = map written
          ((join [TAB] hdrs, O)
           :: map (fun row => (join [TAB] (trim_empty row),
                               (n - length (trim_empty row))%nat)) rows)).
    { cbn [map]. f_equal.
      rewrite map_map. apply map_ext_Forall.
      eapply Forall_impl; [exact Hrows|]. intros row Hrow.
      apply roundtrip_row_written, Hrow. }
    rewrite Hlines, read_written_lines.
    - simpl. rewrite (clean_fields_split _ Hh). fold n. do 2 f_equal.
      rewrite !map_map. rewrite <- (map_id rows) at 2.
      apply map_ext_Forall. eapply Forall_impl; [exact Hrows|].
      intros row [Hclean Hpad]. simpl.
      rewrite (clean_fields_split _ Hclean). symmetry. exact Hpad.
    - constructor; [apply clean_fields_line, Hh|].
      apply Forall_map. eapply Forall_impl; [exact Hrows|].
      intros row [Hclean _]. apply clean_fields_line, Hclean. }
  split; [exact Htext|].
  intros lib lossy Hcp Hascii Hw Hbackup.
  destruct (read_written_ascii lib lossy _ Hcp Hascii) as (bs & Henc & Hread).
  destruct (save_to_file_content now ed path fs bs Henc Hw Hbackup)
    as [Hdone Hfile].
  exists bs, (stripped_nonblank (readlines (table_text hdrs rows))).
  split; [exact Henc|]. split; [exact Hdone|]. split; [exact Hfile|].
  split; [exact Hread|]. split; [exact Htext|].
  intros ed0 loaded. subst loaded.
  destruct (load_file_fast_parses lib lossy path bs ed0 _ _ _ Hread Htext)
    as (Hheaders & _ & Hother).
  split; [exact Hheaders|]. split; [exact Hother|].
  intros i row Hrow.
  apply (load_file_fast_rows lib lossy path bs ed0 _ _ _ i row Hread Htext).
  exact Hrow.
Qed.

Lemma C5_witness :
  let ed := (setup_table
               (MkEditor None
                  [[py "101"; py "Wolf"; py "100"]; [py "102"; []; []]]
                  [py "VNUM"; py "NAME"; py "EXP"] ∅ None empty_grid)).1 in
  let rows := [[py "101"; py "Wolf"; py "100"]; [py "102"; py "Mob 102"; []]] in
  current_data (table ed) = rows
  /\ load_text (table_text (headers ed) rows)
     = Some (ProtoTable (headers ed) rows)
  /\ exists bs lines,
       utf8_encode (table_text (headers ed) rows) = Ok bs
       /\ (save_to_file sample_now ed proto_path open_fs).2 = None
       /\ files (save_to_file sample_now ed proto_path open_fs).1
            !! proto_path = Some bs
       /\ read_lines ascii_cp949 lossy_ascii bs
          = Ok (lines, Some (py "cp949"))
       /\ parse_lines lines = Some (ProtoTable (headers ed) rows)
       /\ data (load_file_fast ascii_cp949 lossy_ascii proto_path bs
                  sample_editor).1 !! 0%nat
          = Some [py "101"; py "Wolf"; py "100"].
Proof.
  intros ed rows. split; [reflexivity|].
  destruct (C5_save_load_roundtrip sample_now ed proto_path open_fs)
    as [Htext Hfile].
  - apply (bool_decide_unpack _). vm_compute. exact I.
  - split; [exact Htext|].
    destruct (Hfile ascii_cp949 lossy_ascii)
      as (bs & lines & Henc & Hdone & Hsaved & Hread & Hparse & Hload).
    + intros content Hascii. unfold ascii_cp949.
      replace (forallb (fun b => Byte.to_N b <? 128) content) with true.
      * reflexivity.
      * symmetry. apply forallb_forall. intros b Hb.
        rewrite Forall_forall in Hascii. apply N.ltb_lt, Hascii.
        apply list_elem_of_In, Hb.
    + apply (bool_decide_unpack _). vm_compute. exact I.
    + reflexivity.
    + intros _. reflexivity.
    + exists bs, lines. repeat split; try assumption.
      destruct (Hload sample_editor) as (_ & _ & Hrows).
      destruct (Hrows 0%nat [py "101"; py "Wolf"; py "100"] eq_refl)
        as (row' & Hrow' & Hlen & Hsame).
      rewrite Hrow'. f_equal.
      destruct row' as [|f0 [|f1 [|f2 [|f3 row']]]]; try discriminate Hlen.
      pose proof (Hsame 0%nat ltac:(lia)) as H0.
      pose proof (Hsame 2%nat ltac:(lia)) as H2.
      simpl in H0, H2. injection H0 as ->. injection H2 as ->.
      assert (Hname : data (load_file_fast ascii_cp949 lossy_ascii proto_path
                              bs sample_editor).1 !! 0%nat
                      = Some [py "101"; py "Wolf"; py "100"]).
      { assert (Hbs : Ok bs = utf8_encode
                                (table_text (headers ed) rows))
          by (symmetry; exact Henc).
        vm_compute in Hbs. injection Hbs as ->. vm_compute. reflexivity. }
      rewrite Hrow' in Hname. injection Hname as ->. reflexivity.
Defined.

(** The claim as the specification words it fails in three ways. A
    grid whose last field ends with a blank, or which has a row of
    empty cells, is saved but does not come back: loading strips the
    line of the first and drops the line of the second. And the rows
    kept in memory are not what is saved: a row that the loader read
    with more fields than the header keeps them in memory, the grid
    and the file written from it have only the fields under the
    header, and loading that file gives the shorter row. *)
Lemma C5_counterexample :
  (let ed := (setup_table
                (MkEditor None [[py "101"; py "5 "]; [[]; []]]
                   [py "VNUM"; py "LEVEL"] ∅ None empty_grid)).1 in
   current_data (table ed) = [[py "101"; py "5 "]; [[]; []]]
   /\ exists bs,
        save_to_file sample_now ed proto_path open_fs
        = (MkFs (<[proto_path := bs]>
                   (<[backup_path sample_now proto_path := bytes "old"]>
                      (files open_fs))) (writable open_fs), None)
        /\ data (load_file_fast ascii_cp949 lossy_ascii proto_path bs ed).1
           = [[py "101"; py "5"]])
  /\ (let content := bytes "A" ++ [x09] ++ bytes "B" ++ [x0a]
                     ++ bytes "1" ++ [x09] ++ bytes "2" ++ [x09]
                     ++ bytes "3" ++ [x0a] in
      let ed := (load_file_fast ascii_cp949 lossy_ascii proto_path content
                   sample_editor).1 in
      data ed = [[py "1"; py "2"; py "3"]]
      /\ roundtrip_ready (headers ed) (data ed)
      /\ exists bs,
           save_to_file sample_now ed proto_path open_fs
           = (MkFs (<[proto_path := bs]>
                      (<[backup_path sample_now proto_path := bytes "old"]>
                         (files open_fs))) (writable open_fs), None)
           /\ data (load_file_fast ascii_cp949 lossy_ascii proto_path bs
                      ed).1
              = [[py "1"; py "2"]]).
Proof.
  split.
  - split; [reflexivity|]. eexists. split; vm_compute; reflexivity.
  - split; [reflexivity|]. split.
    + apply (bool_decide_unpack _). vm_compute. exact I.
    + eexists. split; vm_compute; reflexivity.
Qed.

(** ** Tables made by the loader *)

Lemma lstrip_split s :
  exists ws, s = ws ++ lstrip s /\ Forall (fun c => is_space c = true) ws.
Proof.
  induction s as [|c s (ws & Hs & Hws)].
  - exists []. split; [reflexivity|constructor].
  - simpl. destruct (is_space c) eqn:Hc.
    + exists (c :: ws). split; [simpl; congruence|]. constructor; assumption.
    + exists []. split; [reflexivity|constructor].
Qed.

Lemma lstrip_head c s : lstrip s = c :: tail (lstrip s) -> is_space c = false.
Proof.
  induction s as [|d s IH]; simpl; [discriminate|].
  destruct (is_space d) eqn:Hd; [exact IH|].
  simpl. intros [= <-]. exact Hd.
Qed.

Lemma lstrip_id c s : is_space c = false -> lstrip (c :: s) = c :: s.
Proof. intros Hc. simpl. rewrite Hc. reflexivity. Qed.

Lemma rstrip_split s :
  exists ws, s = rstrip s ++ ws /\ Forall (fun c => is_space c = true) ws.
Proof.
  destruct (lstrip_split (rev s)) as (ws & Hs & Hws).
  exists (rev ws). split; [|apply Forall_rev, Hws].
  unfold rstrip. rewrite <- rev_app_distr, <- Hs, rev_involutive. reflexivity.
Qed.

(** [strip] leaves its own results alone. *)
Lemma strip_idempotent s : strip (strip s) = strip s.
Proof.
  unfold strip.
  destruct (lstrip s) as [|c t] eqn:Ht; [reflexivity|].
  assert (Hc : is_space c = false).
  { apply (lstrip_head c s). rewrite Ht. reflexivity. }
  destruct (rstrip_split (c :: t)) as (ws & Hsplit & Hws).
  destruct (rstrip (c :: t)) as [|d u] eqn:Hu; [reflexivity|].
  injection Hsplit as <- _.
  rewrite (lstrip_id c u Hc).
  unfold rstrip in *.
  assert (Hrev : lstrip (rev (c :: u)) = rev (c :: u)).
  { rewrite <- Hu, rev_involutive.
    destruct (lstrip (rev (c :: t))) as [|e v] eqn:Hv; [reflexivity|].
    apply lstrip_id, (lstrip_head e (rev (c :: t))). rewrite Hv. reflexivity. }
  rewrite Hrev, rev_involutive. reflexivity.
Qed.

Lemma lstrip_elem c s : c ∈ lstrip s -> c ∈ s.
Proof.
  destruct (lstrip_split s) as (ws & Hs & _). intros Hin.
  rewrite Hs. apply elem_of_app. now right.
Qed.

Lemma strip_elem c s : c ∈ strip s -> c ∈ s.
Proof.
  unfold strip, rstrip. intros Hin.
  apply list_elem_of_In, in_rev, list_elem_of_In, lstrip_elem in Hin.
  apply list_elem_of_In, in_rev, list_elem_of_In, lstrip_elem in Hin.
  exact Hin.
Qed.

(** Blanks at the end of a line do not change its stripped form. *)
Lemma strip_app_spaces s ws :
  Forall (fun c => is_space c = true) ws -> strip (s ++ ws) = strip s.
Proof.
  intros Hws. unfold strip.
  destruct (lstrip_split s) as (ws1 & Hs & Hws1).
  destruct (lstrip s) as [|c t] eqn:Ht.
  - rewrite app_nil_r in Hs. subst ws1.
    assert (Hall : lstrip (s ++ ws) = []).
    { rewrite <- (app_nil_r (s ++ ws)), lstrip_spaces; [reflexivity|].
      apply Forall_app. split; assumption. }
    rewrite Hall. reflexivity.
  - assert (Hc : is_space c = false).
    { apply (lstrip_head c s). rewrite Ht. reflexivity. }
    assert (Hl : lstrip (s ++ ws) = (c :: t) ++ ws).
    { rewrite Hs at 1. rewrite <- app_assoc, lstrip_spaces by exact Hws1.
      apply (lstrip_id c (t ++ ws) Hc). }
    rewrite Hl. unfold rstrip. rewrite rev_app_distr, lstrip_spaces.
    + reflexivity.
    + apply Forall_rev, Hws.
Qed.

Lemma universal_newlines_no_CR s : CR ∉ universal_newlines s.
Proof.
  assert (H : forall n s, (length s <= n)%nat -> CR ∉ universal_newlines s).
  { clear s. induction n as [|n IH]; intros s Hlen.
    - destruct s; [|simpl in Hlen; lia]. intros Hin. inversion Hin.
    - destruct s as [|c s]; [intros Hin; inversion Hin|].
      simpl in Hlen. simpl. destruct (c =? CR) eqn:Hc.
      + destruct s as [|d s].
        * intros Hin. apply list_elem_of_singleton in Hin. discriminate.
        * simpl in Hlen. destruct (d =? LF); intros Hin;
            apply elem_of_cons in Hin as [Hin|Hin]; try discriminate;
            revert Hin; apply IH; simpl; lia.
      + intros Hin. apply elem_of_cons in Hin as [Hin|Hin].
        * apply N.eqb_neq in Hc. congruence.
        * revert Hin. apply IH. lia. }
  apply (H (length s)). lia.
Qed.

(** A line cut by [keep_lines] holds a line end at its end only, and
    only characters of the text. *)
Lemma keep_lines_shape s :
  Forall (fun l => exists body,
              (l = body ++ [LF] \/ l = body) /\ (LF ∉ body)
              /\ forall c, c ∈ body -> c ∈ s)
         (keep_lines s).
Proof.
  induction s as [|c s IH]; [constructor|].
  simpl. destruct (c =? LF) eqn:Hc.
  - apply N.eqb_eq in Hc. subst c. constructor.
    + exists []. split; [left; reflexivity|]. split.
      * intros Hin. inversion Hin.
      * intros d Hd. inversion Hd.
    + eapply Forall_impl; [exact IH|].
      intros l (body & Hl & Hlf & Hsub). exists body.
      repeat split; try assumption. intros d Hd. right. now apply Hsub.
  - apply N.eqb_neq in Hc.
    destruct (keep_lines s) as [|l ls].
    + constructor; [|constructor]. exists [c]. split; [now right|]. split.
      * intros Hin. apply list_elem_of_singleton in Hin. congruence.
      * intros d Hd. apply list_elem_of_singleton in Hd. subst. left.
    + apply Forall_cons in IH as [(body & Hl & Hlf & Hsub) IH].
      constructor.
      * exists (c :: body). split.
        -- destruct Hl as [-> | ->]; [left|right]; reflexivity.
        -- split.
           ++ intros Hin. apply elem_of_cons in Hin as [Hin|Hin];
                [congruence|contradiction].
           ++ intros d Hd. apply elem_of_cons in Hd as [-> |Hd];
                [left | right; now apply Hsub].
      * eapply Forall_impl; [exact IH|].
        intros l' (body' & Hl' & Hlf' & Hsub'). exists body'.
        repeat split; try assumption. intros d Hd. right. now apply Hsub'.
Qed.

(** The lines the loader works on. *)
Lemma loaded_lines_ok text :
  Forall line_ok (stripped_nonblank (readlines text)).
Proof.
  unfold readlines.
  pose proof (universal_newlines_no_CR text) as Hcr.
  pose proof (keep_lines_shape (universal_newlines text)) as Hshape.
  induction Hshape as [|l ls (body & Hl & Hlf & Hsub) _ IH]; [constructor|].
  simpl. destruct (strip l) as [|c t] eqn:Hstrip; [exact IH|].
  constructor; [|exact IH].
  assert (Hbody : strip l = strip body).
  { destruct Hl as [-> | ->]; [|reflexivity].
    apply strip_app_spaces. repeat constructor. }
  rewrite <- Hstrip. repeat split.
  - rewrite Hstrip. discriminate.
  - apply strip_idempotent.
  - rewrite Hbody. intros Hin. apply Hlf, (strip_elem _ _ Hin).
  - rewrite Hbody. intros Hin. apply Hcr, Hsub, (strip_elem _ _ Hin).
Qed.

Lemma join_split l : join [TAB] (split TAB l) = l.
Proof.
  induction l as [|c l IH]; [reflexivity|].
  simpl. destruct (c =? TAB) eqn:Hc.
  - apply N.eqb_eq in Hc. subst c.
    pose proof (split_nonempty TAB l) as Hne.
    destruct (split TAB l) as [|f fs]; [congruence|].
    change (join [TAB] ([] :: f :: fs)) with (TAB :: join [TAB] (f :: fs)).
    rewrite IH. reflexivity.
  - destruct (split TAB l) as [|f fs]; [simpl in IH; subst l; reflexivity|].
    destruct fs as [|g fs].
    + simpl in *. congruence.
    + change (join [TAB] ((c :: f) :: g :: fs))
        with (c :: (f ++ TAB :: join [TAB] (g :: fs))).
      change (join [TAB] (f :: g :: fs))
        with (f ++ TAB :: join [TAB] (g :: fs)) in IH.
      rewrite IH. reflexivity.
Qed.

Lemma split_fields l :
  Forall (fun f => (TAB ∉ f) /\ forall c, c ∈ f -> c ∈ l) (split TAB l).
Proof.
  induction l as [|c l IH].
  - constructor; [|constructor].
    split; [intros H; inversion H | intros d H; exact H].
  - simpl. destruct (c =? TAB) eqn:Hc.
    + constructor.
      * split; [intros H; inversion H | intros d H; inversion H].
      * eapply Forall_impl; [exact IH|]. intros f [Ht Hsub].
        split; [exact Ht|]. intros d Hd. right. now apply Hsub.
    + apply N.eqb_neq in Hc.
      destruct (split TAB l) as [|f fs].
      * constructor; [|constructor]. split.
        -- intros H. apply list_elem_of_singleton in H. congruence.
        -- intros d Hd. apply list_elem_of_singleton in Hd. subst. left.
      * apply Forall_cons in IH as [[Ht Hsub] IH]. constructor.
        -- split.
           ++ intros H. apply elem_of_cons in H as [H|H];
                [congruence|contradiction].
           ++ intros d Hd. apply elem_of_cons in Hd as [-> |Hd];
                [left | right; now apply Hsub].
        -- eapply Forall_impl; [exact IH|]. intros g [Hg Hsubg].
           split; [exact Hg|]. intros d Hd. right. now apply Hsubg.
Qed.

(** A line that does not end with a tab ends with a non-empty field. *)
Lemma split_last_field l c :
  last l = Some c -> c <> TAB ->
  exists fs f, split TAB l = fs ++ [f] /\ f <> [].
Proof.
  intros Hlast Hc. induction l as [|d l IH]; [discriminate|].
  destruct l as [|d' l].
  - injection Hlast as ->. simpl.
    destruct (c =? TAB) eqn:Heq; [apply N.eqb_eq in Heq; congruence|].
    exists [], [c]. split; [reflexivity|discriminate].
  - destruct (IH Hlast) as (fs & f & Hsplit & Hf).
    change (split TAB (d :: d' :: l))
      with (if d =? TAB then [] :: split TAB (d' :: l)
            else match split TAB (d' :: l) with
                 | g :: gs => (d :: g) :: gs
                 | [] => [[d]]
                 end).
    rewrite Hsplit. destruct (d =? TAB).
    + exists ([] :: fs), f. split; [reflexivity|exact Hf].
    + destruct fs as [|g fs]; simpl.
      * exists [], (d :: f). split; [reflexivity|discriminate].
      * exists ((d :: g) :: fs), f. split; [reflexivity|exact Hf].
Qed.

Lemma strip_length s : (length (strip s) <= length s)%nat.
Proof.
  unfold strip. etransitivity; [apply rstrip_length | apply lstrip_length].
Qed.

(** A line that [strip] leaves alone ends with a character that is not a
    blank. *)
Lemma line_ok_last l :
  l <> [] -> strip l = l -> exists c, last l = Some c /\ is_space c = false.
Proof.
  intros Hne Hstrip.
  destruct (exists_last Hne) as (l' & c & ->).
  exists c. split; [apply last_snoc|].
  destruct (is_space c) eqn:Hc; [|reflexivity]. exfalso.
  rewrite strip_app_spaces in Hstrip by (repeat constructor; exact Hc).
  pose proof (strip_length l') as Hlen. rewrite Hstrip in Hlen.
  rewrite length_app in Hlen. simpl in Hlen. lia.
Qed.

Lemma drop_empty_replicate k fields :
  drop_empty (replicate k [] ++ fields) = drop_empty fields.
Proof. induction k as [|k IH]; [reflexivity|exact IH]. Qed.

Lemma trim_empty_padded fs f k :
  f <> [] -> trim_empty ((fs ++ [f]) ++ replicate k []) = fs ++ [f].
Proof.
  intros Hf. unfold trim_empty.
  rewrite rev_app_distr.
  assert (Hrev : rev (replicate k ([] : pystr)) = replicate k []).
  { clear. induction k as [|k IH]; [reflexivity|].
    simpl. rewrite IH. clear IH.
    induction k as [|k IH]; [reflexivity|]. simpl. rewrite IH. reflexivity. }
  rewrite Hrev, drop_empty_replicate, rev_app_distr. simpl.
  destruct f; [congruence|]. simpl.
  rewrite rev_involutive. reflexivity.
Qed.

(** The fields of a line the loader works on. *)
Lemma line_fields_clean l :
  line_ok l ->
  clean_fields (split TAB l) /\
  forall n, trim_empty (pad_row n (split TAB l)) = split TAB l.
Proof.
  intros (Hne & Hstrip & Hlf & Hcr). split.
  - repeat split.
    + apply split_nonempty.
    + eapply Forall_impl; [apply split_fields|]. intros f [Ht Hsub].
      apply Forall_forall. intros c Hc. repeat split.
      * intros ->. contradiction.
      * intros ->. apply Hlf, Hsub, Hc.
      * intros ->. apply Hcr, Hsub, Hc.
    + rewrite join_split. exact Hne.
    + rewrite join_split. exact Hstrip.
  - intros n. destruct (line_ok_last l Hne Hstrip) as (c & Hlast & Hc).
    destruct (split_last_field l c Hlast) as (fs & f & Hsplit & Hf).
    { intros ->. discriminate Hc. }
    rewrite pad_row_spec, Hsplit. apply trim_empty_padded, Hf.
Qed.

(** Every table made by the loader satisfies [roundtrip_ready]. *)
Lemma loaded_table_ready text pt :
  load_text text = Some pt -> roundtrip_ready (pt_headers pt) (pt_data pt).
Proof.
  unfold load_text. intros Hload.
  pose proof (loaded_lines_ok text) as Hok.
  destruct (stripped_nonblank (readlines text)) as [|first rest];
    [discriminate|].
  injection Hload as <-. simpl.
  apply Forall_cons in Hok as [Hfirst Hrest].
  split; [apply line_fields_clean, Hfirst|].
  apply Forall_map. eapply Forall_impl; [exact Hrest|].
  intros l Hl. destruct (line_fields_clean l Hl) as [Hclean Htrim].
  unfold roundtrip_row. rewrite Htrim. split; [exact Hclean|reflexivity].
Qed.

(** ** What the grid shows after [setup_table] *)

(** A run of the loops that ends without an exception writes each row
    as it leaves it. *)
Lemma row_effect_done names hdrs row row' vals :
  row_effect names hdrs row = (row', vals, None) -> vals = row'.
Proof.
  unfold row_effect. destruct row as [|vnum [|name rest]]; try congruence.
  destruct (hdrs !! 1%nat) as [h|]; [|discriminate].
  destruct (pystr_eqb h NAME); congruence.
Qed.

Lemma rows_effect_done names hdrs r rows rows' ws :
  rows_effect names hdrs r rows = (rows', ws, None) ->
  length rows' = length rows /\
  forall r' c',
    final_write ws (r', c')
    = if bool_decide (r <= r')%nat
      then row ← rows' !! (r' - r)%nat; row !! c'
      else None.
Proof.
  revert r rows' ws. induction rows as [|row_data rows IH];
    intros r rows' ws Heff.
  - injection Heff as <- <-. split; [reflexivity|]. intros r' c'. simpl.
    case_bool_decide; reflexivity.
  - simpl in Heff.
    destruct (row_effect names hdrs row_data) as [[row' vals] [e|]] eqn:Hrow;
      [discriminate|].
    apply row_effect_done in Hrow as ->.
    destruct (rows_effect names hdrs (S r) rows) as [[rows'' ws'] e] eqn:Hrest.
    injection Heff as <- <- ->.
    destruct (IH _ _ _ Hrest) as [Hlen Hfin].
    split; [simpl; congruence|].
    intros r' c'. rewrite final_write_app, Hfin, final_write_row.
    destruct (decide (r' = r)) as [->|Hne].
    + rewrite (bool_decide_eq_false_2 (S r <= r)%nat) by lia.
      rewrite bool_decide_eq_true_2 by (split; [reflexivity|lia]).
      rewrite bool_decide_eq_true_2 by lia.
      rewrite Nat.sub_diag, Nat.sub_0_r. reflexivity.
    + rewrite (bool_decide_eq_false_2 (r' = r /\ (0 <= c')%nat)) by tauto.
      destruct (decide (S r <= r')%nat) as [Hle|Hgt].
      * rewrite !bool_decide_eq_true_2 by lia.
        replace (r' - r)%nat with (S (r' - S r)) by lia. simpl.
        destruct (rows'' !! (r' - S r)%nat) as [row|]; simpl; [|reflexivity].
        destruct (row !! c'); reflexivity.
      * rewrite !bool_decide_eq_false_2 by lia. reflexivity.
Qed.

(** After a run without an exception, a cell of the grid inside the
    width of its row shows the stored field. *)
Lemma setup_table_cells ed ed' :
  setup_table ed = (ed', None) ->
  headers ed' = headers ed /\
  rowCount (table ed') = length (data ed') /\
  columnCount (table ed') = length (headers ed) /\
  forall r c row v,
    data ed' !! r = Some row -> row !! c = Some v ->
    (c < length (headers ed))%nat ->
    item (table ed') r c = Some v.
Proof.
  rewrite setup_table_effect.
  destruct (rows_effect (mob_names ed) (headers ed) 0 (data ed))
    as [[rows' ws] e] eqn:Heff.
  intros [= <- ->].
  destruct (rows_effect_done _ _ _ _ _ _ Heff) as [Hlen Hfin].
  set (t0 := setColumnCount (length (headers ed))
               (setRowCount (length (data ed)) (table ed))).
  cbn [headers data table set_table set_data].
  destruct (apply_writes_counts ws t0) as [Hrc Hcc].
  split; [reflexivity|]. split; [rewrite Hrc, Hlen; reflexivity|].
  split; [rewrite Hcc; reflexivity|].
  intros r c row v Hrow Hv Hc.
  assert (Hgrid : in_grid t0 r c = true).
  { unfold in_grid. simpl. apply andb_true_iff. split; apply Nat.ltb_lt.
    - apply lookup_lt_Some in Hrow. lia.
    - exact Hc. }
  unfold item. rewrite in_grid_apply_writes, Hgrid, items_apply_writes.
  cbn [fst snd]. rewrite Hgrid, Hfin.
  rewrite bool_decide_eq_true_2 by lia.
  rewrite Nat.sub_0_r, Hrow. simpl. rewrite Hv. reflexivity.
Qed.

(** The rows a grid shows, when each cell inside the width [n] shows
    the field of a stored row at least that wide. *)
Lemma current_data_rows t n rows :
  rowCount t = length rows -> columnCount t = n ->
  Forall (fun row => (n <= length row)%nat) rows ->
  (forall r c row v, rows !! r = Some row -> row !! c = Some v ->
                     (c < n)%nat -> item t r c = Some v) ->
  current_data t = map (take n) rows.
Proof.
  intros Hrc Hcc Hwide Hcells. unfold current_data. rewrite Hrc, Hcc.
  apply list_eq. intros r.
  rewrite !list_lookup_fmap.
  destruct (rows !! r) as [row|] eqn:Hrow.
  - rewrite lookup_seq_lt by (apply lookup_lt_Some in Hrow; exact Hrow).
    simpl. f_equal. apply list_eq. intros c.
    rewrite list_lookup_fmap.
    destruct (decide (c < n)%nat) as [Hc|Hc].
    + rewrite lookup_seq_lt by exact Hc. simpl.
      rewrite lookup_take_lt by exact Hc.
      assert (Hlen : (n <= length row)%nat).
      { rewrite Forall_forall in Hwide. apply Hwide.
        eapply list_elem_of_lookup_2, Hrow. }
      destruct (lookup_lt_is_Some_2 row c ltac:(lia)) as [v Hv].
      rewrite Hv. unfold cell_text.
      rewrite (Hcells r c row v Hrow Hv Hc). reflexivity.
    + rewrite lookup_seq_ge by lia. rewrite lookup_take_ge by lia.
      reflexivity.
  - rewrite lookup_seq_ge by (apply lookup_ge_None in Hrow; lia).
    reflexivity.
Qed.

(** Name resolution keeps rows at least as wide as they were. *)
Lemma rows_effect_widths names hdrs r rows n :
  Forall (fun row => (n <= length row)%nat) rows ->
  Forall (fun row => (n <= length row)%nat) (rows_effect names hdrs r rows).1.1.
Proof.
  intros Hwide. apply Forall_lookup_2. intros i row' Hrow'.
  assert (Hi : (i < length rows)%nat).
  { apply lookup_lt_Some in Hrow'. rewrite rows_effect_length in Hrow'.
    exact Hrow'. }
  destruct (lookup_lt_is_Some_2 rows i Hi) as [row Hrow].
  destruct (rows_effect_frame names hdrs r rows i row Hrow)
    as (row'' & Hrow'' & Hlen & _).
  rewrite Hrow' in Hrow''. injection Hrow'' as <-.
  rewrite Hlen. exact (Forall_lookup_1 _ _ _ _ Hwide Hrow).
Qed.

Lemma setup_table_widths ed n :
  Forall (fun row => (n <= length row)%nat) (data ed) ->
  Forall (fun row => (n <= length row)%nat) (data (setup_table ed).1).
Proof.
  intros Hwide. rewrite setup_table_effect.
  pose proof (rows_effect_widths (mob_names ed) (headers ed) 0 (data ed) n
                Hwide) as Hw.
  destruct (rows_effect (mob_names ed) (headers ed) 0 (data ed))
    as [[rows' ws] e].
  exact Hw.
Qed.

(** The grid after a run of [setup_table] without an exception, as the
    rows [save_to_file] would collect from it. *)
Lemma setup_table_current_data ed :
  (setup_table ed).2 = None ->
  Forall (fun row => (length (headers ed) <= length row)%nat) (data ed) ->
  current_data (table (setup_table ed).1)
  = map (take (length (headers ed))) (data (setup_table ed).1).
Proof.
  intros Hdone Hwide.
  pose proof (setup_table_widths ed _ Hwide) as Hwide'.
  destruct (setup_table ed) as [ed' e] eqn:Hsetup. simpl in Hdone. subst e.
  destruct (setup_table_cells ed ed' Hsetup) as (_ & Hrc & Hcc & Hcells).
  simpl in *. apply current_data_rows; try assumption.
Qed.

(** X1. When [setup_table] ends without an exception on rows that are
    at least as wide as the header, the grid has one row per stored row
    and one column per header, and shows each stored row cut to the
    width of the header: the fields of a longer row beyond that width
    are kept in the stored row and are not shown. *)
Theorem setup_table_shows_stored_rows (ed : editor) :
  let ed' := (setup_table ed).1 in
  (setup_table ed).2 = None ->
  Forall (fun row => (length (headers ed) <= length row)%nat) (data ed) ->
  rowCount (table ed') = length (data ed') /\
  columnCount (table ed') = length (headers ed') /\
  current_data (table ed') = map (take (length (headers ed'))) (data ed').
Proof.
  intros ed' Hdone Hwide.
  pose proof (setup_table_current_data ed Hdone Hwide) as Hshown.
  subst ed'. destruct (setup_table ed) as [ed' e] eqn:Hsetup.
  simpl in Hdone. subst e.
  destruct (setup_table_cells ed ed' Hsetup) as (Hh & Hrc & Hcc & _).
  simpl in *. rewrite Hh. auto.
Qed.

Lemma setup_table_shows_stored_rows_witness :
  let ed := MkEditor None [[py "9001"; py "????"; py "7"; py "extra"]]
              [py "VNUM"; py "NAME"; py "LEVEL"]
              {[ py "9001" := Hoellenwolf ]} None empty_grid in
  data (setup_table ed).1 = [[py "9001"; Hoellenwolf; py "7"; py "extra"]] /\
  current_data (table (setup_table ed).1)
  = [[py "9001"; Hoellenwolf; py "7"]].
Proof.
  intros ed. split; [reflexivity|].
  destruct (setup_table_shows_stored_rows ed) as (_ & _ & ->).
  - reflexivity.
  - repeat constructor.
  - reflexivity.
Defined.

(** ** What a load leaves in the editor *)

(** The loader makes every row at least as wide as the header. *)
Lemma parse_lines_widths lines pt :
  parse_lines lines = Some pt ->
  Forall (fun row => (length (pt_headers pt) <= length row)%nat) (pt_data pt).
Proof.
  destruct lines as [|first rest]; [discriminate|].
  intros [= <-]. simpl. apply Forall_forall. intros row Hin.
  apply list_elem_of_fmap in Hin as (line & -> & _).
  rewrite pad_row_spec, length_app, length_replicate. lia.
Qed.

(** X2. After a load that ends with the table shown, the header, the
    stored rows and the grid are made from the file alone, with the
    names resolved: every stored row is at least as wide as the header,
    the grid has one row per stored row and one column per header, and
    it shows each stored row cut to the width of the header. Nothing of
    the table loaded before is left. *)
Theorem load_file_fast_replaces_table (lib : codec_library)
    (lossy : list byte -> pystr) (path : pystr) (content : list byte)
    (ed : editor) :
  let ed' := (load_file_fast lib lossy path content ed).1 in
  (load_file_fast lib lossy path content ed).2 = Loaded ->
  file_path ed' = Some path /\
  mob_names ed' = mob_names ed /\
  Forall (fun row => (length (headers ed') <= length row)%nat) (data ed') /\
  rowCount (table ed') = length (data ed') /\
  columnCount (table ed') = length (headers ed') /\
  current_data (table ed') = map (take (length (headers ed'))) (data ed').
Proof.
  unfold load_file_fast.
  destruct (read_lines lib lossy content) as [[lines encoding]|e];
    [|discriminate].
  set (ed1 := match encoding with
              | Some e => set_file_encoding e ed
              | None => ed
              end).
  destruct (parse_lines lines) as [pt|] eqn:Hparse; [|discriminate].
  set (ed2 := set_file_path path
                (set_data (pt_data pt) (set_headers (pt_headers pt) ed1))).
  pose proof (parse_lines_widths lines pt Hparse) as Hwide.
  change (pt_headers pt) with (headers ed2) in Hwide.
  change (pt_data pt) with (data ed2) in Hwide.
  pose proof (setup_table_widths ed2 _ Hwide) as Hwide'.
  pose proof (setup_table_current_data ed2) as Hshown.
  destruct (setup_table ed2) as [ed3 [e|]] eqn:Hsetup; [discriminate|].
  intros _. cbn [fst snd] in *.
  destruct (setup_table_cells ed2 ed3 Hsetup) as (Hh & Hrc & Hcc & _).
  assert (Hkeep : file_path ed3 = Some path /\ mob_names ed3 = mob_names ed).
  { unfold setup_table in Hsetup.
    destruct (setup_rows (mob_names ed2) (headers ed2) 0 (data ed2) _)
      as [[d t] e].
    injection Hsetup as <- _. subst ed2 ed1. destruct encoding; auto. }
  destruct Hkeep as [Hpath Hnames].
  rewrite Hh. repeat split; try assumption. apply Hshown; auto.
Qed.

Lemma load_file_fast_replaces_table_witness :
  let ed' := (load_file_fast ascii_cp949 lossy_ascii proto_path sample_file
                exp_editor).1 in
  headers ed' = [py "A"; py "B"] /\
  current_data (table ed') = [[py "1"; py "2"]].
Proof.
  intros ed'. split; [reflexivity|].
  destruct (load_file_fast_replaces_table ascii_cp949 lossy_ascii proto_path
              sample_file exp_editor) as (_ & _ & _ & _ & _ & Hshown).
  - reflexivity.
  - subst ed'. rewrite Hshown. reflexivity.
Defined.

(** *** Blank files *)

Lemma lstrip_blank s :
  Forall (fun c => is_space c = true) s -> lstrip s = [].
Proof.
  induction 1 as [|c s Hc _ IH]; [reflexivity|]. simpl. rewrite Hc. exact IH.
Qed.

Lemma strip_blank s :
  Forall (fun c => is_space c = true) s -> strip s = [].
Proof. intros Hs. unfold strip. rewrite lstrip_blank by exact Hs. reflexivity. Qed.

Lemma universal_newlines_chars (P : N -> Prop) s :
  P LF -> Forall P s -> Forall P (universal_newlines s).
Proof.
  intros HLF. induction 1 as [|c s Hc Hs IH]; [constructor|].
  simpl. destruct (c =? CR) eqn:Hcr.
  - destruct s as [|d s'']; [repeat constructor; exact HLF|].
    destruct (d =? LF) eqn:Hd.
    + constructor; [exact HLF|].
      simpl in IH. apply N.eqb_eq in Hd. subst d.
      change (LF =? CR) with false in IH. inversion IH. assumption.
    + constructor; [exact HLF | exact IH].
  - constructor; [exact Hc | exact IH].
Qed.

Lemma keep_lines_chars (P : N -> Prop) s :
  Forall P s -> Forall (Forall P) (keep_lines s).
Proof.
  induction 1 as [|c s Hc Hs IH]; [constructor|].
  simpl. destruct (c =? LF).
  - constructor; [repeat constructor; exact Hc | exact IH].
  - destruct (keep_lines s) as [|l ls].
    + repeat constructor. exact Hc.
    + inversion IH; subst. constructor; [constructor|]; assumption.
Qed.

Lemma split_chars (P : N -> Prop) sep s :
  Forall P s -> Forall (Forall P) (split sep s).
Proof.
  induction 1 as [|c s Hc Hs IH]; [repeat constructor|].
  simpl. destruct (c =? sep).
  - constructor; [constructor | exact IH].
  - destruct (split sep s) as [|f fs].
    + repeat constructor. exact Hc.
    + inversion IH; subst. constructor; [constructor|]; assumption.
Qed.

Lemma stripped_nonblank_blank ls :
  Forall (Forall (fun c => is_space c = true)) ls -> stripped_nonblank ls = [].
Proof.
  induction 1 as [|l ls Hl _ IH]; [reflexivity|].
  simpl. rewrite (strip_blank l Hl). exact IH.
Qed.

(** X3. A file whose text is nothing but white space gives the 'File is
    empty' warning: the header, the stored rows, the grid and the path
    of the table loaded before stay; the encoding stored is already the
    one that read the blank file, and it stays as it was only when no
    candidate decoded the file and the lossy text is blank. *)
Theorem load_file_fast_blank_file (lib : codec_library)
    (lossy : list byte -> pystr) (path : pystr) (content : list byte)
    (ed : editor) :
  (forall before encoding after text,
      encodings_to_try = before ++ encoding :: after ->
      (forall e, e ∈ before -> refuses lib e content) ->
      lib encoding content = Ok text ->
      Forall (fun c => is_space c = true) text ->
      load_file_fast lib lossy path content ed
      = (set_file_encoding encoding ed, FileIsEmpty)) /\
  ((forall e, e ∈ encodings_to_try -> refuses lib e content) ->
   Forall (fun c => is_space c = true) (lossy content) ->
   load_file_fast lib lossy path content ed = (ed, FileIsEmpty)).
Proof.
  split.
  - intros before encoding after text Henc Hbefore Hok Hblank.
    unfold load_file_fast, read_lines. rewrite Henc.
    rewrite (try_encodings_first lib before encoding after content text
               Hbefore Hok).
    rewrite stripped_nonblank_blank; [reflexivity|].
    apply keep_lines_chars, universal_newlines_chars;
      [reflexivity | exact Hblank].
  - intros Hnone Hblank. unfold load_file_fast, read_lines.
    rewrite (try_encodings_none lib _ content Hnone).
    rewrite stripped_nonblank_blank; [reflexivity|].
    apply split_chars, Hblank.
Qed.

Lemma load_file_fast_blank_file_witness :
  load_file_fast ascii_cp949 lossy_ascii proto_path [x20; x0d; x0a; x09]
    exp_editor
  = (set_file_encoding (py "cp949") exp_editor, FileIsEmpty)
  /\ load_file_fast no_codec lossy_ascii proto_path [x20; x0d; x0a; x09]
       exp_editor
     = (exp_editor, FileIsEmpty).
Proof.
  destruct (load_file_fast_blank_file ascii_cp949 lossy_ascii proto_path
              [x20; x0d; x0a; x09] exp_editor) as [Hfirst _].
  destruct (load_file_fast_blank_file no_codec lossy_ascii proto_path
              [x20; x0d; x0a; x09] exp_editor) as [_ Hnone].
  split.
  - apply (Hfirst [] (py "cp949") (tail encodings_to_try)
             (latin1_decode [x20; x0d; x0a; x09])).
    + reflexivity.
    + intros e He. inversion He.
    + reflexivity.
    + repeat constructor.
  - apply Hnone.
    + intros e _. exists UnicodeDecodeError. reflexivity.
    + repeat constructor.
Defined.

(** ** The count of a mass edit *)

Section MassEditCount.
Variable decimal : N -> option N.
Variable hdrs : list pystr.

(** One application adds at most one to [changes_made], and leaves the
    grid as it is when it adds nothing. *)
Lemma apply_to_row_count row ch t n :
  let '(t', n', _) := apply_to_row decimal hdrs row ch t n in
  (n <= n' <= n + 1)%nat /\ (n' = n -> t' = t).
Proof.
  destruct ch as [[col_name operation] value]. simpl.
  destruct (find_column hdrs col_name 0) as [col_index|]; [|split; [lia|auto]].
  destruct (apply_change decimal (item t row col_index) operation value);
    (split; [lia|]); intros Hn; [lia|reflexivity|reflexivity].
Qed.

Lemma apply_changes_count row changes t n :
  let '(t', n', _) := apply_changes decimal hdrs row changes t n in
  (n <= n' <= n + length changes)%nat /\ (n' = n -> t' = t).
Proof.
  revert t n. induction changes as [|ch changes IH]; intros t n.
  - simpl. split; [lia|auto].
  - simpl. pose proof (apply_to_row_count row ch t n) as Hone.
    destruct (apply_to_row decimal hdrs row ch t n) as [[t1 n1] [e|]].
    + destruct Hone as [Hle Hsame]. split; [lia|exact Hsame].
    + specialize (IH t1 n1).
      destruct (apply_changes decimal hdrs row changes t1 n1)
        as [[t2 n2] e].
      destruct Hone as [Hle1 Hsame1], IH as [Hle2 Hsame2].
      split; [lia|]. intros Hn.
      rewrite Hsame2 by lia. apply Hsame1. lia.
Qed.

Lemma apply_rows_count rows changes t n :
  let '(t', n', _) := apply_rows decimal hdrs rows changes t n in
  (n <= n' <= n + length rows * length changes)%nat /\ (n' = n -> t' = t).
Proof.
  revert t n. induction rows as [|row rows IH]; intros t n.
  - simpl. split; [lia|auto].
  - simpl. pose proof (apply_changes_count row changes t n) as Hone.
    destruct (apply_changes decimal hdrs row changes t n) as [[t1 n1] [e|]].
    + destruct Hone as [Hle Hsame]. split; [lia|exact Hsame].
    + specialize (IH t1 n1).
      destruct (apply_rows decimal hdrs rows changes t1 n1) as [[t2 n2] e].
      destruct Hone as [Hle1 Hsame1], IH as [Hle2 Hsame2].
      split; [lia|]. intros Hn.
      rewrite Hsame2 by lia. apply Hsame1. lia.
Qed.
End MassEditCount.

Lemma set_table_same ed : set_table (table ed) ed = ed.
Proof. destruct ed. reflexivity. Qed.

(** X4. The count reported by a mass edit is at most the number of
    target rows times the number of changes, and when it is zero (the
    'No changes were applied' warning, or an exception before the first
    update) the editor is exactly as it was. *)
Theorem mass_edit_count (decimal : N -> option N) (selected : list nat)
    (changes : list change) (ed : editor) :
  let done := apply_mass_changes decimal selected changes ed in
  (done.1.2
   <= length (rows_to_change selected (table ed)) * length changes)%nat /\
  (done.1.2 = 0%nat -> done.1.1 = ed).
Proof.
  unfold apply_mass_changes. destruct changes as [|ch changes].
  - split; [simpl; lia|reflexivity].
  - pose proof (apply_rows_count decimal (headers ed)
                  (rows_to_change selected (table ed)) (ch :: changes)
                  (table ed) 0) as Hcount.
    destruct (apply_rows decimal (headers ed)
                (rows_to_change selected (table ed)) (ch :: changes)
                (table ed) 0) as [[t' n] e].
    destruct Hcount as [Hle Hsame]. cbn [fst snd]. split; [lia|].
    intros Hn. rewrite Hsame by lia. apply set_table_same.
Qed.

Lemma mass_edit_count_witness :
  (apply_mass_changes ascii_digits [] [(py "EXP", py "multiply", py "x")]
     exp_editor).1.1
  = exp_editor.
Proof.
  apply (proj2 (mass_edit_count ascii_digits []
                  [(py "EXP", py "multiply", py "x")] exp_editor)).
  reflexivity.
Defined.

(** ** The column a change is applied to *)

(** No header before the column found carries the name searched. *)
Lemma find_column_first hdrs col_name i j :
  find_column hdrs col_name i = Some j ->
  forall k, (i <= k < j)%nat -> hdrs !! (k - i)%nat <> Some col_name.
Proof.
  revert i. induction hdrs as [|header hdrs IH]; intros i; [discriminate|].
  simpl. unfold pystr_eqb. case_bool_decide as Heq.
  - intros [= <-] k Hk. lia.
  - intros Hfind k Hk.
    destruct (decide (k = i)) as [->|Hne].
    + rewrite Nat.sub_diag. simpl. congruence.
    + replace (k - i)%nat with (S (k - S i)) by lia. simpl.
      apply (IH _ Hfind). lia.
Qed.

(** A name that heads a column is found. *)
Lemma find_column_elem hdrs col_name i :
  col_name ∈ hdrs -> exists j, find_column hdrs col_name i = Some j.
Proof.
  revert i. induction hdrs as [|header hdrs IH]; intros i Hin.
  - inversion Hin.
  - simpl. unfold pystr_eqb. case_bool_decide as Heq; [eauto|].
    apply IH. inversion Hin; subst; [congruence|assumption].
Qed.

Section MassEditColumns.
Variable decimal : N -> option N.
Variable hdrs : list pystr.

Lemma apply_to_row_found row ch t n :
  changed_only (fun r c => r = row /\ find_column hdrs ch.1.1 0 = Some c) t
    (apply_to_row decimal hdrs row ch t n).1.1.
Proof.
  destruct ch as [[col_name operation] value]. simpl.
  destruct (find_column hdrs col_name 0) as [col_index|] eqn:Hfind;
    [|apply changed_only_refl].
  destruct (apply_change decimal (item t row col_index) operation value);
    simpl; try apply changed_only_refl.
  apply changed_only_setItem. auto.
Qed.

Lemma apply_changes_found row changes t n :
  changed_only
    (fun r c => r = row /\
                exists ch, ch ∈ changes /\ find_column hdrs ch.1.1 0 = Some c)
    t (apply_changes decimal hdrs row changes t n).1.1.
Proof.
  revert t n. induction changes as [|ch changes IH]; intros t n.
  - apply changed_only_refl.
  - simpl. pose proof (apply_to_row_found row ch t n) as Hone.
    destruct (apply_to_row decimal hdrs row ch t n) as [[t' n'] [e|]];
      simpl in Hone.
    + simpl. eapply changed_only_weaken; [|exact Hone].
      intros r c [-> Hc]. split; [reflexivity|].
      exists ch. split; [left|exact Hc].
    + eapply changed_only_trans.
      * eapply changed_only_weaken; [|exact Hone].
        intros r c [-> Hc]. split; [reflexivity|].
        exists ch. split; [left|exact Hc].
      * eapply changed_only_weaken; [|apply IH].
        intros r c (-> & ch' & Hin & Hc). split; [reflexivity|].
        exists ch'. split; [now right|exact Hc].
Qed.

Lemma apply_rows_found rows changes t n :
  changed_only
    (fun r c => r ∈ rows /\
                exists ch, ch ∈ changes /\ find_column hdrs ch.1.1 0 = Some c)
    t (apply_rows decimal hdrs rows changes t n).1.1.
Proof.
  revert t n. induction rows as [|row rows IH]; intros t n.
  - apply changed_only_refl.
  - simpl. pose proof (apply_changes_found row changes t n) as Hone.
    destruct (apply_changes decimal hdrs row changes t n)
      as [[t' n'] [e|]]; simpl in Hone.
    + simpl. eapply changed_only_weaken; [|exact Hone].
      intros r c [-> Hc]. split; [left|exact Hc].
    + eapply changed_only_trans.
      * eapply changed_only_weaken; [|exact Hone].
        intros r c [-> Hc]. split; [left|exact Hc].
      * eapply changed_only_weaken; [|apply IH].
        intros r c [Hin Hc]. split; [now right|exact Hc].
Qed.
End MassEditColumns.

(** X5. When two columns carry the same header, a mass edit changes
    only the first of them: a cell whose header also heads an earlier
    column is never changed. *)
Theorem mass_edit_first_of_equal_headers (decimal : N -> option N)
    (selected : list nat) (changes : list change) (ed : editor)
    (r c j : nat) :
  (j < c)%nat -> headers ed !! j = headers ed !! c ->
  item (table (apply_mass_changes decimal selected changes ed).1.1) r c
  = item (table ed) r c.
Proof.
  intros Hj Hsame. unfold apply_mass_changes.
  destruct changes as [|ch changes]; [reflexivity|].
  pose proof (apply_rows_found decimal (headers ed)
                (rows_to_change selected (table ed)) (ch :: changes)
                (table ed) O) as (_ & _ & Hframe).
  destruct (apply_rows decimal (headers ed)
              (rows_to_change selected (table ed)) (ch :: changes)
              (table ed) O) as [[t' n] e].
  simpl in *.
  destruct (decide (item t' r c = item (table ed) r c)) as [Heq|Hne];
    [exact Heq|].
  destruct (Hframe r c Hne) as (_ & ch' & _ & Hfind).
  pose proof (find_column_lookup _ _ _ _ Hfind) as [_ Hc].
  pose proof (find_column_first _ _ _ _ Hfind j ltac:(lia)) as Hfirst.
  rewrite Nat.sub_0_r in Hc, Hfirst. congruence.
Qed.

Lemma mass_edit_first_of_equal_headers_witness :
  let ed := (setup_table
               (MkEditor None [[py "101"; py "Wolf"; py "100"; py "100"]]
                  [py "VNUM"; py "NAME"; py "EXP"; py "EXP"]
                  ∅ None empty_grid)).1 in
  let ed' := (apply_mass_changes ascii_digits []
                [(py "EXP", py "multiply", py "4")] ed).1.1 in
  item (table ed') 0 2 = Some (py "400") /\
  item (table ed') 0 3 = Some (py "100").
Proof.
  intros ed ed'. split; [reflexivity|].
  subst ed'.
  rewrite (mass_edit_first_of_equal_headers ascii_digits []
             [(py "EXP", py "multiply", py "4")] ed 0 3 2).
  - reflexivity.
  - lia.
  - reflexivity.
Defined.

(** ** The exceptions of a mass edit *)

Lemma current_value_error decimal it e :
  current_value decimal it = Raise e -> e = ValueError.
Proof.
  destruct it as [[|c text]|]; try discriminate. apply py_float_error.
Qed.

Lemma operate_error decimal operation value c e :
  operate decimal operation value c = Raise e -> e = ValueError.
Proof.
  unfold operate.
  destruct (py_float decimal value) as [v|e'] eqn:Hv.
  - repeat (destruct (pystr_eqb operation _); [discriminate|]). discriminate.
  - apply py_float_error in Hv. subst e'.
    repeat (destruct (pystr_eqb operation _); [simpl; congruence|]).
    discriminate.
Qed.

Lemma py_int_error x e :
  py_int x = Raise e -> e = OverflowError \/ e = ValueError.
Proof. destruct x; simpl; intros [= <-]; auto. Qed.

Lemma new_text_error decimal it operation value e :
  new_text decimal it operation value = Raise e ->
  e = OverflowError \/ e = ValueError.
Proof.
  unfold new_text.
  destruct (current_value decimal it) as [c|e1] eqn:Hc; simpl.
  - destruct (operate decimal operation value c) as [[x|]|e2] eqn:Hop; simpl.
    + destruct (py_int x) as [z|e3] eqn:Hz; simpl; [discriminate|].
      intros [= <-]. apply (py_int_error x), Hz.
    + discriminate.
    + intros [= <-]. right. apply (operate_error _ _ _ _ _ Hop).
  - intros [= <-]. right. apply (current_value_error _ _ _ Hc).
Qed.

(** The only exception that the [except] clause of the loop lets
    through is the [OverflowError] of [int] on an infinity. *)
Lemma apply_change_aborted decimal it operation value e :
  apply_change decimal it operation value = Aborted e -> e = OverflowError.
Proof.
  unfold apply_change.
  destruct (new_text decimal it operation value) as [[text|]|e'] eqn:Hnew;
    try discriminate.
  destruct (new_text_error _ _ _ _ _ Hnew) as [-> | ->];
    [intros [= <-]; reflexivity | discriminate].
Qed.

Section MassEditErrors.
Variable decimal : N -> option N.
Variable hdrs : list pystr.

Lemma apply_to_row_error row ch t n e :
  (apply_to_row decimal hdrs row ch t n).2 = Some e -> e = OverflowError.
Proof.
  destruct ch as [[col_name operation] value]. simpl.
  destruct (find_column hdrs col_name 0) as [col_index|]; [|discriminate].
  destruct (apply_change decimal (item t row col_index) operation value)
    as [text| |e'] eqn:Hone; try discriminate.
  intros [= <-]. apply (apply_change_aborted _ _ _ _ _ Hone).
Qed.

Lemma apply_changes_error row changes t n e :
  (apply_changes decimal hdrs row changes t n).2 = Some e ->
  e = OverflowError.
Proof.
  revert t n. induction changes as [|ch changes IH]; intros t n;
    [discriminate|].
  simpl. pose proof (apply_to_row_error row ch t n) as Hone.
  destruct (apply_to_row decimal hdrs row ch t n) as [[t' n'] [e'|]].
  - intros [= <-]. apply Hone. reflexivity.
  - apply IH.
Qed.

Lemma apply_rows_error rows changes t n e :
  (apply_rows decimal hdrs rows changes t n).2 = Some e -> e = OverflowError.
Proof.
  revert t n. induction rows as [|row rows IH]; intros t n; [discriminate|].
  simpl. pose proof (apply_changes_error row changes t n) as Hone.
  destruct (apply_changes decimal hdrs row changes t n) as [[t' n'] [e'|]].
  - intros [= <-]. apply Hone. reflexivity.
  - apply IH.
Qed.
End MassEditErrors.

(** [get_changes] never raises: the only exception of [float] on a text
    is the [ValueError] it catches. *)
Lemma get_changes_total decimal widgets :
  exists changes, get_changes decimal widgets = Ok changes.
Proof.
  induction widgets as [|w widgets [changes IH]]; [eexists; reflexivity|].
  simpl. destruct (ow_enabled w); [|eauto].
  destruct (ow_value w) as [|c text] eqn:Hv; [eauto|].
  destruct (py_float decimal (c :: text)) as [x|e] eqn:Hf.
  - rewrite IH. eexists. reflexivity.
  - apply py_float_error in Hf. subst e. eauto.
Qed.

(** X6. The only exception that leaves a mass edit, whether started
    from the dialog or not, is the [OverflowError] raised when the new
    value of a cell is an infinity; reading the dialog never raises. *)
Theorem mass_edit_only_overflow_escapes (decimal : N -> option N)
    (selected : list nat) (ed : editor) :
  (forall changes e,
      (apply_mass_changes decimal selected changes ed).2 = Some e ->
      e = OverflowError) /\
  (forall widgets, exists changes, get_changes decimal widgets = Ok changes) /\
  (forall dialog e,
      (show_mass_edit decimal selected dialog ed).2 = MassEditFailed e ->
      e = OverflowError).
Proof.
  assert (Hmass : forall changes e,
             (apply_mass_changes decimal selected changes ed).2 = Some e ->
             e = OverflowError).
  { intros changes e. unfold apply_mass_changes.
    destruct changes as [|ch changes]; [discriminate|].
    pose proof (apply_rows_error decimal (headers ed)
                  (rows_to_change selected (table ed)) (ch :: changes)
                  (table ed) 0 e) as Herr.
    destruct (apply_rows decimal (headers ed)
                (rows_to_change selected (table ed)) (ch :: changes)
                (table ed) 0) as [[t' n] e'].
    exact Herr. }
  split; [exact Hmass|]. split; [apply get_changes_total|].
  intros dialog e. unfold show_mass_edit.
  destruct (data ed); [discriminate|].
  destruct dialog as [widgets|]; [|discriminate].
  destruct (get_changes_total decimal widgets) as [changes ->].
  specialize (Hmass changes).
  destruct (apply_mass_changes decimal selected changes ed)
    as [[ed' n] [e'|]]; [|discriminate].
  intros [= <-]. apply Hmass. reflexivity.
Qed.

Lemma mass_edit_only_overflow_escapes_witness :
  let dialog := Some [MkWidget (py "EXP") true (py "multiply") (py "10")] in
  (show_mass_edit ascii_digits [] dialog exp_editor).2
  = MassEditFailed OverflowError
  /\ OverflowError = OverflowError.
Proof.
  intros dialog. split; [reflexivity|].
  destruct (mass_edit_only_overflow_escapes ascii_digits [] exp_editor)
    as (_ & _ & Hshow).
  apply (Hshow dialog OverflowError). reflexivity.
Defined.

(** ** The text a mass edit writes *)

Lemma uint_digits_digits u :
  Forall (fun c => is_digit c = true) (uint_digits u).
Proof. induction u; simpl; constructor; try reflexivity; assumption. Qed.

Lemma uint_digits_nonempty u : u <> Decimal.Nil -> uint_digits u <> [].
Proof. destruct u; simpl; congruence. Qed.

(** The digits of a numeral, read from left to right with the
    accumulator of [digits_value], give the number that the numeral
    denotes. *)
Lemma take_digits_uint u :
  exists ds,
    take_digits (uint_digits u) = (ds, []) /\
    length ds = length (uint_digits u) /\
    (forall acc, fold_left (fun a d => 10 * a + d) ds (Npos acc)
                 = Npos (Pos.of_uint_acc u acc)) /\
    fold_left (fun a d => 10 * a + d) ds 0 = Pos.of_uint u.
Proof.
  induction u as [|u (ds & Htake & Hlen & Hacc & Hzero)
                  |u (ds & Htake & Hlen & Hacc & Hzero)
                  |u (ds & Htake & Hlen & Hacc & Hzero)
                  |u (ds & Htake & Hlen & Hacc & Hzero)
                  |u (ds & Htake & Hlen & Hacc & Hzero)
                  |u (ds & Htake & Hlen & Hacc & Hzero)
                  |u (ds & Htake & Hlen & Hacc & Hzero)
                  |u (ds & Htake & Hlen & Hacc & Hzero)
                  |u (ds & Htake & Hlen & Hacc & Hzero)
                  |u (ds & Htake & Hlen & Hacc & Hzero)];
    [exists []; repeat split; reflexivity | ..];
    (eexists; split; [simpl; rewrite Htake; reflexivity|];
     split; [simpl; rewrite Hlen; reflexivity|];
     split; [intros acc; simpl; rewrite <- Hacc; f_equal; lia|]).
  - simpl. exact Hzero.
  - simpl. apply (Hacc 1%positive).
  - simpl. apply (Hacc 2%positive).
  - simpl. apply (Hacc 3%positive).
  - simpl. apply (Hacc 4%positive).
  - simpl. apply (Hacc 5%positive).
  - simpl. apply (Hacc 6%positive).
  - simpl. apply (Hacc 7%positive).
  - simpl. apply (Hacc 8%positive).
  - simpl. apply (Hacc 9%positive).
Qed.

Lemma digit_range c : is_digit c = true -> 48 <= c <= 57.
Proof.
  unfold is_digit. intros H. apply andb_true_iff in H as [H1 H2].
  apply N.leb_le in H1, H2. lia.
Qed.

Lemma to_ascii_plain decimal s :
  Forall (fun c => c < 127) s -> map (to_ascii decimal) s = s.
Proof.
  induction 1 as [|c s Hc _ IH]; [reflexivity|].
  simpl. rewrite IH. unfold to_ascii.
  apply N.ltb_lt in Hc. rewrite Hc. reflexivity.
Qed.

Lemma remove_underscores_plain prev s :
  prev <> UNDERSCORE -> Forall (fun c => c <> UNDERSCORE) s ->
  remove_underscores prev s = Some s.
Proof.
  intros Hprev Hs. revert prev Hprev.
  induction Hs as [|c s Hc _ IH]; intros prev Hprev; simpl.
  - apply N.eqb_neq in Hprev. rewrite Hprev. reflexivity.
  - apply N.eqb_neq in Hprev. rewrite Hprev.
    rewrite (proj2 (N.eqb_neq c UNDERSCORE) Hc). simpl.
    rewrite (IH c Hc). reflexivity.
Qed.

Lemma c_lstrip_plain s :
  Forall (fun c => is_c_space c = false) s -> c_lstrip s = s.
Proof. destruct 1 as [|c s Hc _]; [reflexivity|]. simpl. rewrite Hc. reflexivity. Qed.

Lemma c_strip_plain s :
  Forall (fun c => is_c_space c = false) s -> c_strip s = s.
Proof.
  intros Hs. unfold c_strip. rewrite (c_lstrip_plain s Hs).
  rewrite c_lstrip_plain; [apply rev_involutive|].
  apply Forall_forall. intros c Hin. rewrite Forall_forall in Hs.
  apply Hs. apply list_elem_of_In. apply list_elem_of_In in Hin.
  apply in_rev. exact Hin.
Qed.

(** [float] reads a numeral made of an optional minus sign and digits as
    the number it denotes. *)
Lemma py_float_numeral decimal (neg : bool) u :
  u <> Decimal.Nil ->
  py_float decimal ((if neg then [45] else []) ++ uint_digits u)
  = Ok (float_of_decimal neg (Pos.of_uint u) 0).
Proof.
  intros Hu.
  pose proof (uint_digits_digits u) as Hdigits.
  pose proof (uint_digits_nonempty u Hu) as Hne.
  destruct (take_digits_uint u) as (ds & Htake & Hlen & _ & Hval).
  set (s := (if neg then [45] else []) ++ uint_digits u).
  assert (Hs : Forall (fun c => c = 45 \/ 48 <= c <= 57) s).
  { subst s. apply Forall_app. split.
    - destruct neg; repeat constructor.
    - eapply Forall_impl; [exact Hdigits|].
      intros c Hc. right. apply digit_range, Hc. }
  unfold py_float.
  rewrite to_ascii_plain
    by (eapply Forall_impl; [exact Hs|]; simpl; intros c [-> |Hc]; lia).
  rewrite c_strip_plain.
  2:{ eapply Forall_impl; [exact Hs|]. simpl. intros c [-> |Hc];
        [reflexivity|].
      unfold is_c_space.
      rewrite (proj2 (N.leb_gt c 13)) by lia.
      rewrite (proj2 (N.eqb_neq c 32)) by lia.
      rewrite andb_false_r. reflexivity. }
  rewrite remove_underscores_plain.
  2:{ discriminate. }
  2:{ eapply Forall_impl; [exact Hs|]. simpl. unfold UNDERSCORE.
      intros c [-> |Hc]; lia. }
  assert (Hparse : parse_decimal s
                   = Some (float_of_decimal neg (Pos.of_uint u) 0)).
  { unfold parse_decimal.
    assert (Hsign : take_sign s = (neg, uint_digits u)).
    { subst s. destruct neg; [reflexivity|]. simpl.
      destruct (uint_digits u) as [|c rest] eqn:Hd; [congruence|].
      inversion Hdigits as [|? ? Hc _]; subst. apply digit_range in Hc.
      simpl. rewrite (proj2 (N.eqb_neq c 45)) by lia.
      rewrite (proj2 (N.eqb_neq c 43)) by lia. reflexivity. }
    rewrite Hsign, Htake. rewrite app_nil_r.
    destruct ds as [|d ds'].
    - destruct (uint_digits u); [congruence|discriminate].
    - unfold digits_value. rewrite Hval. reflexivity. }
  rewrite Hparse. reflexivity.
Qed.

Lemma py_str_int_numeral z :
  exists u,
    u <> Decimal.Nil /\ Pos.of_uint u = Z.abs_N z /\
    py_str_int z = (if (z <? 0)%Z then [45] else []) ++ uint_digits u.
Proof.
  destruct z as [|p|p]; unfold py_str_int; simpl.
  - exists (Decimal.D0 Decimal.Nil). repeat split. discriminate.
  - exists (Pos.to_uint p). split; [apply DecimalPos.Unsigned.to_uint_nonnil|].
    split; [apply DecimalPos.Unsigned.of_to | reflexivity].
  - exists (Pos.to_uint p). split; [apply DecimalPos.Unsigned.to_uint_nonnil|].
    split; [apply DecimalPos.Unsigned.of_to | reflexivity].
Qed.

Lemma apply_change_updated decimal it operation value text :
  apply_change decimal it operation value = Updated text ->
  exists z, text = py_str_int z.
Proof.
  unfold apply_change, new_text.
  destruct (current_value decimal it) as [c|e1]; simpl.
  - destruct (operate decimal operation value c) as [[x|]|e2]; simpl.
    + destruct (py_int x) as [z|e3]; simpl.
      * intros [= <-]. eauto.
      * destruct e3; discriminate.
    + discriminate.
    + destruct e2; discriminate.
  - destruct e1; discriminate.
Qed.

(** *** Integers that binary64 holds exactly *)

Lemma shiftl_pos p n :
  Z.shiftl (Zpos p) (Zpos n) = Zpos (Pos.iter xO p n).
Proof.
  unfold Z.shiftl. revert p. induction n using Pos.peano_ind; intros p.
  - reflexivity.
  - rewrite !Pos.iter_succ. rewrite IHn. reflexivity.
Qed.

Lemma digits2_iter p n :
  digits2_pos (Pos.iter xO p n) = (digits2_pos p + n)%positive.
Proof.
  induction n using Pos.peano_ind.
  - simpl. lia.
  - rewrite Pos.iter_succ. simpl. rewrite IHn. lia.
Qed.

Lemma div_eucl_1 a : Z.div_eucl a 1 = (a, 0%Z).
Proof.
  pose proof (Z.div_1_r a) as Hq. pose proof (Z.mod_1_r a) as Hr.
  unfold Z.div, Z.modulo in *. destruct (Z.div_eucl a 1). simpl in *.
  congruence.
Qed.

(** The binary64 number nearest to an integer of at most 53 bits is that
    integer, with its mantissa shifted to 53 bits. *)
Lemma float_of_ratio_short (neg : bool) (p k : positive) :
  (Zpos (digits2_pos p) + Zpos k = 53)%Z ->
  float_of_ratio neg p 1 = S754_finite neg (Pos.iter xO p k) (- Zpos k).
Proof.
  intros Hd. unfold float_of_ratio, prec, emax, SFdiv, SFdiv_core_binary.
  cbn [Zdigits2 digits2_pos].
  assert (He : Z.min (fexp 53 1024 (Z.pos (digits2_pos p) + 0 - (1 + 0)))
                 (0 - 0) = Zneg (Pos.succ k)).
  { unfold fexp, emin. lia. }
  rewrite He.
  replace (0 - 0 - Z.neg (Pos.succ k))%Z with (Zpos (Pos.succ k)) by lia.
  rewrite shiftl_pos, Pos.iter_succ, div_eucl_1.
  change (new_location 1 0) with loc_Exact.
  rewrite xorb_false_r.
  unfold binary_round_aux, shr_fexp.
  cbn [Zdigits2 digits2_pos shr_record_of_loc].
  rewrite digits2_iter.
  assert (H1 : (fexp 53 1024 (Z.pos (Pos.succ (digits2_pos p + k))
                              + Z.neg (Pos.succ k))
                - Z.neg (Pos.succ k) = 1)%Z).
  { unfold fexp, emin. lia. }
  rewrite H1.
  cbn [shr SpecFloat.iter_pos shr_1 orb shr_m loc_of_shr_record
       round_nearest_even].
  cbn [Zdigits2]. rewrite digits2_iter.
  assert (H2 : (fexp 53 1024 (Z.pos (digits2_pos p + k)
                              + (Z.neg (Pos.succ k) + 1))
                - (Z.neg (Pos.succ k) + 1) = 0)%Z).
  { unfold fexp, emin. lia. }
  rewrite H2. cbn [shr shr_m].
  replace (Z.neg (Pos.succ k) + 1)%Z with (- Zpos k)%Z by lia.
  replace (- Z.pos k <=? 1024 - 53)%Z with true
    by (symmetry; apply Z.leb_le; lia).
  reflexivity.
Qed.

Lemma float_of_ratio_full (neg : bool) (p : positive) :
  Zpos (digits2_pos p) = 53%Z ->
  float_of_ratio neg p 1 = S754_finite neg p 0.
Proof.
  intros Hd. unfold float_of_ratio, prec, emax, SFdiv, SFdiv_core_binary.
  cbn [Zdigits2 digits2_pos].
  assert (He : Z.min (fexp 53 1024 (Z.pos (digits2_pos p) + 0 - (1 + 0)))
                 (0 - 0) = Zneg 1).
  { unfold fexp, emin. lia. }
  rewrite He.
  replace (0 - 0 - Z.neg 1)%Z with (Zpos 1) by lia.
  rewrite shiftl_pos, div_eucl_1.
  change (new_location 1 0) with loc_Exact.
  rewrite xorb_false_r.
  unfold binary_round_aux, shr_fexp.
  cbn [Zdigits2 digits2_pos shr_record_of_loc Pos.iter].
  assert (H1 : (fexp 53 1024 (Z.pos (Pos.succ (digits2_pos p)) + Z.neg 1)
                - Z.neg 1 = 1)%Z).
  { unfold fexp, emin. lia. }
  rewrite H1.
  cbn [shr SpecFloat.iter_pos shr_1 orb shr_m loc_of_shr_record
       round_nearest_even].
  cbn [Zdigits2].
  assert (H2 : (fexp 53 1024 (Z.pos (digits2_pos p) + (Z.neg 1 + 1))
                - (Z.neg 1 + 1) = 0)%Z).
  { unfold fexp, emin. lia. }
  rewrite H2. cbn [shr shr_m].
  reflexivity.
Qed.

Lemma digits2_size p : digits2_pos p = Pos.size p.
Proof. induction p; simpl; congruence. Qed.

Lemma digits2_bound p :
  (Zpos p < 2 ^ 53)%Z -> (Zpos (digits2_pos p) <= 53)%Z.
Proof.
  intros Hlt. rewrite digits2_size.
  pose proof (Pos.size_le p) as Hle.
  assert (Hpow : (2 ^ Zpos (Pos.size p) <= 2 * Zpos p)%Z).
  { rewrite <- Pos2Z.inj_pow. change (2 * Zpos p)%Z with (Zpos p~0).
    apply Pos2Z.pos_le_pos. exact Hle. }
  destruct (Z_le_gt_dec (Zpos (Pos.size p)) 53) as [Hok|Hbig]; [exact Hok|].
  assert (H54 : (2 ^ 54 <= 2 ^ Zpos (Pos.size p))%Z)
    by (apply Z.pow_le_mono_r; lia).
  change (2 ^ 54)%Z with (2 * 2 ^ 53)%Z in H54. lia.
Qed.

(** [int(float(str(z)))] is [z] for an integer below 2^53 in
    magnitude. *)
Lemma py_int_float_of_integer z :
  (Z.abs z < 2 ^ 53)%Z ->
  py_int (float_of_decimal (z <? 0)%Z (Z.abs_N z) 0) = Ok z.
Proof.
  intros Hz. destruct z as [|p|p]; [reflexivity| |].
  - assert (Hd : (Zpos (digits2_pos p) <= 53)%Z)
      by (apply digits2_bound; exact Hz).
    change (float_of_decimal (Z.pos p <? 0)%Z (Z.abs_N (Z.pos p)) 0)
      with (float_of_ratio false p 1).
    destruct (53 - Zpos (digits2_pos p))%Z as [|k|k] eqn:Hk; [| |lia].
    + rewrite float_of_ratio_full by lia. reflexivity.
    + rewrite (float_of_ratio_short false p k) by lia.
      unfold py_int. rewrite <- shiftl_pos.
      rewrite Z.shiftl_shiftl by lia.
      replace (Z.pos k + - Z.pos k)%Z with 0%Z by lia. reflexivity.
  - assert (Hd : (Zpos (digits2_pos p) <= 53)%Z)
      by (apply digits2_bound; exact Hz).
    change (float_of_decimal (Z.neg p <? 0)%Z (Z.abs_N (Z.neg p)) 0)
      with (float_of_ratio true p 1).
    destruct (53 - Zpos (digits2_pos p))%Z as [|k|k] eqn:Hk; [| |lia].
    + rewrite float_of_ratio_full by lia. reflexivity.
    + rewrite (float_of_ratio_short true p k) by lia.
      unfold py_int. rewrite <- shiftl_pos.
      rewrite Z.shiftl_shiftl by lia.
      replace (Z.pos k + - Z.pos k)%Z with 0%Z by lia. reflexivity.
Qed.

(** X7. The text an update writes is the decimal form of an integer: an
    optional minus sign followed by at least one digit, never a
    fraction, an exponent, "inf" or "nan". [float] reads that text
    again, so a later mass edit does not skip the cell for an
    unreadable text; and when the integer is below 2^53 in magnitude,
    the number read is that integer: [int] of it gives the integer
    back. *)
Theorem mass_edit_writes_integer_numerals (decimal : N -> option N)
    (it : option pystr) (operation value text : pystr) :
  apply_change decimal it operation value = Updated text ->
  exists (z : Z) (x : float),
    text = py_str_int z /\
    (exists ds, ds <> [] /\ Forall (fun c => is_digit c = true) ds /\
                text = (if (z <? 0)%Z then [45] else []) ++ ds) /\
    current_value decimal (Some text) = Ok x /\
    ((Z.abs z < 2 ^ 53)%Z -> py_int x = Ok z).
Proof.
  intros Hup. apply apply_change_updated in Hup as [z ->].
  exists z, (float_of_decimal (z <? 0)%Z (Z.abs_N z) 0).
  destruct (py_str_int_numeral z) as (u & Hu & Hval & Htext).
  split; [reflexivity|]. split; [|split].
  - exists (uint_digits u). split; [apply uint_digits_nonempty, Hu|].
    split; [apply uint_digits_digits | exact Htext].
  - assert (Hread : py_float decimal (py_str_int z)
                    = Ok (float_of_decimal (z <? 0)%Z (Z.abs_N z) 0)).
    { rewrite Htext, <- Hval. apply py_float_numeral, Hu. }
    unfold current_value. rewrite <- Hread.
    destruct (py_str_int z) as [|c s] eqn:Hs; [|reflexivity].
    pose proof (uint_digits_nonempty u Hu) as Hne.
    destruct (z <? 0)%Z; [discriminate|]. simpl in Htext. congruence.
  - apply py_int_float_of_integer.
Qed.

Lemma mass_edit_writes_integer_numerals_witness :
  apply_change ascii_digits (Some (py "-101")) (py "multiply") (py "2.5")
  = Updated (py "-252")
  /\ py_str_int (-252) = py "-252"
  /\ (x ← current_value ascii_digits (Some (py "-252")); py_int x)
     = Ok (-252)%Z
  /\ exists (z : Z) (x : float),
       py "-252" = py_str_int z /\
       (exists ds, ds <> [] /\ Forall (fun c => is_digit c = true) ds /\
                   py "-252" = (if (z <? 0)%Z then [45] else []) ++ ds) /\
       current_value ascii_digits (Some (py "-252")) = Ok x /\
       ((Z.abs z < 2 ^ 53)%Z -> py_int x = Ok z).
Proof.
  split; [reflexivity|]. split; [reflexivity|]. split; [reflexivity|].
  apply (mass_edit_writes_integer_numerals ascii_digits (Some (py "-101"))
           (py "multiply") (py "2.5") (py "-252")).
  reflexivity.
Defined.

(** ** A mass edit with one change per column *)

Lemma changed_only_in_grid P t t' r c :
  changed_only P t t' -> in_grid t' r c = in_grid t r c.
Proof. intros (Hr & Hc & _). unfold in_grid. rewrite Hr, Hc. reflexivity. Qed.

Lemma changed_only_same (P : nat -> nat -> Prop) t t' r c :
  changed_only P t t' -> ~ P r c -> item t' r c = item t r c.
Proof.
  intros (_ & _ & Hframe) HnP.
  destruct (decide (item t' r c = item t r c)) as [Heq|Hne]; [exact Heq|].
  destruct (HnP (Hframe r c Hne)).
Qed.

(** Two names found at the same column are the same name. *)
Lemma find_column_inj hdrs a b c :
  find_column hdrs a 0 = Some c -> find_column hdrs b 0 = Some c -> a = b.
Proof.
  intros Ha Hb.
  apply find_column_lookup in Ha as [_ Ha], Hb as [_ Hb]. congruence.
Qed.

Section MassEditOnce.
Variable decimal : N -> option N.
Variable hdrs : list pystr.

Lemma apply_to_row_cell row ch t n t' n' c :
  apply_to_row decimal hdrs row ch t n = (t', n', None) ->
  find_column hdrs ch.1.1 0 = Some c -> in_grid t row c = true ->
  item t' row c = cell_after decimal t row c ch.
Proof.
  unfold cell_after. destruct ch as [[col_name operation] value]. simpl.
  intros Hrun Hfind Hgrid. rewrite Hfind in Hrun.
  destruct (apply_change decimal (item t row c) operation value)
    as [text| |e]; [|injection Hrun as <- _; reflexivity|discriminate].
  injection Hrun as <- _. rewrite item_setItem, Hgrid.
  rewrite bool_decide_eq_true_2 by reflexivity. reflexivity.
Qed.

Lemma apply_changes_cell row changes t n t' n' ch c :
  NoDup (map (fun ch : change => ch.1.1) changes) ->
  apply_changes decimal hdrs row changes t n = (t', n', None) ->
  ch ∈ changes -> find_column hdrs ch.1.1 0 = Some c ->
  in_grid t row c = true ->
  item t' row c = cell_after decimal t row c ch.
Proof.
  revert t n. induction changes as [|ch0 changes IH];
    intros t n Hnodup Hrun Hin Hfind Hgrid; [inversion Hin|].
  simpl in Hrun, Hnodup. apply NoDup_cons in Hnodup as [Hfresh Hnodup].
  pose proof (apply_to_row_found decimal hdrs row ch0 t n) as Hone.
  destruct (apply_to_row decimal hdrs row ch0 t n) as [[t1 n1] [e|]] eqn:H0;
    [discriminate|].
  simpl in Hone.
  pose proof (apply_changes_found decimal hdrs row changes t1 n1) as Hrest.
  rewrite Hrun in Hrest. simpl in Hrest.
  apply elem_of_cons in Hin as [-> |Hin].
  - rewrite <- (apply_to_row_cell row ch0 t n t1 n1 c H0 Hfind Hgrid).
    apply (changed_only_same _ _ _ _ _ Hrest).
    intros (_ & ch' & Hin' & Hfind'). apply Hfresh.
    rewrite (find_column_inj hdrs _ _ c Hfind Hfind').
    apply list_elem_of_fmap. exists ch'. auto.
  - assert (Hother : item t1 row c = item t row c).
    { apply (changed_only_same _ _ _ _ _ Hone).
      intros [_ Hfind0]. apply Hfresh.
      rewrite (find_column_inj hdrs _ _ c Hfind0 Hfind).
      apply list_elem_of_fmap. exists ch. auto. }
    rewrite (IH t1 n1 Hnodup Hrun Hin Hfind).
    + unfold cell_after. rewrite Hother. reflexivity.
    + rewrite (changed_only_in_grid _ _ _ _ _ Hone). exact Hgrid.
Qed.

Lemma apply_rows_cell rows changes t n t' n' row ch c :
  NoDup rows -> NoDup (map (fun ch : change => ch.1.1) changes) ->
  apply_rows decimal hdrs rows changes t n = (t', n', None) ->
  row ∈ rows -> ch ∈ changes -> find_column hdrs ch.1.1 0 = Some c ->
  in_grid t row c = true ->
  item t' row c = cell_after decimal t row c ch.
Proof.
  intros Hrows Hnames. revert t n.
  induction rows as [|row0 rows IH]; intros t n Hrun Hrow Hin Hfind Hgrid;
    [inversion Hrow|].
  simpl in Hrun. apply NoDup_cons in Hrows as [Hfresh Hrows].
  pose proof (apply_changes_found decimal hdrs row0 changes t n) as Hone.
  pose proof (apply_changes_cell row0 changes t n) as Hcell.
  destruct (apply_changes decimal hdrs row0 changes t n)
    as [[t1 n1] [e|]]; [discriminate|].
  simpl in Hone.
  pose proof (apply_rows_found decimal hdrs rows changes t1 n1) as Hrest.
  rewrite Hrun in Hrest. simpl in Hrest.
  apply elem_of_cons in Hrow as [-> |Hrow].
  - rewrite <- (Hcell t1 n1 ch c Hnames eq_refl Hin Hfind Hgrid).
    apply (changed_only_same _ _ _ _ _ Hrest). intros [Hin' _]. tauto.
  - assert (Hother : item t1 row c = item t row c).
    { apply (changed_only_same _ _ _ _ _ Hone). intros [-> _]. tauto. }
    rewrite (IH Hrows t1 n1 Hrun Hrow Hin Hfind).
    + unfold cell_after. rewrite Hother. reflexivity.
    + rewrite (changed_only_in_grid _ _ _ _ _ Hone). exact Hgrid.
Qed.
End MassEditOnce.

(** X8. When the changes name each column at most once and each target
    row is listed once, a mass edit that ends without an exception
    leaves in every target cell inside the grid the result of the one
    change of its column applied to the text the cell held before the
    mass edit: the changes of the other columns and the other rows have
    no part in it. *)
Theorem mass_edit_one_change_per_column (decimal : N -> option N)
    (selected : list nat) (changes : list change) (ed : editor)
    (row c : nat) (ch : change) :
  let ed' := (apply_mass_changes decimal selected changes ed).1.1 in
  NoDup selected ->
  NoDup (map (fun ch : change => ch.1.1) changes) ->
  (apply_mass_changes decimal selected changes ed).2 = None ->
  row ∈ rows_to_change selected (table ed) -> ch ∈ changes ->
  find_column (headers ed) ch.1.1 0 = Some c ->
  in_grid (table ed) row c = true ->
  item (table ed') row c = cell_after decimal (table ed) row c ch.
Proof.
  intros ed' Hsel Hnames Hdone Hrow Hin Hfind Hgrid. subst ed'.
  unfold apply_mass_changes in *.
  destruct changes as [|ch0 changes]; [inversion Hin|].
  assert (Hrows : NoDup (rows_to_change selected (table ed))).
  { unfold rows_to_change. destruct selected; [apply NoDup_seq|exact Hsel]. }
  pose proof (apply_rows_cell decimal (headers ed)
                (rows_to_change selected (table ed)) (ch0 :: changes)
                (table ed) 0) as Hcell.
  destruct (apply_rows decimal (headers ed)
              (rows_to_change selected (table ed)) (ch0 :: changes)
              (table ed) 0) as [[t' n] e].
  simpl in Hdone. subst e. simpl.
  apply (Hcell t' n row ch c Hrows Hnames eq_refl Hrow Hin Hfind Hgrid).
Qed.

Lemma mass_edit_one_change_per_column_witness :
  let changes := [(py "EXP", py "multiply", py "4");
                  (py "VNUM", py "add", py "1000")] in
  item (table (apply_mass_changes ascii_digits [0%nat] changes
                 exp_editor).1.1) 0 2
  = Some (py "400").
Proof.
  intros changes.
  rewrite (mass_edit_one_change_per_column ascii_digits [0%nat] changes
             exp_editor 0 2 (py "EXP", py "multiply", py "4")).
  - reflexivity.
  - repeat constructor. intros Hin. inversion Hin.
  - apply (bool_decide_unpack _). vm_compute. exact I.
  - reflexivity.
  - left.
  - left.
  - reflexivity.
  - reflexivity.
Defined.

(** ** The changes read from the dialog *)

(** The changes come from the entries in their order, one for each
    entry that is enabled and holds a text that [float] reads. *)
Lemma get_changes_entries decimal widgets changes :
  get_changes decimal widgets = Ok changes ->
  map (fun ch : change => ch.1.1) changes
    `sublist_of` map ow_col_name widgets /\
  Forall (fun ch : change =>
            exists w x,
              w ∈ widgets /\ ow_enabled w = true /\ ow_value w <> [] /\
              py_float decimal (ow_value w) = Ok x /\
              ch = (ow_col_name w, ow_operation w, ow_value w)) changes /\
  (forall w x,
      w ∈ widgets -> ow_enabled w = true -> ow_value w <> [] ->
      py_float decimal (ow_value w) = Ok x ->
      (ow_col_name w, ow_operation w, ow_value w) ∈ changes).
Proof.
  revert changes. induction widgets as [|w widgets IH]; intros changes.
  - intros [= <-]. split; [constructor|]. split; [constructor|].
    intros w x Hin. inversion Hin.
  - simpl.
    assert (Hskip :
      (ow_enabled w = false \/ ow_value w = [] \/
       py_float decimal (ow_value w) = Raise ValueError) ->
      get_changes decimal widgets = Ok changes ->
      map (fun ch : change => ch.1.1) changes
        `sublist_of` ow_col_name w :: map ow_col_name widgets /\
      Forall (fun ch : change =>
                exists w0 x,
                  w0 ∈ w :: widgets /\ ow_enabled w0 = true /\
                  ow_value w0 <> [] /\
                  py_float decimal (ow_value w0) = Ok x /\
                  ch = (ow_col_name w0, ow_operation w0, ow_value w0))
        changes /\
      (forall w0 x,
          w0 ∈ w :: widgets -> ow_enabled w0 = true -> ow_value w0 <> [] ->
          py_float decimal (ow_value w0) = Ok x ->
          (ow_col_name w0, ow_operation w0, ow_value w0) ∈ changes)).
    { intros Hwhy Hrest. destruct (IH changes Hrest) as (Hsub & Hall & Hcomplete).
      split; [apply sublist_cons, Hsub|]. split.
      - eapply Forall_impl; [exact Hall|]. simpl.
        intros ch (w0 & x & Hin & Hrest'). exists w0, x.
        split; [now right | exact Hrest'].
      - intros w0 x Hin He Hv Hf.
        apply elem_of_cons in Hin as [-> |Hin]; [|eapply Hcomplete; eauto].
        destruct Hwhy as [Hwhy|[Hwhy|Hwhy]]; congruence. }
    destruct (ow_enabled w) eqn:He; [|apply Hskip; auto].
    destruct (ow_value w) as [|c text] eqn:Hv; [apply Hskip; auto|].
    destruct (py_float decimal (c :: text)) as [x|e] eqn:Hf.
    + destruct (get_changes decimal widgets) as [changes'|e'] eqn:Hrest;
        [|discriminate].
      simpl. intros [= <-].
      destruct (IH changes' eq_refl) as (Hsub & Hall & Hcomplete).
      split; [simpl; apply sublist_skip, Hsub|]. split.
      * constructor.
        -- exists w, x. rewrite Hv. repeat split; try assumption;
             [left | discriminate].
        -- eapply Forall_impl; [exact Hall|]. simpl.
           intros ch (w0 & x0 & Hin & Hrest'). exists w0, x0.
           split; [now right | exact Hrest'].
      * intros w0 x0 Hin He0 Hv0 Hf0.
        apply elem_of_cons in Hin as [-> |Hin].
        -- rewrite Hv. left.
        -- right. eapply Hcomplete; eauto.
    + pose proof (py_float_error _ _ _ Hf) as ->.
      apply Hskip. right. right. reflexivity.
Qed.

Lemma common_columns_NoDup : NoDup common_columns.
Proof. apply (bool_decide_unpack _). vm_compute. exact I. Qed.

Lemma dialog_columns_NoDup hdrs : NoDup (dialog_columns hdrs).
Proof. apply NoDup_filter, common_columns_NoDup. Qed.

Lemma dialog_columns_elem hdrs col_name :
  col_name ∈ dialog_columns hdrs <->
  col_name ∈ common_columns /\ col_name ∈ hdrs.
Proof.
  unfold dialog_columns. rewrite list_elem_of_filter. tauto.
Qed.

(** X9. The dialog has one entry for each of the fourteen common column
    names that is a header, in their order. The changes it returns name
    each column at most once; each names a common column that
    [apply_mass_changes] finds among the headers, and has an operand
    that [float] reads; and every entry that is enabled and holds such
    an operand gives a change. *)
Theorem dialog_changes_well_formed (decimal : N -> option N)
    (hdrs : list pystr) (widgets : list operation_widget) :
  map ow_col_name widgets = dialog_columns hdrs ->
  exists changes,
    get_changes decimal widgets = Ok changes /\
    NoDup (map (fun ch : change => ch.1.1) changes) /\
    Forall (fun ch : change =>
              ch.1.1 ∈ common_columns /\
              (exists c, find_column hdrs ch.1.1 0 = Some c) /\
              (exists x, py_float decimal ch.2 = Ok x)) changes /\
    (forall w x,
        w ∈ widgets -> ow_enabled w = true -> ow_value w <> [] ->
        py_float decimal (ow_value w) = Ok x ->
        (ow_col_name w, ow_operation w, ow_value w) ∈ changes).
Proof.
  intros Hbuilt.
  destruct (get_changes_total decimal widgets) as [changes Hget].
  destruct (get_changes_entries decimal widgets changes Hget)
    as (Hsub & Hall & Hcomplete).
  exists changes. split; [exact Hget|]. split; [|split; [|exact Hcomplete]].
  - eapply sublist_NoDup; [|exact Hsub].
    rewrite Hbuilt. apply dialog_columns_NoDup.
  - eapply Forall_impl; [exact Hall|]. simpl.
    intros ch (w & x & Hin & _ & _ & Hf & ->). simpl.
    assert (Hcol : ow_col_name w ∈ dialog_columns hdrs).
    { rewrite <- Hbuilt. apply list_elem_of_fmap. exists w. auto. }
    apply dialog_columns_elem in Hcol as [Hcommon Hhdr].
    split; [exact Hcommon|]. split; [apply find_column_elem, Hhdr | eauto].
Qed.

Lemma dialog_changes_well_formed_witness :
  let widgets := [MkWidget (py "EXP") true (py "multiply") (py "4");
                  MkWidget (py "LEVEL") true (py "add") (py "ten")] in
  get_changes ascii_digits widgets = Ok [(py "EXP", py "multiply", py "4")]
  /\ exists changes,
       get_changes ascii_digits widgets = Ok changes /\
       NoDup (map (fun ch : change => ch.1.1) changes) /\
       Forall (fun ch : change =>
                 ch.1.1 ∈ common_columns /\
                 (exists c,
                     find_column [py "VNUM"; py "EXP"; py "LEVEL"] ch.1.1 0
                     = Some c) /\
                 (exists x, py_float ascii_digits ch.2 = Ok x)) changes /\
       (forall w x,
           w ∈ widgets -> ow_enabled w = true -> ow_value w <> [] ->
           py_float ascii_digits (ow_value w) = Ok x ->
           (ow_col_name w, ow_operation w, ow_value w) ∈ changes).
Proof.
  intros widgets. split; [reflexivity|].
  apply (dialog_changes_well_formed ascii_digits
           [py "VNUM"; py "EXP"; py "LEVEL"] widgets).
  reflexivity.
Defined.

(** ** What a save leaves on the machine *)

Lemma utf8_encode_char_error c e :
  utf8_encode_char c = Raise e -> e = UnicodeEncodeError.
Proof.
  unfold utf8_encode_char.
  repeat match goal with
         | |- context [if ?b then _ else _] => destruct b
         end; congruence.
Qed.

Lemma utf8_encode_error s e :
  utf8_encode s = Raise e -> e = UnicodeEncodeError.
Proof.
  induction s as [|c s IH]; [discriminate|]. simpl.
  destruct (utf8_encode_char c) as [b|e'] eqn:Hc; simpl.
  - destruct (utf8_encode s) as [bs|e'']; simpl; [discriminate|].
    intros [= <-]. apply IH. reflexivity.
  - intros [= <-]. apply (utf8_encode_char_error c), Hc.
Qed.

(** A sequence of writes that fails has written the chunks before the
    first one that cannot be encoded, and nothing of that one. *)
Lemma write_all_stops chunks written bs e :
  write_all chunks written = (bs, Some e) ->
  exists done chunk rest before,
    chunks = done ++ chunk :: rest /\
    utf8_encode (concat done) = Ok before /\
    utf8_encode chunk = Raise e /\
    bs = written ++ before.
Proof.
  revert written. induction chunks as [|chunk chunks IH]; intros written;
    [discriminate|].
  simpl. destruct (utf8_encode chunk) as [b|e'] eqn:Hchunk.
  - intros Hrest.
    destruct (IH _ Hrest) as (done & chunk' & rest & before & -> & Hdone
                              & Hfail & ->).
    exists (chunk :: done), chunk', rest, (b ++ before).
    split; [reflexivity|]. split; [|split; [exact Hfail|]].
    + simpl. apply utf8_encode_app; assumption.
    + rewrite app_assoc. reflexivity.
  - intros [= <- <-]. exists [], chunk, chunks, [].
    split; [reflexivity|]. split; [reflexivity|].
    split; [exact Hchunk | rewrite app_nil_r; reflexivity].
Qed.

(** X10. A save touches the target and, when the target existed, the
    backup path: every other file is as it was, no backup is made for a
    target that did not exist, and the paths that can be written stay
    the same. *)
Theorem save_to_file_other_files (now : datetime) (ed : editor)
    (path : pystr) (fs : filesystem) :
  let fs' := (save_to_file now ed path fs).1 in
  (forall p, p <> path -> p <> backup_path now path ->
             files fs' !! p = files fs !! p) /\
  (files fs !! path = None ->
   files fs' !! backup_path now path = files fs !! backup_path now path) /\
  (forall p, writable fs' p = writable fs p).
Proof.
  unfold save_to_file, copy2.
  destruct (files fs !! path) as [old|] eqn:Hold.
  - destruct (writable fs (backup_path now path)); cbn [fst writable files].
    + destruct (writable fs path); cbn [fst writable files].
      * destruct (write_all _ []) as [content e]. cbn [fst writable files].
        split; [|split; [discriminate|reflexivity]].
        intros p Hp Hb. rewrite !lookup_insert_ne by congruence. reflexivity.
      * split; [|split; [discriminate|reflexivity]].
        intros p Hp Hb. rewrite lookup_insert_ne by congruence. reflexivity.
    + split; [reflexivity|]. split; [discriminate|reflexivity].
  - destruct (writable fs path); cbn [fst writable files].
    + destruct (write_all _ []) as [content e]. cbn [fst writable files].
      split; [|split; [|reflexivity]].
      * intros p Hp Hb. rewrite lookup_insert_ne by congruence. reflexivity.
      * intros _. rewrite lookup_insert_ne; [reflexivity|].
        intros Heq. apply (backup_path_fresh now path). congruence.
    + split; [reflexivity|]. split; reflexivity.
Qed.

Lemma save_to_file_other_files_witness :
  let fs := MkFs ∅ (fun _ => true) in
  files (save_to_file sample_now exp_editor proto_path fs).1
    !! backup_path sample_now proto_path
  = None.
Proof.
  intros fs.
  destruct (save_to_file_other_files sample_now exp_editor proto_path fs)
    as (_ & Hnew & _).
  rewrite Hnew; reflexivity.
Defined.

(** X11. A save that gets as far as writing can fail only with
    [UnicodeEncodeError], on a line holding a code point that UTF-8 does
    not encode. The target is then left with the lines before that one:
    the table it held is gone from it (the backup has it), and the rest
    of the grid is not written. *)
Theorem save_to_file_failed_write (now : datetime) (ed : editor)
    (path : pystr) (fs : filesystem) (e : exn) :
  writable fs path = true ->
  (files fs !! path <> None -> writable fs (backup_path now path) = true) ->
  (save_to_file now ed path fs).2 = Some e ->
  e = UnicodeEncodeError /\
  exists done line rest bs,
    written_lines (headers ed) (current_data (table ed))
    = done ++ line :: rest /\
    utf8_encode (concat done) = Ok bs /\
    utf8_encode line = Raise UnicodeEncodeError /\
    files (save_to_file now ed path fs).1 !! path = Some bs.
Proof.
  intros Hw Hbackup. unfold save_to_file, copy2.
  destruct (write_all (written_lines (headers ed) (current_data (table ed)))
              []) as [content e0] eqn:Hall.
  assert (Hstop : e0 = Some e ->
            e = UnicodeEncodeError /\
            exists done line rest bs,
              written_lines (headers ed) (current_data (table ed))
              = done ++ line :: rest /\
              utf8_encode (concat done) = Ok bs /\
              utf8_encode line = Raise UnicodeEncodeError /\
              content = bs).
  { intros ->.
    destruct (write_all_stops _ _ _ _ Hall)
      as (done & line & rest & before & Hsplit & Hdone & Hfail & ->).
    pose proof (utf8_encode_error _ _ Hfail) as ->.
    split; [reflexivity|]. exists done, line, rest, before.
    repeat split; assumption. }
  destruct (files fs !! path) as [old|] eqn:Hold.
  - rewrite Hbackup by discriminate. cbn [writable files]. rewrite Hw.
    cbn [fst snd files]. intros He0.
    destruct (Hstop He0) as (-> & done & line & rest & bs & H1 & H2 & H3 & ->).
    split; [reflexivity|]. exists done, line, rest, bs.
    repeat split; try assumption. apply lookup_insert_eq.
  - rewrite Hw. cbn [fst snd files]. intros He0.
    destruct (Hstop He0) as (-> & done & line & rest & bs & H1 & H2 & H3 & ->).
    split; [reflexivity|]. exists done, line, rest, bs.
    repeat split; try assumption. apply lookup_insert_eq.
Qed.

Lemma save_to_file_failed_write_witness :
  let ed := (setup_table
               (MkEditor None [[py "1"; [55296]]; [py "2"; py "b"]]
                  [py "A"; py "B"] ∅ None empty_grid)).1 in
  files (save_to_file sample_now ed proto_path open_fs).1 !! proto_path
  = Some (bytes "A" ++ [x09] ++ bytes "B" ++ [x0a])
  /\ UnicodeEncodeError = UnicodeEncodeError.
Proof.
  intros ed. split; [reflexivity|].
  apply (save_to_file_failed_write sample_now ed proto_path open_fs
           UnicodeEncodeError); reflexivity.
Defined.

(** ** The search filter *)

Lemma starts_with_prefix p s :
  starts_with p s = true <-> exists post, s = p ++ post.
Proof.
  revert s. induction p as [|a p IH]; intros s.
  - simpl. split; [eauto|reflexivity].
  - destruct s as [|b s]; simpl.
    + split; [discriminate | intros [post Hpost]; discriminate].
    + rewrite andb_true_iff, N.eqb_eq, IH. split.
      * intros [-> [post ->]]. eauto.
      * intros [post [= -> ->]]. eauto.
Qed.

(** [contains] is the substring test. *)
Lemma contains_substring needle hay :
  contains needle hay = true <-> exists pre post, hay = pre ++ needle ++ post.
Proof.
  induction hay as [|c hay IH].
  - simpl. rewrite orb_false_r, starts_with_prefix. split.
    + intros [post Hpost]. exists [], post. exact Hpost.
    + intros (pre & post & Heq). symmetry in Heq.
      apply app_eq_nil in Heq as [-> Heq]. eauto.
  - simpl. rewrite orb_true_iff, starts_with_prefix, IH. split.
    + intros [[post Hpost]|(pre & post & ->)].
      * exists [], post. exact Hpost.
      * exists (c :: pre), post. reflexivity.
    + intros (pre & post & Heq). destruct pre as [|d pre].
      * left. eauto.
      * right. injection Heq as -> ->. eauto.
Qed.

Lemma contains_trans a b c :
  contains a b = true -> contains b c = true -> contains a c = true.
Proof.
  rewrite !contains_substring.
  intros (pre1 & post1 & ->) (pre2 & post2 & ->).
  exists (pre2 ++ pre1), (post1 ++ post2). rewrite <- !app_assoc. reflexivity.
Qed.

Lemma contains_map (f : N -> N) shorter longer :
  contains shorter longer = true ->
  contains (map f shorter) (map f longer) = true.
Proof.
  rewrite !contains_substring. intros (pre & post & ->).
  exists (map f pre), (map f post). rewrite !map_app. reflexivity.
Qed.

(** X12. The search filter gives one flag for each row of the grid.
    With an empty search text no row is hidden. A row shown for a
    search text is shown for every search text whose lower-case form is
    contained in the lower-case form of the first. When lower-casing
    works character by character, this is the case for every text
    contained in the first, and typing more can then only hide more
    rows; for a lower-casing that looks at the neighbours of a
    character, as [str.lower] does for the final sigma, containment of
    the texts is not enough. And a row is judged by its cells in the
    first two columns alone. *)
Theorem filter_data_narrows (lower : pystr -> pystr) (t : QTable) :
  (forall search_box,
      length (filter_data lower search_box t) = rowCount t) /\
  (forall search_box,
      lower search_box = [] ->
      filter_data lower search_box t = replicate (rowCount t) false) /\
  (forall shorter longer row,
      contains (lower shorter) (lower longer) = true ->
      filter_data lower longer t !! row = Some false ->
      filter_data lower shorter t !! row = Some false) /\
  (forall f : N -> N,
      (forall s, lower s = map f s) ->
      forall shorter longer row,
        contains shorter longer = true ->
        filter_data lower longer t !! row = Some false ->
        filter_data lower shorter t !! row = Some false) /\
  (forall search_box t',
      rowCount t' = rowCount t ->
      (forall row, item t' row 0 = item t row 0) ->
      (forall row, item t' row 1 = item t row 1) ->
      filter_data lower search_box t' = filter_data lower search_box t).
Proof.
  assert (Hnarrow : forall shorter longer row,
             contains (lower shorter) (lower longer) = true ->
             filter_data lower longer t !! row = Some false ->
             filter_data lower shorter t !! row = Some false).
  { intros shorter longer row Hsub. unfold filter_data.
    rewrite !list_lookup_fmap.
    destruct (seq 0 (rowCount t) !! row) as [r|]; [|discriminate].
    simpl. intros [= Hshown]. f_equal.
    apply negb_false_iff in Hshown. apply negb_false_iff.
    unfold show_row in *.
    destruct (lower shorter) as [|c s] eqn:Hs; [reflexivity|].
    destruct (lower longer) as [|d l] eqn:Hl.
    - apply contains_substring in Hsub as (pre & post & Heq).
      destruct pre; discriminate.
    - apply orb_true_iff in Hshown. apply orb_true_iff.
      destruct Hshown as [Hshown|Hshown]; [left|right];
        exact (contains_trans _ _ _ Hsub Hshown). }
  split; [|split; [|split; [exact Hnarrow|split]]].
  - intros search_box. unfold filter_data.
    rewrite length_map, length_seq. reflexivity.
  - intros search_box Hempty. unfold filter_data, show_row. rewrite Hempty.
    generalize 0%nat. induction (rowCount t) as [|n IH]; intros start;
      [reflexivity|].
    simpl. f_equal. apply IH.
  - intros f Hf shorter longer row Hsub. apply Hnarrow.
    rewrite !Hf. apply contains_map, Hsub.
  - intros search_box t' Hrows Hzero Hone. unfold filter_data.
    rewrite Hrows. apply map_ext. intros row. unfold show_row.
    rewrite Hzero, Hone. reflexivity.
Qed.

Lemma filter_data_narrows_witness :
  let t := table exp_editor in
  filter_data (map lower) (py "WOLF") t = [false; true]
  /\ filter_data (map lower) (py "Wo") t !! 0%nat = Some false
  /\ filter_data (map lower) (py "OL") t !! 0%nat = Some false.
Proof.
  intros t. split; [reflexivity|].
  destruct (filter_data_narrows (map lower) t)
    as (_ & _ & Hnarrow & Hchars & _).
  split.
  - apply (Hnarrow (py "Wo") (py "WOLF") 0%nat); reflexivity.
  - apply (Hchars lower ltac:(reflexivity) (py "OL") (py "WOLF") 0%nat);
      reflexivity.
Defined.

(** With the final sigma of [str.lower] the lower-case form of a text
    need not contain that of a text it contains: the mob named with the
    small letters alpha, sigma, alpha is hidden for the search text
    Alpha Sigma and shown again when Alpha is typed after it. *)
Example filter_data_final_sigma :
  let t := setItem (MkQTable 1 2 ∅) 0 1 [945; 963; 945] in
  contains [913; 931] [913; 931; 913] = true
  /\ filter_data greek_lower [913; 931] t = [true]
  /\ filter_data greek_lower [913; 931; 913] t = [false].
Proof. repeat split. Qed.

(** ** Repairing the name file *)

(** Both repair chains are the replacement of U+FFFD by a-umlaut. *)
Lemma fix_name_map name : fix_name name = map to_a_umlaut name.
Proof.
  unfold fix_name.
  change (apply_fixes name_fixes name)
    with (apply_fixes (tail name_fixes) (replace [REPLACEMENT] [a_uml] name)).
  rewrite replace_char.
  apply apply_fixes_absent;
    [exact name_fixes_patterns | apply to_a_umlaut_clean].
Qed.

Lemma fix_line_map line : fix_line line = map to_a_umlaut line.
Proof.
  unfold fix_line.
  change (apply_fixes line_fixes line)
    with (apply_fixes (tail line_fixes) (replace [REPLACEMENT] [a_uml] line)).
  rewrite replace_char.
  apply apply_fixes_absent;
    [exact line_fixes_patterns | apply to_a_umlaut_clean].
Qed.

Lemma to_a_umlaut_id s : REPLACEMENT ∉ s -> map to_a_umlaut s = s.
Proof.
  induction s as [|c s IH]; [reflexivity|]. intros Hnot.
  apply not_elem_of_cons in Hnot as [Hc Hs]. simpl. rewrite (IH Hs).
  unfold to_a_umlaut. rewrite (proj2 (N.eqb_neq c REPLACEMENT)) by congruence.
  reflexivity.
Qed.

(** A line is changed by the repair exactly when it holds U+FFFD. *)
Lemma fix_line_changed line : fix_line line <> line <-> REPLACEMENT ∈ line.
Proof.
  rewrite fix_line_map. split.
  - intros Hne. destruct (decide (REPLACEMENT ∈ line)) as [Hin|Hnot];
      [exact Hin|]. destruct Hne. apply to_a_umlaut_id, Hnot.
  - intros Hin Heq. apply (to_a_umlaut_clean line). rewrite Heq. exact Hin.
Qed.

Lemma count_changes_damaged lines :
  count_changes lines
  = length (filter (fun line => REPLACEMENT ∈ line) lines).
Proof.
  induction lines as [|line lines IH]; [reflexivity|]. simpl.
  rewrite filter_cons.
  destruct (decide (REPLACEMENT ∈ line)) as [Hin|Hnot].
  - rewrite bool_decide_eq_true_2 by (apply fix_line_changed, Hin).
    simpl. rewrite IH. reflexivity.
  - rewrite bool_decide_eq_false_2
      by (intros Hne; apply Hnot, fix_line_changed, Hne).
    exact IH.
Qed.

Lemma write_all_done chunks written bs :
  write_all chunks written = (bs, None) ->
  exists b, utf8_encode (concat chunks) = Ok b /\ bs = written ++ b.
Proof.
  revert written. induction chunks as [|chunk chunks IH]; intros written.
  - intros [= <-]. exists []. split; [reflexivity|].
    rewrite app_nil_r. reflexivity.
  - simpl. destruct (utf8_encode chunk) as [b|e] eqn:Hchunk; [|discriminate].
    intros Hrest. destruct (IH _ Hrest) as (b' & Henc & ->).
    exists (b ++ b'). split; [apply utf8_encode_app; assumption|].
    rewrite app_assoc. reflexivity.
Qed.

(** [setup_table] and [load_mob_names] leave the header and the path. *)
Lemma setup_table_keeps ed :
  headers (setup_table ed).1 = headers ed /\
  mob_names (setup_table ed).1 = mob_names ed /\
  file_path (setup_table ed).1 = file_path ed.
Proof.
  unfold setup_table.
  destruct (setup_rows (mob_names ed) (headers ed) 0 (data ed) _)
    as [[d t] e].
  repeat split.
Qed.

(** X13. When the repair of the name file reports success, the file was
    read by one of the five candidates; the backup named in the report
    holds the bytes the file had; the file now holds, as UTF-8, the
    lines read with every U+FFFD replaced by a-umlaut; the count
    reported is the number of lines that held a U+FFFD; and the names
    of the editor are those read again from the new file, starting from
    none. The header stays. *)
Theorem fix_mob_names_file_fixed (lib : codec_library) (now : datetime)
    (path : pystr) (fs : filesystem) (ed : editor) :
  forall fs' ed' n backup,
    fix_mob_names_file lib now path fs ed = (fs', ed', Fixed n backup) ->
    exists content lines encoding bs,
      files fs !! path = Some content /\
      read_names_loop lib names_encodings content
      = Ok (Some (lines, encoding)) /\
      backup = backup_path now path /\
      files fs' !! backup = Some content /\
      utf8_encode (concat (map (map to_a_umlaut) lines)) = Ok bs /\
      files fs' !! path = Some bs /\
      n = length (filter (fun line => REPLACEMENT ∈ line) lines) /\
      mob_names ed' = load_names_loop lib names_encodings bs ∅ /\
      headers ed' = headers ed.
Proof.
  intros fs' ed' n backup. unfold fix_mob_names_file, copy2.
  destruct (files fs !! path) as [content|] eqn:Hfile; [|discriminate].
  destruct (writable fs (backup_path now path)); [|discriminate].
  destruct (read_names_loop lib names_encodings content)
    as [[[lines encoding]|]|e] eqn:Hread; try discriminate.
  cbn [writable files].
  destruct (writable fs path); [|discriminate].
  destruct (write_all (map fix_line lines) []) as [content' e] eqn:Hwrite.
  destruct e as [e|]; [discriminate|].
  apply write_all_done in Hwrite as (bs & Henc & ->). simpl app.
  set (fs2 := MkFs (<[path := bs]>
                      (<[backup_path now path := content]> (files fs)))
                (writable fs)).
  assert (Hnames : load_mob_names lib path fs2 (set_mob_names ∅ ed)
                   = set_mob_names (load_names_loop lib names_encodings bs ∅)
                       ed).
  { unfold load_mob_names. subst fs2. cbn [files].
    rewrite lookup_insert_eq. reflexivity. }
  rewrite Hnames.
  set (ed1 := set_mob_names (load_names_loop lib names_encodings bs ∅) ed).
  assert (Hfiles : files fs2 !! backup_path now path = Some content /\
                   files fs2 !! path = Some bs).
  { subst fs2. cbn [files]. split; [|apply lookup_insert_eq].
    rewrite lookup_insert_ne by (apply not_eq_sym, backup_path_fresh).
    apply lookup_insert_eq. }
  assert (Hlines : map fix_line lines = map (map to_a_umlaut) lines)
    by (apply map_ext, fix_line_map).
  rewrite Hlines in Henc. rewrite count_changes_damaged.
  destruct Hfiles as [Hb Hp].
  destruct (data ed1) as [|row rows] eqn:Hdata.
  - intros [= <- <- <- <-]. exists content, lines, encoding, bs.
    repeat split; assumption.
  - pose proof (setup_table_keeps ed1) as (Hh & Hn & _).
    destruct (setup_table ed1) as [ed2 [e|]]; [discriminate|].
    intros [= <- <- <- <-]. exists content, lines, encoding, bs.
    repeat split; assumption.
Qed.

Lemma fix_mob_names_file_fixed_witness :
  exists fs' ed',
    fix_mob_names_file utf8_fffd sample_now names_path names_fs sample_editor
    = (fs', ed',
       Fixed 1 (py "mob_names.txt.backup_20261103_093507")) /\
    exists content lines encoding bs,
      files names_fs !! names_path = Some content /\
      read_names_loop utf8_fffd names_encodings content
      = Ok (Some (lines, encoding)) /\
      py "mob_names.txt.backup_20261103_093507"
      = backup_path sample_now names_path /\
      files fs' !! py "mob_names.txt.backup_20261103_093507" = Some content /\
      utf8_encode (concat (map (map to_a_umlaut) lines)) = Ok bs /\
      files fs' !! names_path = Some bs /\
      1%nat = length (filter (fun line => REPLACEMENT ∈ line) lines) /\
      mob_names ed' = load_names_loop utf8_fffd names_encodings bs ∅ /\
      headers ed' = headers sample_editor.
Proof.
  eexists. eexists. split; [vm_compute; reflexivity|].
  eapply (fix_mob_names_file_fixed utf8_fffd sample_now names_path names_fs
            sample_editor).
  vm_compute. reflexivity.
Defined.

(** X14. The repair of a name file that exists starts with the backup.
    When the backup cannot be made, nothing is changed. Otherwise the
    backup holds the bytes the file had, whatever happens next; when no
    candidate reads the file, the backup is all that was done; and no
    file other than the name file and the backup is touched. *)
Theorem fix_mob_names_file_keeps_original (lib : codec_library)
    (now : datetime) (path : pystr) (fs : filesystem) (ed : editor)
    (old : list byte) :
  files fs !! path = Some old ->
  let backup := backup_path now path in
  let done := fix_mob_names_file lib now path fs ed in
  (writable fs backup = false -> done = (fs, ed, FixFailed OSError)) /\
  (writable fs backup = true -> files done.1.1 !! backup = Some old) /\
  (done.2 = CouldNotRead ->
   done.1.1 = MkFs (<[backup := old]> (files fs)) (writable fs) /\
   done.1.2 = ed) /\
  (forall p, p <> path -> p <> backup ->
             files done.1.1 !! p = files fs !! p).
Proof.
  intros Hold backup done. subst done.
  unfold fix_mob_names_file, copy2. rewrite Hold. fold backup.
  assert (Hfresh : backup <> path) by apply backup_path_fresh.
  destruct (writable fs backup).
  2:{ split; [reflexivity|]. split; [discriminate|].
      split; [discriminate|reflexivity]. }
  split; [discriminate|].
  destruct (read_names_loop lib names_encodings old)
    as [[[lines encoding]|]|e]; cbn [fst snd files writable].
  - destruct (writable fs path).
    + destruct (write_all (map fix_line lines) []) as [content' [e|]];
        cbn [fst snd files writable].
      * split; [intros _|split; [discriminate|]].
        -- rewrite lookup_insert_ne by congruence. apply lookup_insert_eq.
        -- intros p Hp Hb. rewrite !lookup_insert_ne by congruence.
           reflexivity.
      * set (fs2 := MkFs (<[path := content']>
                            (<[backup := old]> (files fs))) (writable fs)).
        assert (Hb : files fs2 !! backup = Some old).
        { subst fs2. cbn [files].
          rewrite lookup_insert_ne by congruence. apply lookup_insert_eq. }
        assert (Hp : forall p, p <> path -> p <> backup ->
                               files fs2 !! p = files fs !! p).
        { intros p Hp Hpb. subst fs2. cbn [files].
          rewrite !lookup_insert_ne by congruence. reflexivity. }
        destruct (data (load_mob_names lib path fs2 (set_mob_names ∅ ed))).
        -- cbn [fst snd]. split; [auto|]. split; [discriminate|exact Hp].
        -- destruct (setup_table _) as [ed2 [e|]]; cbn [fst snd];
             (split; [auto|]); (split; [discriminate|exact Hp]).
    + cbn [fst snd files]. split; [intros _; apply lookup_insert_eq|].
      split; [discriminate|].
      intros p Hp Hb. rewrite lookup_insert_ne by congruence. reflexivity.
  - split; [intros _; apply lookup_insert_eq|].
    split; [intros _; split; reflexivity|].
    intros p Hp Hb. rewrite lookup_insert_ne by congruence. reflexivity.
  - split; [intros _; apply lookup_insert_eq|].
    split; [discriminate|].
    intros p Hp Hb. rewrite lookup_insert_ne by congruence. reflexivity.
Qed.

Lemma fix_mob_names_file_keeps_original_witness :
  (fix_mob_names_file no_codec sample_now names_path names_fs
     sample_editor).2 = CouldNotRead
  /\ files (fix_mob_names_file no_codec sample_now names_path names_fs
              sample_editor).1.1
       !! backup_path sample_now names_path
     = Some damaged_names.
Proof.
  split; [reflexivity|].
  destruct (fix_mob_names_file_keeps_original no_codec sample_now names_path
              names_fs sample_editor damaged_names eq_refl)
    as (_ & Hbackup & _).
  apply Hbackup. reflexivity.
Defined.

(** *** The candidates that read one byte as one character *)

Lemma readlines_chars (P : N -> Prop) text :
  P LF -> Forall P text -> Forall (Forall P) (readlines text).
Proof.
  intros HLF Htext. apply keep_lines_chars, universal_newlines_chars;
    assumption.
Qed.

Lemma latin1_decode_clean content : REPLACEMENT ∉ latin1_decode content.
Proof.
  unfold latin1_decode. intros Hin.
  apply list_elem_of_fmap in Hin as (b & Hb & _).
  pose proof (Byte.to_N_bounded b) as Hle. rewrite <- Hb in Hle.
  unfold REPLACEMENT in Hle. lia.
Qed.

Lemma clean_lines_unchanged lines :
  Forall (Forall (fun c => c <> REPLACEMENT)) lines ->
  map fix_line lines = lines /\ count_changes lines = 0%nat.
Proof.
  intros Hclean.
  assert (Hnot : Forall (fun line => REPLACEMENT ∉ line) lines).
  { eapply Forall_impl; [exact Hclean|]. simpl. intros line Hline Hin.
    rewrite Forall_forall in Hline. exact (Hline _ Hin eq_refl). }
  split.
  - rewrite <- (map_id lines) at 2. apply map_ext_Forall.
    eapply Forall_impl; [exact Hnot|]. simpl. intros line Hline.
    rewrite fix_line_map. apply to_a_umlaut_id, Hline.
  - rewrite count_changes_damaged. clear Hclean.
    induction Hnot as [|line lines Hline _ IH]; [reflexivity|].
    rewrite filter_cons_False by exact Hline. exact IH.
Qed.

Lemma clean_text_lines text :
  REPLACEMENT ∉ text ->
  Forall (Forall (fun c => c <> REPLACEMENT)) (readlines text).
Proof.
  intros Hnot. apply readlines_chars; [discriminate|].
  apply Forall_forall. intros c Hin ->. exact (Hnot Hin).
Qed.

(** X15. The repair reads the name file with cp1252, then iso-8859-1,
    before any other candidate. When cp1252 is a codec that never yields
    U+FFFD and iso-8859-1 reads every byte as the character of the same
    number, as the codecs of these names do, one of the two reads the
    file and the text read holds no U+FFFD: utf-8 is never tried, no
    line is changed, and the count reported by a successful run is
    zero. *)
Theorem fix_mob_names_file_single_byte_codecs (lib : codec_library)
    (now : datetime) (path : pystr) (fs : filesystem) (ed : editor)
    (content : list byte) :
  files fs !! path = Some content ->
  (forall e, lib (py "cp1252") content = Raise e -> e = UnicodeDecodeError) ->
  (forall text, lib (py "cp1252") content = Ok text -> REPLACEMENT ∉ text) ->
  lib (py "iso-8859-1") content = Ok (latin1_decode content) ->
  (exists lines encoding,
      read_names_loop lib names_encodings content
      = Ok (Some (lines, encoding)) /\
      encoding ∈ [py "cp1252"; py "iso-8859-1"] /\
      map fix_line lines = lines) /\
  (forall n backup,
      (fix_mob_names_file lib now path fs ed).2 = Fixed n backup ->
      n = 0%nat).
Proof.
  intros Hfile Hfail Hclean Hiso.
  assert (Hread : exists lines encoding,
             read_names_loop lib names_encodings content
             = Ok (Some (lines, encoding)) /\
             encoding ∈ [py "cp1252"; py "iso-8859-1"] /\
             Forall (Forall (fun c => c <> REPLACEMENT)) lines).
  { unfold names_encodings. cbn [read_names_loop].
    destruct (lib (py "cp1252") content) as [text|e] eqn:Hcp.
    - exists (readlines text), (py "cp1252"). split; [reflexivity|].
      split; [left|]. apply clean_text_lines, Hclean. reflexivity.
    - rewrite (Hfail e eq_refl). cbn [mbind result_bind]. rewrite Hiso.
      exists (readlines (latin1_decode content)), (py "iso-8859-1").
      split; [reflexivity|]. split; [right; left|].
      apply clean_text_lines, latin1_decode_clean. }
  destruct Hread as (lines & encoding & Hread & Henc & Hlines).
  destruct (clean_lines_unchanged lines Hlines) as [Hsame Hcount].
  split; [exists lines, encoding; auto|].
  intros n backup. unfold fix_mob_names_file. rewrite Hfile.
  destruct (copy2 path (backup_path now path) fs) as [fs1|e];
    [|discriminate].
  rewrite Hread, Hcount.
  destruct (writable fs1 path); [|discriminate].
  destruct (write_all (map fix_line lines) []) as [content' [e|]];
    [discriminate|].
  destruct (data _); [intros [= <- _]; reflexivity|].
  destruct (setup_table _) as [ed2 [e|]]; [discriminate|].
  intros [= <- _]. reflexivity.
Qed.

Lemma fix_mob_names_file_single_byte_codecs_witness :
  (fix_mob_names_file iso_8859_1_only sample_now names_path names_fs
     sample_editor).2
  = Fixed 0 (backup_path sample_now names_path)
  /\ 0%nat = 0%nat.
Proof.
  split; [vm_compute; reflexivity|].
  destruct (fix_mob_names_file_single_byte_codecs iso_8859_1_only sample_now
              names_path names_fs sample_editor damaged_names)
    as [_ Hzero].
  - reflexivity.
  - intros e [= <-]. reflexivity.
  - intros text [=].
  - reflexivity.
  - apply (Hzero 0%nat (backup_path sample_now names_path)).
    vm_compute. reflexivity.
Defined.

(** ** The names read from the name file *)

Lemma lstrip_snoc s c :
  is_space c = false -> lstrip (s ++ [c]) = lstrip s ++ [c].
Proof.
  intros Hc. induction s as [|a s IH]; simpl.
  - rewrite Hc. reflexivity.
  - destruct (is_space a); [exact IH | reflexivity].
Qed.

Lemma strip_cons c f :
  is_space c = false -> strip (c :: f) = c :: rstrip f.
Proof.
  intros Hc. unfold strip. rewrite (lstrip_id c f Hc). unfold rstrip.
  simpl rev. rewrite (lstrip_snoc _ c Hc), rev_app_distr. reflexivity.
Qed.

Lemma strip_first c s : strip s = c :: tail (strip s) -> is_space c = false.
Proof.
  intros Hs. destruct (is_space c) eqn:Hc; [|reflexivity].
  pose proof (strip_idempotent s) as Hidem. rewrite Hs in Hidem.
  unfold strip in Hidem at 1. simpl in Hidem. rewrite Hc in Hidem.
  apply (f_equal length) in Hidem. simpl in Hidem.
  pose proof (rstrip_length (lstrip (tail (strip s)))) as H1.
  pose proof (lstrip_length (tail (strip s))) as H2. lia.
Qed.

(** The first field of a stripped line that is not blank is not blank
    either. *)
Lemma split_first_field c s :
  is_space c = false ->
  exists f fs, split TAB (c :: s) = (c :: f) :: fs.
Proof.
  intros Hc. simpl.
  assert (Hne : (c =? TAB) = false).
  { apply N.eqb_neq. intros ->. discriminate. }
  rewrite Hne. destruct (split TAB s) as [|f fs]; eauto.
Qed.

(** An entry that [add_name_line] adds from a line of the name file: the
    key is not empty and is left alone by [strip]; neither the key nor
    the name holds a tab or a line end, and the name holds no U+FFFD. *)
Lemma add_name_line_entry names line body k v :
  line = body ++ [LF] \/ line = body ->
  Forall (fun c => c <> LF /\ c <> CR) body ->
  add_name_line names line !! k = Some v ->
  names !! k = Some v \/
  (k <> [] /\ strip k = k /\ Forall plain_char k /\ Forall plain_char v
   /\ REPLACEMENT ∉ v).
Proof.
  intros Hline Hbody. unfold add_name_line.
  assert (Hstrip : strip line = strip body).
  { destruct Hline as [-> | ->]; [|reflexivity].
    apply strip_app_spaces. repeat constructor. }
  rewrite Hstrip.
  destruct (strip body) as [|c s] eqn:Hs; [auto|].
  case_bool_decide; [|auto].
  assert (Hc : is_space c = false).
  { apply (strip_first c body). rewrite Hs. reflexivity. }
  pose proof (split_fields (c :: s)) as Hfields.
  destruct (split_first_field c s Hc) as (f & fs & Hsplit).
  rewrite Hsplit in *. destruct fs as [|p1 rest]; [auto|].
  assert (Hplain : forall p, p ∈ (c :: f) :: p1 :: rest ->
                             Forall plain_char (strip p)).
  { intros p Hp. rewrite Forall_forall in Hfields.
    destruct (Hfields p Hp) as [Htab Hsub].
    apply Forall_forall. intros x Hx. apply strip_elem in Hx.
    assert (Hx' : x ∈ body).
    { apply strip_elem. rewrite Hs. apply Hsub, Hx. }
    rewrite Forall_forall in Hbody. destruct (Hbody x Hx') as [HLF HCR].
    repeat split; try assumption. intros ->. exact (Htab Hx). }
  destruct (decide (k = strip (c :: f))) as [->|Hk].
  - rewrite lookup_insert_eq. intros [= <-]. right.
    split; [rewrite (strip_cons c f Hc); discriminate|].
    split; [apply strip_idempotent|].
    split; [apply Hplain; left|].
    rewrite fix_name_map. split; [|apply to_a_umlaut_clean].
    apply Forall_map. eapply Forall_impl; [apply (Hplain p1); right; left|].
    simpl. intros x Hx. unfold to_a_umlaut.
    destruct (x =? REPLACEMENT); [|exact Hx].
    repeat split; discriminate.
  - rewrite lookup_insert_ne by congruence. auto.
Qed.

Lemma parse_lines_entries lines names k v :
  Forall (fun line => exists body,
              (line = body ++ [LF] \/ line = body) /\
              Forall (fun c => c <> LF /\ c <> CR) body) lines ->
  fold_left add_name_line lines names !! k = Some v ->
  names !! k = Some v \/
  (k <> [] /\ strip k = k /\ Forall plain_char k /\ Forall plain_char v
   /\ REPLACEMENT ∉ v).
Proof.
  intros Hlines. revert names.
  induction Hlines as [|line lines (body & Hline & Hbody) _ IH];
    intros names; [auto|].
  simpl. intros Hk. destruct (IH _ Hk) as [Hold|Hnew]; [|auto].
  apply (add_name_line_entry names line body k v Hline Hbody Hold).
Qed.

Lemma readlines_shape text :
  Forall (fun line => exists body,
              (line = body ++ [LF] \/ line = body) /\
              Forall (fun c => c <> LF /\ c <> CR) body) (readlines text).
Proof.
  unfold readlines.
  eapply Forall_impl; [apply keep_lines_shape|]. simpl.
  intros line (body & Hline & HLF & Hsub). exists body.
  split; [exact Hline|]. apply Forall_forall. intros c Hc.
  split; [intros ->; exact (HLF Hc)|].
  intros ->. exact (universal_newlines_no_CR text (Hsub _ Hc)).
Qed.

Lemma parse_names_entries text names k v :
  parse_names (readlines text) names !! k = Some v ->
  names !! k = Some v \/
  (k <> [] /\ strip k = k /\ Forall plain_char k /\ Forall plain_char v
   /\ REPLACEMENT ∉ v).
Proof.
  unfold parse_names. apply parse_lines_entries.
  pose proof (readlines_shape text) as Hshape.
  destruct (readlines text) as [|l ls]; [constructor|].
  simpl. inversion Hshape. assumption.
Qed.

Section LoadNames.
Variable lib : codec_library.
Variable content : list byte.

Lemma load_names_loop_entries encodings names k v :
  load_names_loop lib encodings content names !! k = Some v ->
  names !! k = Some v \/
  (k <> [] /\ strip k = k /\ Forall plain_char k /\ Forall plain_char v
   /\ REPLACEMENT ∉ v).
Proof.
  revert names. induction encodings as [|encoding encodings IH];
    intros names; [auto|].
  simpl. destruct (lib encoding content) as [text|e]; simpl.
  - case_bool_decide as Hempty.
    + intros Hk. destruct (IH _ Hk) as [Hold|Hnew]; [|auto].
      apply (parse_names_entries text names k v Hold).
    + apply parse_names_entries.
  - destruct e; apply IH.
Qed.

(** Started without names, the loop gives the names of one pass: those
    parsed from the text of one candidate. *)
Lemma load_names_loop_pass encodings :
  load_names_loop lib encodings content ∅ = ∅ \/
  exists before encoding after text,
    encodings = before ++ encoding :: after /\
    lib encoding content = Ok text /\
    (forall e text',
        e ∈ before -> lib e content = Ok text' ->
        parse_names (readlines text') ∅ = ∅) /\
    load_names_loop lib encodings content ∅
    = parse_names (readlines text) ∅.
Proof.
  induction encodings as [|encoding encodings IH]; [left; reflexivity|].
  simpl. destruct (lib encoding content) as [text|e] eqn:Henc; simpl.
  - case_bool_decide as Hempty.
    + rewrite Hempty. destruct IH as [IH|IH]; [left; exact IH|]. right.
      destruct IH as (before & enc & after & text' & -> & Hok & Hbefore & Hres).
      exists (encoding :: before), enc, after, text'.
      split; [reflexivity|]. split; [exact Hok|]. split; [|exact Hres].
      intros e0 t0 Hin Ht0. apply elem_of_cons in Hin as [-> |Hin].
      * rewrite Henc in Ht0. injection Ht0 as <-. exact Hempty.
      * eapply Hbefore; eauto.
    + right. exists [], encoding, encodings, text.
      split; [reflexivity|]. split; [exact Henc|]. split; [|reflexivity].
      intros e0 t0 Hin. inversion Hin.
  - assert (Hskip : (match e with
                     | UnicodeDecodeError | _ =>
                         load_names_loop lib encodings content ∅
                     end) = load_names_loop lib encodings content ∅)
      by (destruct e; reflexivity).
    rewrite Hskip. destruct IH as [IH|IH]; [left; exact IH|]. right.
    destruct IH as (before & enc & after & text' & -> & Hok & Hbefore & Hres).
    exists (encoding :: before), enc, after, text'.
    split; [reflexivity|]. split; [exact Hok|]. split; [|exact Hres].
    intros e0 t0 Hin Ht0. apply elem_of_cons in Hin as [-> |Hin].
    + congruence.
    + eapply Hbefore; eauto.
Qed.
End LoadNames.

(** X16. Reading the name file changes nothing but the names, and
    nothing at all when the file does not exist. Every entry it adds
    has a key that is not empty and has no white space around it, and
    neither the key nor the name holds a tab, a line feed or a carriage
    return, so that a name put in a row cannot break the line written
    for that row; the name holds no U+FFFD. Started without names, the
    names it leaves are those of one pass: the first candidate whose
    text gives at least one name. *)
Theorem load_mob_names_entries (lib : codec_library) (path : pystr)
    (fs : filesystem) (ed : editor) :
  let ed' := load_mob_names lib path fs ed in
  (headers ed' = headers ed /\ data ed' = data ed /\ table ed' = table ed) /\
  (files fs !! path = None -> ed' = ed) /\
  (forall k v,
      mob_names ed' !! k = Some v ->
      mob_names ed !! k = Some v \/
      (k <> [] /\ strip k = k /\ Forall plain_char k /\ Forall plain_char v
       /\ REPLACEMENT ∉ v)) /\
  (mob_names ed = ∅ ->
   mob_names ed' = ∅ \/
   exists content before encoding after text,
     files fs !! path = Some content /\
     names_encodings = before ++ encoding :: after /\
     lib encoding content = Ok text /\
     (forall e text',
         e ∈ before -> lib e content = Ok text' ->
         parse_names (readlines text') ∅ = ∅) /\
     mob_names ed' = parse_names (readlines text) ∅).
Proof.
  unfold load_mob_names.
  destruct (files fs !! path) as [content|] eqn:Hfile; cbn zeta.
  - split; [repeat split|]. split; [discriminate|]. split.
    + intros k v. apply load_names_loop_entries.
    + intros Hnone. cbn [mob_names set_mob_names]. rewrite Hnone.
      destruct (load_names_loop_pass lib content names_encodings)
        as [Hempty|(before & encoding & after & text & H1 & H2 & H3 & H4)];
        [left; exact Hempty|].
      right. exists content, before, encoding, after, text. auto.
  - split; [repeat split|]. split; [reflexivity|]. split; auto.
Qed.

Lemma load_mob_names_entries_witness :
  let ed' := load_mob_names utf8_fffd names_path names_fs sample_editor in
  let name := py "B" ++ [a_uml] ++ py "ser" in
  mob_names ed' !! py "101" = Some name
  /\ (mob_names sample_editor !! py "101" = Some name \/
      (py "101" <> [] /\ strip (py "101") = py "101"
       /\ Forall plain_char (py "101") /\ Forall plain_char name
       /\ REPLACEMENT ∉ name)).
Proof.
  intros ed' name. split; [vm_compute; reflexivity|].
  destruct (load_mob_names_entries utf8_fffd names_path names_fs
              sample_editor) as (_ & _ & Hentries & _).
  apply Hentries. vm_compute. reflexivity.
Defined.

(** ** Reading back the text of a table *)

(** The text written for a table of fields without tabs and line ends,
    padded as the loader pads, is read back as that table. *)
Lemma load_written_table hdrs rows :
  roundtrip_ready hdrs rows ->
  load_text (table_text hdrs rows) = Some (ProtoTable hdrs rows).
Proof.
  intros [Hh Hrows]. unfold load_text, table_text, written_lines.
  set (n := length hdrs) in *.
  assert (Hlines :
    (join [TAB] hdrs ++ [LF])
    :: map (fun row_data => join [TAB] row_data ++ [LF]) rows
    = map written
        ((join [TAB] hdrs, O)
         :: map (fun row => (join [TAB] (trim_empty row),
                             (n - length (trim_empty row))%nat)) rows)).
  { cbn [map]. f_equal.
    rewrite map_map. apply map_ext_Forall.
    eapply Forall_impl; [exact Hrows|]. intros row Hrow.
    apply roundtrip_row_written, Hrow. }
  rewrite Hlines, read_written_lines.
  - simpl. rewrite (clean_fields_split _ Hh). fold n. do 2 f_equal.
    rewrite !map_map. rewrite <- (map_id rows) at 2.
    apply map_ext_Forall. eapply Forall_impl; [exact Hrows|].
    intros row [Hclean Hpad]. simpl.
    rewrite (clean_fields_split _ Hclean). symmetry. exact Hpad.
  - constructor; [apply clean_fields_line, Hh|].
    apply Forall_map. eapply Forall_impl; [exact Hrows|].
    intros row [Hclean _]. apply clean_fields_line, Hclean.
Qed.

(** ** What holds of the editor at every moment *)

Lemma split_sep_free sep s : Forall (fun f => sep ∉ f) (split sep s).
Proof.
  induction s as [|c s IH]; simpl.
  - repeat constructor. intros Hin. inversion Hin.
  - destruct (c =? sep) eqn:Hc.
    + constructor; [intros Hin; inversion Hin | exact IH].
    + destruct (split sep s) as [|f fs].
      * repeat constructor. intros Hin. apply list_elem_of_singleton in Hin.
        apply N.eqb_neq in Hc. congruence.
      * inversion IH as [|? ? Hf Hfs]; subst. constructor; [|exact Hfs].
        intros Hin. apply elem_of_cons in Hin as [->|Hin]; [|exact (Hf Hin)].
        apply N.eqb_neq in Hc. congruence.
Qed.

Lemma stripped_nonblank_chars (P : N -> Prop) ls :
  Forall (Forall P) ls -> Forall (Forall P) (stripped_nonblank ls).
Proof.
  induction 1 as [|l ls Hl _ IH]; [constructor|]. simpl.
  assert (Hstrip : Forall P (strip l)).
  { apply Forall_forall. intros c Hc. apply strip_elem in Hc.
    rewrite Forall_forall in Hl. exact (Hl c Hc). }
  destruct (strip l); [exact IH|]. constructor; assumption.
Qed.

(** No line that the reader hands to the parser holds a line feed. *)
Lemma read_lines_no_LF lib lossy content lines encoding :
  read_lines lib lossy content = Ok (lines, encoding) ->
  Forall (fun l => LF ∉ l) lines.
Proof.
  unfold read_lines.
  destruct (try_encodings lib encodings_to_try content)
    as [[ls enc]|] eqn:Htry.
  - intros [= <- _].
    apply try_encodings_some in Htry as (_ & _ & text & _ & _ & _ & ->).
    eapply Forall_impl; [apply loaded_lines_ok|].
    intros l (_ & _ & HLF & _). exact HLF.
  - intros [= <- _].
    assert (Hfree : Forall (Forall (fun c => c <> LF))
                      (stripped_nonblank (split LF (lossy content)))).
    { apply stripped_nonblank_chars.
      eapply Forall_impl; [apply split_sep_free|]. simpl.
      intros f Hf. apply Forall_forall. intros c Hc ->. exact (Hf Hc). }
    eapply Forall_impl; [exact Hfree|]. simpl. intros l Hl Hin.
    rewrite Forall_forall in Hl. exact (Hl _ Hin eq_refl).
Qed.

Lemma split_field_chars l :
  LF ∉ l -> Forall (Forall field_char) (split TAB l).
Proof.
  intros HLF. eapply Forall_impl; [apply split_fields|]. simpl.
  intros f [Htab Hsub]. apply Forall_forall. intros c Hc.
  split; intros ->; [exact (Htab Hc) | exact (HLF (Hsub _ Hc))].
Qed.

Lemma parse_lines_fields lines pt :
  Forall (fun l => LF ∉ l) lines -> parse_lines lines = Some pt ->
  Forall (Forall field_char) (pt_headers pt) /\
  Forall (Forall (Forall field_char)) (pt_data pt).
Proof.
  destruct lines as [|first rest]; [discriminate|].
  intros Hlines [= <-]. inversion Hlines as [|? ? Hfirst Hrest]; subst.
  simpl. split; [apply split_field_chars, Hfirst|].
  apply Forall_map. eapply Forall_impl; [exact Hrest|]. simpl.
  intros l Hl. rewrite pad_row_spec. apply Forall_app.
  split; [apply split_field_chars, Hl|].
  apply Forall_forall. intros f Hf. apply elem_of_replicate in Hf as [-> _].
  constructor.
Qed.

Lemma plain_field_char c : plain_char c -> field_char c.
Proof. intros (Htab & HLF & _). split; assumption. Qed.

Section Resolution.
Variable names : gmap pystr pystr.
Hypothesis names_ok :
  forall k v, names !! k = Some v ->
              k <> [] /\ Forall plain_char k /\ Forall plain_char v.

Lemma get_mob_name_field vnum name :
  Forall field_char vnum -> Forall field_char name ->
  Forall field_char (get_mob_name names vnum name).
Proof.
  intros Hvnum Hname. unfold get_mob_name.
  assert (Hmob : Forall field_char (py "Mob " ++ vnum)).
  { apply Forall_app. split; [|exact Hvnum].
    repeat constructor; discriminate. }
  destruct (names !! vnum) as [v|] eqn:Hv.
  - destruct (names_ok _ _ Hv) as (_ & _ & Hplain).
    eapply Forall_impl; [exact Hplain | exact plain_field_char].
  - destruct name; [exact Hmob|]. case_bool_decide; assumption.
Qed.

Lemma row_effect_fields hdrs row :
  Forall (Forall field_char) row ->
  Forall (Forall field_char) (row_effect names hdrs row).1.1.
Proof.
  intros Hrow. unfold row_effect.
  destruct row as [|vnum [|name rest]]; try exact Hrow.
  destruct (hdrs !! 1%nat) as [h|]; [|exact Hrow].
  destruct (pystr_eqb h NAME); [|exact Hrow]. simpl.
  inversion Hrow as [|? ? Hvnum Hrest]; subst.
  inversion Hrest as [|? ? Hname Hrest']; subst.
  repeat constructor; try assumption.
  apply get_mob_name_field; assumption.
Qed.

Lemma rows_effect_fields hdrs r rows :
  Forall (Forall (Forall field_char)) rows ->
  Forall (Forall (Forall field_char)) (rows_effect names hdrs r rows).1.1.
Proof.
  intros Hrows. revert r.
  induction Hrows as [|row rows Hrow Hrows IH]; intros r; [constructor|].
  simpl. pose proof (row_effect_fields hdrs row Hrow) as Hone.
  destruct (row_effect names hdrs row) as [[row' vals] [e|]]; simpl in *.
  - constructor; assumption.
  - specialize (IH (S r)).
    destruct (rows_effect names hdrs (S r) rows) as [[rows'' ws] e].
    simpl in *. constructor; assumption.
Qed.
End Resolution.

(** [setup_table] makes the grid as large as the stored table, also
    when it is left by an exception, and keeps what holds of the
    header, the rows and the names. *)
Lemma setup_table_well_formed ed :
  Forall (fun row => (length (headers ed) <= length row)%nat) (data ed) ->
  Forall (Forall field_char) (headers ed) ->
  Forall (Forall (Forall field_char)) (data ed) ->
  (forall k v, mob_names ed !! k = Some v ->
               k <> [] /\ Forall plain_char k /\ Forall plain_char v) ->
  well_formed (setup_table ed).1.
Proof.
  intros Hwide Hh Hf Hn.
  pose proof (setup_table_widths ed _ Hwide) as Hwide'.
  rewrite setup_table_effect in *.
  pose proof (rows_effect_length (mob_names ed) (headers ed) 0 (data ed))
    as Hlen.
  pose proof (rows_effect_fields (mob_names ed) Hn (headers ed) 0 (data ed)
                Hf) as Hf'.
  destruct (rows_effect (mob_names ed) (headers ed) 0 (data ed))
    as [[rows' ws] e].
  simpl in *.
  destruct (apply_writes_counts ws
              (setColumnCount (length (headers ed))
                 (setRowCount (length (data ed)) (table ed)))) as [Hrc Hcc].
  constructor; simpl; try assumption.
  rewrite Hrc, Hlen. reflexivity.
Qed.

Lemma load_mob_names_well_formed lib path fs ed :
  well_formed ed -> well_formed (load_mob_names lib path fs ed).
Proof.
  intros [Hw Hr Hc Hh Hf Hn]. unfold load_mob_names.
  destruct (files fs !! path) as [content|];
    constructor;
    cbn [headers data table mob_names set_mob_names]; try assumption.
  intros k v Hk.
  destruct (load_names_loop_entries lib content _ _ _ _ Hk)
    as [Hold|(Hne & _ & Hkey & Hval & _)]; [apply Hn, Hold|auto].
Qed.

Lemma load_file_fast_well_formed lib lossy path content ed :
  well_formed ed -> well_formed (load_file_fast lib lossy path content ed).1.
Proof.
  intros Hwf. unfold load_file_fast.
  destruct (read_lines lib lossy content) as [[lines encoding]|e] eqn:Hread;
    [|exact Hwf].
  set (ed1 := match encoding with
              | Some e => set_file_encoding e ed
              | None => ed
              end).
  assert (Hwf1 : well_formed ed1).
  { subst ed1. destruct encoding; [|exact Hwf].
    destruct Hwf. constructor; assumption. }
  destruct (parse_lines lines) as [pt|] eqn:Hparse; [|exact Hwf1].
  set (ed2 := set_file_path path
                (set_data (pt_data pt) (set_headers (pt_headers pt) ed1))).
  destruct (parse_lines_fields lines pt (read_lines_no_LF _ _ _ _ _ Hread)
              Hparse) as [Hh Hf].
  assert (Hwf2 : well_formed (setup_table ed2).1).
  { apply setup_table_well_formed; subst ed2; simpl.
    - apply (parse_lines_widths lines pt Hparse).
    - exact Hh.
    - exact Hf.
    - destruct Hwf1. assumption. }
  destruct (setup_table ed2) as [ed3 [e|]]; exact Hwf2.
Qed.

Lemma apply_mass_changes_well_formed decimal selected changes ed :
  well_formed ed ->
  well_formed (apply_mass_changes decimal selected changes ed).1.1.
Proof.
  intros Hwf. unfold apply_mass_changes.
  destruct changes as [|ch changes]; [exact Hwf|].
  pose proof (apply_rows_frame decimal (headers ed)
                (rows_to_change selected (table ed)) (ch :: changes)
                (table ed) 0) as (Hr & Hc & _).
  destruct (apply_rows decimal (headers ed)
              (rows_to_change selected (table ed)) (ch :: changes)
              (table ed) 0) as [[t' n] e].
  destruct Hwf as [Hw Hr0 Hc0 Hh Hf Hn].
  simpl in *. constructor; simpl; try assumption; congruence.
Qed.

Lemma show_mass_edit_well_formed decimal selected dialog ed :
  well_formed ed -> well_formed (show_mass_edit decimal selected dialog ed).1.
Proof.
  intros Hwf. unfold show_mass_edit.
  destruct (data ed); [exact Hwf|].
  destruct dialog as [widgets|]; [|exact Hwf].
  destruct (get_changes decimal widgets) as [changes|e]; [|exact Hwf].
  pose proof (apply_mass_changes_well_formed decimal selected changes ed Hwf)
    as Hwf'.
  destruct (apply_mass_changes decimal selected changes ed)
    as [[ed' n] [e|]]; exact Hwf'.
Qed.

Lemma fix_mob_names_file_well_formed lib now path fs ed :
  well_formed ed -> well_formed (fix_mob_names_file lib now path fs ed).1.2.
Proof.
  intros Hwf. unfold fix_mob_names_file.
  destruct (files fs !! path) as [content|]; [|exact Hwf].
  destruct (copy2 path (backup_path now path) fs) as [fs1|e]; [|exact Hwf].
  destruct (read_names_loop lib names_encodings content)
    as [[[lines encoding]|]|e]; try exact Hwf.
  destruct (writable fs1 path); [|exact Hwf].
  destruct (write_all (map fix_line lines) []) as [content' [e|]];
    [exact Hwf|].
  set (fs2 := MkFs (<[path := content']> (files fs1)) (writable fs1)).
  assert (Hwf1 : well_formed (load_mob_names lib path fs2
                                (set_mob_names ∅ ed))).
  { apply load_mob_names_well_formed.
    destruct Hwf. constructor; simpl; try assumption.
    intros k v Hk. rewrite lookup_empty in Hk. discriminate. }
  set (ed1 := load_mob_names lib path fs2 (set_mob_names ∅ ed)) in *.
  destruct (data ed1) as [|row rows] eqn:Hdata; [exact Hwf1|].
  assert (Hwf2 : well_formed (setup_table ed1).1).
  { destruct Hwf1. apply setup_table_well_formed; assumption. }
  destruct (setup_table ed1) as [ed2 [e|]]; exact Hwf2.
Qed.

Lemma run_well_formed rt w a :
  well_formed w.1 -> well_formed (run rt w a).1.
Proof.
  intros Hwf. destruct a as [chosen|now chosen|selected dialog|now|fs];
    simpl; try exact Hwf.
  - unfold open_file. destruct chosen as [|c p]; [exact Hwf|].
    destruct (files w.2 !! (c :: p)) as [content|]; [|exact Hwf].
    pose proof (load_file_fast_well_formed (rt_lib rt) (rt_lossy rt) (c :: p)
                  content w.1 Hwf) as Hwf'.
    destruct (load_file_fast (rt_lib rt) (rt_lossy rt) (c :: p) content w.1).
    exact Hwf'.
  - apply show_mass_edit_well_formed, Hwf.
  - apply fix_mob_names_file_well_formed, Hwf.
Qed.

(** X18. Whatever the user does from the window (opening files, saving,
    mass edits, repairs of the name file, in any order and with any
    answers of the dialogs) and whatever happens to the files in
    between, the editor is well formed at every moment: no stored row
    is narrower than the header, the grid has one row per stored row
    and one column per header, no header and no stored field holds a
    tab or a line feed, and every name of the lookup has a key that is
    not empty and is free of tabs and line ends together with its
    name. *)
Theorem session_well_formed (rt : runtime) (fs : filesystem)
    (actions : list action) :
  well_formed (session rt fs actions).1.
Proof.
  unfold session.
  assert (Hinit : well_formed
                    (init_editor (rt_lib rt) (rt_names_file rt) fs, fs).1).
  { simpl. unfold init_editor. apply load_mob_names_well_formed.
    constructor; simpl; try (constructor; fail); try reflexivity.
    intros k v Hk. rewrite lookup_empty in Hk. discriminate. }
  revert Hinit.
  generalize (init_editor (rt_lib rt) (rt_names_file rt) fs, fs).
  induction actions as [|a actions IH]; intros w Hw; [exact Hw|].
  simpl. apply IH, run_well_formed, Hw.
Qed.

(** ** Opening a file and saving it *)

(** A load that ends with the table shown has read and parsed the file
    and run [setup_table] to its end. *)
Lemma load_file_fast_loaded lib lossy path content ed :
  (load_file_fast lib lossy path content ed).2 = Loaded ->
  exists lines encoding pt ed1,
    read_lines lib lossy content = Ok (lines, encoding) /\
    parse_lines lines = Some pt /\
    setup_table
      (set_file_path path
         (set_data (pt_data pt) (set_headers (pt_headers pt) ed1)))
    = ((load_file_fast lib lossy path content ed).1, None).
Proof.
  unfold load_file_fast.
  destruct (read_lines lib lossy content) as [[lines encoding]|e];
    [|discriminate].
  destruct (parse_lines lines) as [pt|] eqn:Hparse; [|discriminate].
  set (ed1 := match encoding with
              | Some e => set_file_encoding e ed
              | None => ed
              end).
  destruct (setup_table _) as [ed3 [e|]] eqn:Hsetup; [discriminate|].
  intros _. exists lines, encoding, pt, ed1. auto.
Qed.

(** X19. After a file is opened and its table shown, a save asks no
    dialog: it writes to the path the file was opened from. When that
    path and the backup path can be written and the text of the grid
    can be encoded, the save ends without an exception, the file holds
    the UTF-8 bytes of the header line and of every stored row cut to
    the width of the header, and the backup holds the bytes that were
    there. With no path in the editor and the dialog cancelled, a save
    does nothing. *)
Theorem open_file_then_save_file (lib : codec_library)
    (lossy : list byte -> pystr) (now : datetime) (chosen asked : pystr)
    (fs : filesystem) (ed : editor) (old bs : list byte) :
  let ed' := (open_file lib lossy chosen fs ed).1 in
  (open_file lib lossy chosen fs ed).2 = Some Loaded ->
  files fs !! chosen = Some old ->
  writable fs chosen = true ->
  writable fs (backup_path now chosen) = true ->
  utf8_encode (table_text (headers ed')
                 (map (take (length (headers ed'))) (data ed'))) = Ok bs ->
  (save_file now asked ed' fs).2 = None /\
  files (save_file now asked ed' fs).1 !! chosen = Some bs /\
  files (save_file now asked ed' fs).1 !! backup_path now chosen = Some old /\
  (file_path ed = None -> save_file now [] ed fs = (fs, None)).
Proof.
  intros ed'. subst ed'. unfold open_file.
  destruct chosen as [|c p]; [discriminate|]. intros Hloaded Hold.
  rewrite Hold in *.
  destruct (load_file_fast lib lossy (c :: p) old ed) as [ed' status]
    eqn:Hload.
  simpl in Hloaded. injection Hloaded as ->. cbn [fst].
  intros Hw Hwb Henc.
  assert (Hstatus : (load_file_fast lib lossy (c :: p) old ed).2 = Loaded)
    by (rewrite Hload; reflexivity).
  destruct (load_file_fast_loaded _ _ _ _ _ Hstatus)
    as (lines & encoding & pt & ed1 & _ & Hparse & Hsetup).
  rewrite Hload in Hsetup. cbn [fst] in Hsetup.
  set (ed2 := set_file_path (c :: p)
                (set_data (pt_data pt) (set_headers (pt_headers pt) ed1)))
    in *.
  pose proof (setup_table_keeps ed2) as (Hh & _ & Hpath).
  assert (Hshown : current_data (table ed')
                   = map (take (length (headers ed'))) (data ed')).
  { pose proof (setup_table_current_data ed2) as Hcur.
    rewrite Hsetup in Hcur, Hh. cbn [fst snd] in Hcur, Hh. rewrite Hh.
    apply Hcur; [reflexivity|]. apply (parse_lines_widths lines pt Hparse). }
  rewrite Hsetup in Hpath. cbn [fst] in Hpath.
  change (file_path ed2) with (Some (c :: p)) in Hpath.
  unfold save_file at 1 2 3. rewrite Hpath.
  rewrite <- Hshown in Henc.
  destruct (save_to_file_content now ed' (c :: p) fs bs Henc Hw
              ltac:(intros _; exact Hwb)) as [Hdone Hfile].
  split; [exact Hdone|]. split; [exact Hfile|]. split.
  - unfold save_to_file, copy2. rewrite Hold, Hwb. cbn [writable files].
    rewrite Hw.
    destruct (write_all _ []) as [content e]. cbn [fst files].
    rewrite lookup_insert_ne by (apply not_eq_sym, backup_path_fresh).
    apply lookup_insert_eq.
  - intros Hnone. unfold save_file. rewrite Hnone. reflexivity.
Qed.

Lemma open_file_then_save_file_witness :
  let fs := MkFs {[ proto_path := sample_file ]} (fun _ => true) in
  let ed' := (open_file ascii_cp949 lossy_ascii proto_path fs
                sample_editor).1 in
  (save_file sample_now (py "other.txt") ed' fs).2 = None
  /\ files (save_file sample_now (py "other.txt") ed' fs).1 !! proto_path
     = Some sample_file.
Proof.
  intros fs ed'.
  destruct (open_file_then_save_file ascii_cp949 lossy_ascii sample_now
              proto_path (py "other.txt") fs sample_editor sample_file
              sample_file) as (Hdone & Hfile & _);
    try reflexivity.
  split; [exact Hdone | exact Hfile].
Defined.

(** ** The grid after the name file is repaired *)

(** The rows and the outcome of [setup_table] do not depend on the grid
    it starts from. *)
Lemma setup_table_set_table t ed :
  data (setup_table (set_table t ed)).1 = data (setup_table ed).1 /\
  headers (setup_table (set_table t ed)).1 = headers (setup_table ed).1 /\
  (setup_table (set_table t ed)).2 = (setup_table ed).2.
Proof.
  rewrite !setup_table_effect.
  cbn [mob_names headers data table set_table].
  destruct (rows_effect (mob_names ed) (headers ed) 0 (data ed))
    as [[rows' ws] e].
  repeat split.
Qed.

Lemma load_mob_names_set_table lib path fs t ed :
  load_mob_names lib path fs (set_mob_names ∅ (set_table t ed))
  = set_table t (load_mob_names lib path fs (set_mob_names ∅ ed)).
Proof.
  unfold load_mob_names. destruct (files fs !! path); reflexivity.
Qed.

(** X20. A repair of the name file that reports success on a loaded
    table draws the grid again from the stored rows, with the names
    resolved against the names read again: the grid then shows each
    stored row cut to the width of the header, whatever it showed
    before. What a mass edit had written in the grid, and was not
    saved, is gone: started from any other grid the repair reports the
    same and leaves the same rows shown. *)
Theorem fix_mob_names_file_redraws (lib : codec_library) (now : datetime)
    (path : pystr) (fs : filesystem) (ed : editor) (n : nat)
    (backup : pystr) :
  let ed' := (fix_mob_names_file lib now path fs ed).1.2 in
  Forall (fun row => (length (headers ed) <= length row)%nat) (data ed) ->
  data ed <> [] ->
  (fix_mob_names_file lib now path fs ed).2 = Fixed n backup ->
  current_data (table ed') = map (take (length (headers ed'))) (data ed') /\
  forall t,
    let other := fix_mob_names_file lib now path fs (set_table t ed) in
    other.2 = Fixed n backup /\
    current_data (table other.1.2) = current_data (table ed').
Proof.
  intros ed' Hwide Hdata. subst ed'. unfold fix_mob_names_file.
  destruct (files fs !! path) as [content|]; [|discriminate].
  destruct (copy2 path (backup_path now path) fs) as [fs1|e]; [|discriminate].
  destruct (read_names_loop lib names_encodings content)
    as [[[lines encoding]|]|e]; try discriminate.
  destruct (writable fs1 path); [|discriminate].
  destruct (write_all (map fix_line lines) []) as [content' [e|]];
    [discriminate|].
  set (fs2 := MkFs (<[path := content']> (files fs1)) (writable fs1)).
  set (ed1 := load_mob_names lib path fs2 (set_mob_names ∅ ed)).
  assert (Hkeep : headers ed1 = headers ed /\ data ed1 = data ed).
  { subst ed1. unfold load_mob_names.
    destruct (files fs2 !! path); split; reflexivity. }
  destruct Hkeep as [Hh1 Hd1].
  assert (Hother : forall t,
             load_mob_names lib path fs2 (set_mob_names ∅ (set_table t ed))
             = set_table t ed1)
    by (intros t; apply load_mob_names_set_table).
  destruct (data ed1) as [|row rows] eqn:Hrows; [congruence|].
  assert (Hwide1 : Forall (fun row => (length (headers ed1) <= length row)%nat)
                     (data ed1))
    by (rewrite Hh1, Hrows, Hd1; exact Hwide).
  pose proof (setup_table_current_data ed1) as Hcur.
  pose proof (setup_table_keeps ed1) as (Hh2 & _ & _).
  destruct (setup_table ed1) as [ed2 [e|]] eqn:Hsetup; [discriminate|].
  cbn [fst snd] in *. intros Hfixed.
  assert (Hshown : current_data (table ed2)
                   = map (take (length (headers ed2))) (data ed2)).
  { rewrite Hh2. apply Hcur; [reflexivity | exact Hwide1]. }
  split; [exact Hshown|].
  intros t. rewrite Hother.
  assert (Hrows' : data (set_table t ed1) = row :: rows) by exact Hrows.
  rewrite Hrows'.
  pose proof (setup_table_set_table t ed1) as (Hd & Hh & He).
  pose proof (setup_table_current_data (set_table t ed1)) as Hcur'.
  rewrite Hsetup in Hd, Hh, He. cbn [fst snd] in Hd, Hh, He.
  destruct (setup_table (set_table t ed1)) as [ed3 [e|]]; [discriminate|].
  cbn [fst snd] in *. split; [exact Hfixed|].
  rewrite Hshown, Hcur', Hd, Hh2; [reflexivity|reflexivity|exact Hwide1].
Qed.

Lemma fix_mob_names_file_redraws_witness :
  let edited := (apply_mass_changes ascii_digits [0%nat]
                   [(py "EXP", py "multiply", py "4")] exp_editor).1.1 in
  item (table edited) 0 2 = Some (py "400")
  /\ current_data
       (table (fix_mob_names_file utf8_fffd sample_now names_path names_fs
                 edited).1.2)
     = [[py "101"; py "Wolf"; py "100"]; [py "102"; py "Bear"; py "1e308"]].
Proof.
  intros edited. split; [reflexivity|].
  destruct (fix_mob_names_file_redraws utf8_fffd sample_now names_path
              names_fs edited 1
              (backup_path sample_now names_path)) as [Hshown _].
  - repeat constructor.
  - discriminate.
  - vm_compute. reflexivity.
  - rewrite Hshown. vm_compute. reflexivity.
Defined.

(** ** Presets and repeated changes *)

Lemma get_changes_app decimal before after cb ca :
  get_changes decimal before = Ok cb -> get_changes decimal after = Ok ca ->
  get_changes decimal (before ++ after) = Ok (cb ++ ca).
Proof.
  revert cb. induction before as [|w before IH]; intros cb.
  - intros [= <-] Ha. exact Ha.
  - simpl. intros Hb Ha.
    destruct (ow_enabled w); [|apply IH; assumption].
    destruct (ow_value w) as [|c text]; [apply IH; assumption|].
    destruct (py_float decimal (c :: text)) as [x|e].
    + destruct (get_changes decimal before) as [cb'|e'] eqn:Hb';
        [|discriminate].
      simpl in Hb. injection Hb as <-.
      rewrite (IH cb' eq_refl Ha). reflexivity.
    + destruct e; try discriminate. apply IH; assumption.
Qed.

(** X21. A preset button sets the value and the operation of its entry
    and does not tick the check box. The value of every preset is read
    by [float] and its operation is one that [apply_mass_changes] knows.
    So after a preset the dialog returns the changes of the other
    entries as before and, for this entry, the preset as a change when
    the entry is enabled and nothing when it is not. *)
Theorem set_preset_changes (decimal : N -> option N)
    (before after : list operation_widget) (w : operation_widget)
    (value operation : pystr) (cb ca : list change) :
  (value, operation) ∈ presets (ow_col_name w) ->
  get_changes decimal before = Ok cb ->
  get_changes decimal after = Ok ca ->
  (exists x z, py_float decimal value = Ok x /\ py_int x = Ok z /\
               forall c, operate decimal operation value c <> Ok None) /\
  get_changes decimal (before ++ set_preset value operation w :: after)
  = Ok (cb ++ (if ow_enabled w then [(ow_col_name w, operation, value)]
               else []) ++ ca).
Proof.
  intros Hpreset Hb Ha.
  assert (Hcases : (value, operation) ∈
            [(py "2", py "multiply"); (py "4", py "multiply");
             (py "300", py "set"); (py "600", py "set")]).
  { unfold presets in Hpreset.
    destruct (pystr_eqb (ow_col_name w) (py "EXP")).
    - apply list_elem_of_In in Hpreset. apply list_elem_of_In. simpl in *.
      tauto.
    - case_bool_decide; [|inversion Hpreset].
      apply list_elem_of_In in Hpreset. apply list_elem_of_In. simpl in *.
      tauto. }
  apply list_elem_of_In in Hcases. simpl in Hcases.
  assert (Hread : exists x z, py_float decimal value = Ok x /\
                              py_int x = Ok z /\ value <> [] /\
                              forall c, operate decimal operation value c
                                        <> Ok None).
  { destruct Hcases as [[= <- <-]|[[= <- <-]|[[= <- <-]|[[= <- <-]|[]]]]];
      (eexists; eexists; split; [reflexivity|]; split; [reflexivity|];
       split; [discriminate|]; intros c; discriminate). }
  destruct Hread as (x & z & Hx & Hz & Hne & Hop).
  split; [exists x, z; auto|].
  apply get_changes_app; [exact Hb|].
  cbn [get_changes set_preset ow_enabled ow_value ow_col_name ow_operation].
  destruct (ow_enabled w); [|exact Ha].
  destruct value as [|c text]; [congruence|].
  rewrite Hx, Ha. reflexivity.
Qed.

Lemma set_preset_changes_witness :
  let exp := MkWidget (py "EXP") false (py "multiply") [] in
  let gold := MkWidget (py "GOLD_MIN") true (py "multiply") [] in
  get_changes ascii_digits
    ([] ++ set_preset (py "4") (py "multiply") exp
        :: [set_preset (py "300") (py "set") gold])
  = Ok ([] ++ [] ++ [(py "GOLD_MIN", py "set", py "300")]).
Proof.
  intros exp gold.
  apply (set_preset_changes ascii_digits [] [set_preset (py "300") (py "set")
                                               gold]
           exp (py "4") (py "multiply") []
           [(py "GOLD_MIN", py "set", py "300")]).
  - right. left.
  - reflexivity.
  - reflexivity.
Defined.

Lemma current_value_numeral decimal z :
  current_value decimal (Some (py_str_int z))
  = Ok (float_of_decimal (z <? 0)%Z (Z.abs_N z) 0).
Proof.
  destruct (py_str_int_numeral z) as (u & Hu & Hval & Htext).
  assert (Hread : py_float decimal (py_str_int z)
                  = Ok (float_of_decimal (z <? 0)%Z (Z.abs_N z) 0)).
  { rewrite Htext, <- Hval. apply py_float_numeral, Hu. }
  unfold current_value. rewrite <- Hread.
  destruct (py_str_int z) as [|c s] eqn:Hs; [|reflexivity].
  pose proof (uint_digits_nonempty u Hu) as Hne.
  destruct (z <? 0)%Z; [discriminate|]. simpl in Htext. congruence.
Qed.

(** X22. Setting a cell to a value twice is the same as setting it
    once: the text that a 'set' writes is read by [float], so the same
    'set' applied to the cell again is not skipped and writes the same
    text. *)
Theorem mass_edit_set_twice (decimal : N -> option N) (it : option pystr)
    (value text : pystr) :
  apply_change decimal it (py "set") value = Updated text ->
  apply_change decimal (Some text) (py "set") value = Updated text.
Proof.
  intros Hfirst.
  destruct (apply_change_updated _ _ _ _ _ Hfirst) as [z ->].
  revert Hfirst. unfold apply_change, new_text.
  rewrite current_value_numeral.
  destruct (current_value decimal it) as [c|e]; simpl.
  - unfold operate.
    change (pystr_eqb (py "set") (py "multiply")) with false.
    change (pystr_eqb (py "set") (py "add")) with false.
    change (pystr_eqb (py "set") (py "set")) with true.
    cbn iota. destruct (py_float decimal value) as [v|e]; simpl; auto.
  - destruct e; discriminate.
Qed.

Lemma mass_edit_set_twice_witness :
  apply_change ascii_digits (Some (py "12.5")) (py "set") (py "3e2")
  = Updated (py "300")
  /\ apply_change ascii_digits (Some (py "300")) (py "set") (py "3e2")
     = Updated (py "300").
Proof.
  split; [reflexivity|].
  apply (mass_edit_set_twice ascii_digits (Some (py "12.5"))).
  reflexivity.
Defined.

(** ** A header of one column *)

Section OneColumn.
Variable names : gmap pystr pystr.
Variable hdrs : list pystr.

(** The loops of [setup_table] are left by an exception exactly when
    there is no second header and some row has a second field: the test
    of the second header then fails with [IndexError]. *)
Lemma rows_effect_raises r rows e :
  (rows_effect names hdrs r rows).2 = Some e ->
  e = IndexError /\ hdrs !! 1%nat = None /\
  Exists (fun row => (2 <= length row)%nat) rows.
Proof.
  revert r. induction rows as [|row rows IH]; intros r; [discriminate|].
  simpl. destruct row as [|vnum [|name rest]].
  - specialize (IH (S r)). simpl.
    destruct (rows_effect names hdrs (S r) rows) as [[rows'' ws] e'].
    simpl in *. intros He. destruct (IH He) as (-> & Hh & Hex). auto.
  - specialize (IH (S r)). simpl.
    destruct (rows_effect names hdrs (S r) rows) as [[rows'' ws] e'].
    simpl in *. intros He. destruct (IH He) as (-> & Hh & Hex). auto.
  - unfold row_effect. destruct (hdrs !! 1%nat) as [h|] eqn:Hh.
    + specialize (IH (S r)).
      destruct (pystr_eqb h NAME);
        destruct (rows_effect names hdrs (S r) rows) as [[rows'' ws] e'];
        simpl in *; intros He; destruct (IH He) as (_ & Hnone & _);
        discriminate.
    + simpl. intros [= <-]. repeat split.
      apply Exists_cons_hd. simpl. lia.
Qed.

Lemma rows_effect_one_column r rows :
  hdrs !! 1%nat = None ->
  Exists (fun row => (2 <= length row)%nat) rows ->
  (rows_effect names hdrs r rows).2 = Some IndexError.
Proof.
  intros Hh Hex. revert r.
  induction Hex as [row rows Hrow|row rows Hex IH]; intros r.
  - destruct row as [|vnum [|name rest]]; simpl in Hrow; try lia.
    simpl. rewrite Hh. reflexivity.
  - simpl. destruct row as [|vnum [|name rest]].
    + specialize (IH (S r)). simpl.
      destruct (rows_effect names hdrs (S r) rows) as [[rows'' ws] e'].
      exact IH.
    + specialize (IH (S r)). simpl.
      destruct (rows_effect names hdrs (S r) rows) as [[rows'' ws] e'].
      exact IH.
    + unfold row_effect. rewrite Hh. reflexivity.
Qed.
End OneColumn.

(** X23. A load fails after reading the file in one case only: the
    header line has a single column and some data line has a tab. The
    failure is the [IndexError] of the test of the second header in
    [setup_table]. The editor is then left with the new path, the new
    header and the new rows as parsed. *)
Theorem load_file_fast_one_column (lib : codec_library)
    (lossy : list byte -> pystr) (path : pystr) (content : list byte)
    (ed : editor) :
  let done := load_file_fast lib lossy path content ed in
  (forall e,
      done.2 = LoadFailed e ->
      e = IndexError /\
      file_path done.1 = Some path /\
      length (headers done.1) = 1%nat /\
      Exists (fun row => (2 <= length row)%nat) (data done.1) /\
      exists lines encoding,
        read_lines lib lossy content = Ok (lines, encoding) /\
        parse_lines lines
        = Some (ProtoTable (headers done.1) (data done.1))) /\
  (forall lines encoding pt,
      read_lines lib lossy content = Ok (lines, encoding) ->
      parse_lines lines = Some pt ->
      length (pt_headers pt) = 1%nat ->
      Exists (fun row => (2 <= length row)%nat) (pt_data pt) ->
      done.2 = LoadFailed IndexError).
Proof.
  cbn zeta. unfold load_file_fast.
  destruct (read_lines lib lossy content) as [[lines encoding]|e0] eqn:Hread.
  2:{ unfold read_lines in Hread.
      destruct (try_encodings lib encodings_to_try content) as [[ls enc]|];
        discriminate. }
  set (ed1 := match encoding with
              | Some e => set_file_encoding e ed
              | None => ed
              end).
  destruct (parse_lines lines) as [pt|] eqn:Hparse.
  2:{ split; [discriminate|]. intros ls enc pt Heq Hpt.
      injection Heq as <- <-. congruence. }
  set (ed2 := set_file_path path
                (set_data (pt_data pt) (set_headers (pt_headers pt) ed1))).
  pose proof (setup_table_effect ed2) as Heff.
  pose proof (setup_table_keeps ed2) as (Hh & _ & Hp).
  pose proof (rows_effect_raises (mob_names ed2) (headers ed2) 0 (data ed2))
    as Hraise.
  pose proof (rows_effect_one_column (mob_names ed2) (headers ed2) 0
                (data ed2)) as Hone.
  pose proof (rows_effect_no_header (mob_names ed2) (headers ed2) 0
                (data ed2)) as Hsame.
  destruct (rows_effect (mob_names ed2) (headers ed2) 0 (data ed2))
    as [[rows' ws] e'].
  destruct (setup_table ed2) as [ed3 e''].
  injection Heff as -> ->. cbn [fst snd] in *.
  change (headers ed2) with (pt_headers pt) in *.
  change (data ed2) with (pt_data pt) in *.
  change (file_path ed2) with (Some path) in *.
  assert (Hfirst : (1 <= length (pt_headers pt))%nat).
  { destruct lines as [|first rest]; [discriminate|].
    injection Hparse as <-. simpl.
    pose proof (split_nonempty TAB first) as Hne.
    destruct (split TAB first); [congruence|simpl; lia]. }
  split.
  - intros e Hfail. destruct e' as [e'|]; [|discriminate].
    injection Hfail as <-.
    destruct (Hraise e' eq_refl) as (-> & Hnone & Hex).
    specialize (Hsame Hnone). subst rows'.
    split; [reflexivity|]. split; [exact Hp|].
    apply lookup_ge_None in Hnone.
    split; [change (length (pt_headers pt) = 1%nat); lia|].
    split; [exact Hex|]. exists lines, encoding.
    split; [reflexivity|]. rewrite Hparse. destruct pt. reflexivity.
  - intros ls enc pt' Heq Hpt Hlen Hex. injection Heq as <- <-.
    rewrite Hparse in Hpt. injection Hpt as <-.
    rewrite Hone; [reflexivity| |exact Hex].
    apply lookup_ge_None. lia.
Qed.

Lemma load_file_fast_one_column_witness :
  let content := bytes "A" ++ [x0a] ++ bytes "1" ++ [x09] ++ bytes "2" in
  (load_file_fast ascii_cp949 lossy_ascii proto_path content sample_editor).2
  = LoadFailed IndexError
  /\ file_path (load_file_fast ascii_cp949 lossy_ascii proto_path content
                  sample_editor).1
     = Some proto_path.
Proof.
  intros content.
  destruct (load_file_fast_one_column ascii_cp949 lossy_ascii proto_path
              content sample_editor) as [Hfail Hone].
  assert (Hstatus : (load_file_fast ascii_cp949 lossy_ascii proto_path content
                       sample_editor).2 = LoadFailed IndexError).
  { apply (Hone [py "A"; py "1" ++ [TAB] ++ py "2"] (Some (py "cp949"))
             (ProtoTable [py "A"] [[py "1"; py "2"]])).
    - reflexivity.
    - reflexivity.
    - reflexivity.
    - repeat constructor. }
  split; [exact Hstatus|].
  destruct (Hfail IndexError Hstatus) as (_ & Hpath & _). exact Hpath.
Defined.

(** ** A mass edit from the dialog *)

(** X24. A mass edit started from the dialog, accepted and ended
    without an exception, applies each entry that is enabled and holds
    an operand that [float] reads exactly once to each target row: the
    cell of that row in the column of the entry, when inside the grid,
    holds the result of that one change on the text it held before. *)
Theorem show_mass_edit_applies_entries (decimal : N -> option N)
    (selected : list nat) (widgets : list operation_widget) (ed : editor)
    (row c n : nat) (w : operation_widget) (x : float) :
  let done := show_mass_edit decimal selected (Some widgets) ed in
  data ed <> [] ->
  map ow_col_name widgets = dialog_columns (headers ed) ->
  NoDup selected ->
  done.2 = Applied n ->
  row ∈ rows_to_change selected (table ed) ->
  w ∈ widgets -> ow_enabled w = true -> ow_value w <> [] ->
  py_float decimal (ow_value w) = Ok x ->
  find_column (headers ed) (ow_col_name w) 0 = Some c ->
  in_grid (table ed) row c = true ->
  item (table done.1) row c
  = cell_after decimal (table ed) row c
      (ow_col_name w, ow_operation w, ow_value w).
Proof.
  intros done Hdata Hbuilt Hsel Hdone Hrow Hw He Hv Hx Hfind Hgrid.
  subst done. unfold show_mass_edit in *.
  destruct (data ed) as [|r0 rs]; [congruence|].
  destruct (get_changes decimal widgets) as [changes|e] eqn:Hget;
    [|discriminate].
  destruct (get_changes_entries decimal widgets changes Hget)
    as (Hsub & _ & Hcomplete).
  assert (Hnames : NoDup (map (fun ch : change => ch.1.1) changes)).
  { eapply sublist_NoDup; [|exact Hsub].
    rewrite Hbuilt. apply dialog_columns_NoDup. }
  pose proof (Hcomplete w x Hw He Hv Hx) as Hin.
  unfold apply_mass_changes in *.
  destruct changes as [|ch0 changes]; [inversion Hin|].
  assert (Hrows : NoDup (rows_to_change selected (table ed))).
  { unfold rows_to_change. destruct selected; [apply NoDup_seq|exact Hsel]. }
  pose proof (apply_rows_cell decimal (headers ed)
                (rows_to_change selected (table ed)) (ch0 :: changes)
                (table ed) 0) as Hcell.
  destruct (apply_rows decimal (headers ed)
              (rows_to_change selected (table ed)) (ch0 :: changes)
              (table ed) 0) as [[t' n'] [e|]]; [discriminate|].
  cbn [fst snd table set_table] in *.
  apply (Hcell t' n' row (ow_col_name w, ow_operation w, ow_value w) c
           Hrows Hnames eq_refl Hrow Hin Hfind Hgrid).
Qed.

Lemma show_mass_edit_applies_entries_witness :
  let widgets := [MkWidget (py "EXP") true (py "add") (py "-0.5")] in
  let done := show_mass_edit ascii_digits [0%nat] (Some widgets) exp_editor in
  done.2 = Applied 1 /\ item (table done.1) 0 2 = Some (py "99").
Proof.
  intros widgets done. split; [reflexivity|]. subst done.
  rewrite (show_mass_edit_applies_entries ascii_digits [0%nat] widgets
             exp_editor 0 2 1 (MkWidget (py "EXP") true (py "add") (py "-0.5"))
             (float_of_decimal true 5 (-1))).
  - reflexivity.
  - discriminate.
  - reflexivity.
  - repeat constructor. intros Hin. inversion Hin.
  - reflexivity.
  - left.
  - left.
  - reflexivity.
  - discriminate.
  - reflexivity.
  - reflexivity.
  - reflexivity.
Defined.

(** ** Opening a file, saving it and opening it again *)

(** Rows no wider than the header are shown whole in the grid. *)
Lemma take_narrow_rows n (rows : list (list pystr)) :
  Forall (fun row => (length row <= n)%nat) rows -> map (take n) rows = rows.
Proof.
  intros Hnarrow. rewrite <- (map_id rows) at 2. apply map_ext_Forall.
  eapply Forall_impl; [exact Hnarrow|]. intros row Hrow. simpl.
  apply take_ge, Hrow.
Qed.

Lemma rows_effect_narrow names hdrs r rows n :
  Forall (fun row => (length row <= n)%nat) rows ->
  Forall (fun row => (length row <= n)%nat) (rows_effect names hdrs r rows).1.1.
Proof.
  revert r. induction rows as [|row rows IH]; intros r Hnarrow;
    [constructor|].
  inversion Hnarrow as [|? ? Hrow Hrows]; subst. simpl.
  destruct (row_effect_frame names hdrs row) as [Hlen _].
  destruct (row_effect names hdrs row) as [[row' vals] [e|]]; simpl in Hlen.
  - constructor; [lia|exact Hrows].
  - specialize (IH (S r) Hrows).
    destruct (rows_effect names hdrs (S r) rows) as [[rows'' ws] e'].
    constructor; [lia|exact IH].
Qed.

(** A file none of whose lines has more fields than the header is
    loaded without an exception, and the grid then shows the rows kept
    in memory. *)
Lemma load_file_fast_narrow lib lossy path content ed lines encoding pt :
  read_lines lib lossy content = Ok (lines, encoding) ->
  parse_lines lines = Some pt ->
  Forall (fun row => (length row <= length (pt_headers pt))%nat)
    (pt_data pt) ->
  (load_file_fast lib lossy path content ed).2 = Loaded /\
  current_data (table (load_file_fast lib lossy path content ed).1)
  = data (load_file_fast lib lossy path content ed).1.
Proof.
  intros Hread Hparse Hnarrow. unfold load_file_fast. rewrite Hread, Hparse.
  set (ed1 := match encoding with
              | Some e => set_file_encoding e ed
              | None => ed
              end).
  set (ed2 := set_file_path path
                (set_data (pt_data pt) (set_headers (pt_headers pt) ed1))).
  assert (Hdone : (setup_table ed2).2 = None).
  { rewrite setup_table_effect.
    destruct (rows_effect (mob_names ed2) (headers ed2) 0 (data ed2))
      as [[rows' ws] [e|]] eqn:Heff; [|reflexivity].
    exfalso.
    destruct (rows_effect_raises (mob_names ed2) (headers ed2) 0 (data ed2) e)
      as (_ & Hone & Hwide); [rewrite Heff; reflexivity|].
    apply Exists_exists in Hwide as (row & Hin & Hrow).
    rewrite Forall_forall in Hnarrow. specialize (Hnarrow row Hin).
    apply lookup_ge_None in Hone.
    change (headers ed2) with (pt_headers pt) in Hone. lia. }
  pose proof (setup_table_current_data ed2 Hdone
                (parse_lines_widths lines pt Hparse)) as Hshown.
  assert (Hrows : Forall (fun row => (length row <= length (pt_headers pt))%nat)
                    (data (setup_table ed2).1)).
  { rewrite setup_table_effect.
    pose proof (rows_effect_narrow (mob_names ed2) (headers ed2) 0 (data ed2)
                  _ Hnarrow) as Heff.
    destruct (rows_effect (mob_names ed2) (headers ed2) 0 (data ed2))
      as [[rows' ws] e]. exact Heff. }
  change (headers ed2) with (pt_headers pt) in Hshown.
  rewrite (take_narrow_rows _ _ Hrows) in Hshown.
  destruct (setup_table ed2) as [ed3 e]. simpl in Hdone. subst e.
  split; [reflexivity|exact Hshown].
Qed.

Lemma load_file_fast_names lib lossy path content ed :
  mob_names (load_file_fast lib lossy path content ed).1 = mob_names ed.
Proof.
  unfold load_file_fast.
  destruct (read_lines lib lossy content) as [[lines encoding]|e];
    [|reflexivity].
  destruct (parse_lines lines) as [pt|].
  - set (ed2 := set_file_path path _).
    destruct (setup_table_keeps ed2) as (_ & Hnames & _).
    destruct (setup_table ed2) as [ed3 [e|]]; simpl in *; rewrite Hnames;
      subst ed2; destruct encoding; reflexivity.
  - destruct encoding; reflexivity.
Qed.

(** X17. Opening a file, saving it and opening the saved file shows
    the same table, when the first load took the rows as they stand in
    the file. Let [load_file_fast] read a file with one of its
    candidate encodings, let the rows it leaves in memory be the rows
    parsed from the lines (name resolution changed no name), and let no
    row have more fields than the header. Then the grid shows the rows
    in memory. If moreover the text of the table is ASCII and the paths
    can be written, [save_to_file] ends without an exception and leaves
    the UTF-8 bytes of that text in the file, and [load_file_fast] on
    that file ends with the table shown and leaves the same header, the
    same rows in memory and the same rows in the grid. *)
Theorem load_save_load (lib : codec_library) (lossy : list byte -> pystr)
    (now : datetime) (path : pystr) (content : list byte) (ed : editor)
    (fs : filesystem) (lines : list pystr) (encoding : pystr) :
  let ed1 := (load_file_fast lib lossy path content ed).1 in
  read_lines lib lossy content = Ok (lines, Some encoding) ->
  parse_lines lines = Some (ProtoTable (headers ed1) (data ed1)) ->
  Forall (fun row => (length row <= length (headers ed1))%nat) (data ed1) ->
  (load_file_fast lib lossy path content ed).2 = Loaded /\
  current_data (table ed1) = data ed1 /\
  (cp949_ascii lib ->
   Forall (fun c => c < 128) (table_text (headers ed1) (data ed1)) ->
   writable fs path = true ->
   (files fs !! path <> None -> writable fs (backup_path now path) = true) ->
   exists bs,
     utf8_encode (table_text (headers ed1) (data ed1)) = Ok bs /\
     (save_to_file now ed1 path fs).2 = None /\
     files (save_to_file now ed1 path fs).1 !! path = Some bs /\
     (load_file_fast lib lossy path bs ed1).2 = Loaded /\
     headers (load_file_fast lib lossy path bs ed1).1 = headers ed1 /\
     data (load_file_fast lib lossy path bs ed1).1 = data ed1 /\
     current_data (table (load_file_fast lib lossy path bs ed1).1)
     = data ed1).
Proof.
  intros ed1 Hread Hparse Hnarrow.
  destruct (load_file_fast_narrow lib lossy path content ed lines
              (Some encoding) _ Hread Hparse Hnarrow) as [Hloaded Hshown].
  fold ed1 in Hshown.
  split; [exact Hloaded|]. split; [exact Hshown|].
  intros Hcp Hascii Hw Hbackup.
  assert (Hready : roundtrip_ready (headers ed1) (data ed1)).
  { unfold read_lines in Hread.
    destruct (try_encodings lib encodings_to_try content)
      as [[lines' encoding']|] eqn:Htry; [|discriminate].
    injection Hread as -> ->.
    destruct (try_encodings_some lib _ _ _ _ Htry)
      as (_ & _ & text & _ & _ & _ & ->).
    apply (loaded_table_ready text (ProtoTable (headers ed1) (data ed1))).
    exact Hparse. }
  pose proof (load_written_table _ _ Hready) as Htext.
  destruct (read_written_ascii lib lossy _ Hcp Hascii)
    as (bs & Henc & Hread').
  exists bs. split; [exact Henc|].
  destruct (save_to_file_content now ed1 path fs bs) as [Hdone Hfile];
    [rewrite Hshown; exact Henc|exact Hw|exact Hbackup|].
  split; [exact Hdone|]. split; [exact Hfile|].
  destruct (load_file_fast_narrow lib lossy path bs ed1 _ _ _ Hread' Htext
              Hnarrow) as [Hloaded' Hshown'].
  destruct (load_file_fast_parses lib lossy path bs ed1 _ _ _ Hread' Htext)
    as (Hheaders & Hdata & _).
  destruct (load_file_fast_parses lib lossy path content ed _ _ _ Hread
              Hparse) as (_ & Hfirst & _).
  fold ed1 in Hfirst. cbn [pt_headers pt_data] in *.
  assert (Hsame : data (load_file_fast lib lossy path bs ed1).1 = data ed1).
  { rewrite Hdata. unfold ed1 at 1.
    rewrite load_file_fast_names. symmetry. exact Hfirst. }
  split; [exact Hloaded'|]. split; [exact Hheaders|].
  split; [exact Hsame|]. rewrite Hshown'. exact Hsame.
Qed.

Lemma load_save_load_witness :
  let content :=
    bytes "VNUM" ++ [x09] ++ bytes "NAME" ++ [x09] ++ bytes "LEVEL"
    ++ [x0d; x0a; x0a] ++ bytes "  101" ++ [x09] ++ bytes "Wolf"
    ++ [x09; x0d; x0a] in
  let rows := [[py "101"; py "Wolf"; []]] in
  let ed1 := (load_file_fast ascii_cp949 lossy_ascii proto_path content
                sample_editor).1 in
  data ed1 = rows
  /\ current_data (table ed1) = rows
  /\ exists bs,
       files (save_to_file sample_now ed1 proto_path open_fs).1 !! proto_path
       = Some bs
       /\ (load_file_fast ascii_cp949 lossy_ascii proto_path bs ed1).2
          = Loaded
       /\ data (load_file_fast ascii_cp949 lossy_ascii proto_path bs ed1).1
          = rows
       /\ current_data
            (table (load_file_fast ascii_cp949 lossy_ascii proto_path bs
                      ed1).1)
          = rows.
Proof.
  intros content rows ed1.
  assert (Hrows : data ed1 = rows) by reflexivity.
  split; [exact Hrows|].
  destruct (load_save_load ascii_cp949 lossy_ascii sample_now proto_path
              content sample_editor open_fs
              [py "VNUM" ++ [TAB] ++ py "NAME" ++ [TAB] ++ py "LEVEL";
               py "101" ++ [TAB] ++ py "Wolf"]
              (py "cp949"))
    as (_ & Hshown & Hsaved).
  - reflexivity.
  - reflexivity.
  - apply (bool_decide_unpack _). vm_compute. exact I.
  - fold ed1 in Hshown, Hsaved. rewrite Hshown, Hrows. split; [reflexivity|].
    destruct Hsaved as (bs & _ & _ & Hfile & Hloaded & _ & Hdata & Hgrid).
    + intros bs Hascii. unfold ascii_cp949.
      replace (forallb (fun b => Byte.to_N b <? 128) bs) with true.
      * reflexivity.
      * symmetry. apply forallb_forall. intros b Hb.
        rewrite Forall_forall in Hascii. apply N.ltb_lt, Hascii.
        apply list_elem_of_In, Hb.
    + apply (bool_decide_unpack _). vm_compute. exact I.
    + reflexivity.
    + intros _. reflexivity.
    + exists bs. rewrite Hrows in Hdata, Hgrid. auto.
Defined.
